(** * markdown-surgeon: the section-addressable document model

    A shallow embedding of [hash.ts], [parser.ts] and the commands of
    [cli.ts], and the properties of the document model proved about
    it.

    Conventions of the embedding:
    - a JavaScript string is the list of its UTF-16 code units, each an
      [N] below [2^16]; whitespace, line terminators, [trim] and the
      header regular expression are those of ECMAScript;
    - line numbers, levels and array indices are [nat]; the numbers of a
      [MutationResult] are [Z], so that a difference is the difference;
    - the [occurrences] map is a [gmap], the files of the disk are a
      [gmap] from paths to texts;
    - a function that throws returns a [Result]; a command, which reads
      and writes files, is a function of the [World] that returns a
      [Result] and the new [World];
    - the digest is SHA-256 as FIPS 180-4 defines it, on the UTF-8
      encoding of the string. *)

From Stdlib Require Import NArith ZArith Ascii String.
From stdpp Require Import gmap list strings.

Set Default Proof Using "Type".

(** ** JavaScript strings *)

Module Js.

Local Open Scope N_scope.

(** A string literal of the source; the literals of this development are
    ASCII, where a byte is its own code unit. *)
Definition lit (s : string) : list N :=
  (fun a => N_of_ascii a) <$> list_ascii_of_string s.

Definition LF : N := 10.
Definition HASH : N := 35.
Definition COLON : N := 58.

(** ECMAScript [LineTerminator]: LF, CR, LS, PS. A [.] of a regular
    expression without the [s] flag matches every code unit but these. *)
Definition isLineTerminator (c : N) : bool :=
  (c =? 0x0A) || (c =? 0x0D) || (c =? 0x2028) || (c =? 0x2029).

(** ECMAScript [WhiteSpace] and [LineTerminator]: what [\s] matches and
    what [String.prototype.trim] strips. *)
Definition isWhiteSpace (c : N) : bool :=
  (c =? 0x09) || (c =? 0x0B) || (c =? 0x0C) || (c =? 0x20) || (c =? 0xA0)
  || (c =? 0x1680) || ((0x2000 <=? c) && (c <=? 0x200A))
  || (c =? 0x202F) || (c =? 0x205F) || (c =? 0x3000) || (c =? 0xFEFF)
  || isLineTerminator c.

Fixpoint trimStart (s : list N) : list N :=
  match s with
  | c :: s' => if isWhiteSpace c then trimStart s' else s
  | [] => []
  end.

Definition trimEnd (s : list N) : list N := reverse (trimStart (reverse s)).

(** [s.trim()] *)
Definition trim (s : list N) : list N := trimEnd (trimStart s).

(** [s.startsWith(p)] *)
Fixpoint startsWith (p s : list N) : bool :=
  match p, s with
  | [], _ => true
  | a :: p', b :: s' => (a =? b) && startsWith p' s'
  | _ :: _, [] => false
  end.

(** [a === b] on strings *)
Definition eqb (a b : list N) : bool := bool_decide (a = b).

(** [s.split("\n")]: never empty, the empty string gives one empty line. *)
Fixpoint split (s : list N) : list (list N) :=
  match s with
  | [] => [[]]
  | c :: s' =>
      if c =? LF then [] :: split s'
      else match split s' with
           | l :: ls => (c :: l) :: ls
           | [] => [[c]]
           end
  end.

(** [ls.join("\n")] *)
Fixpoint join (ls : list (list N)) : list N :=
  match ls with
  | [] => []
  | [l] => l
  | l :: ls' => l ++ LF :: join ls'
  end.

(** [String(n)] for a non-negative integer: its decimal digits. *)
Definition digit (d : N) : N := 48 + d.

Fixpoint decimal_aux (fuel : nat) (n : N) (acc : list N) : list N :=
  match fuel with
  | O => acc
  | S fuel' =>
      let acc' := digit (n mod 10) :: acc in
      if n / 10 =? 0 then acc' else decimal_aux fuel' (n / 10) acc'
  end.

Definition decimal (n : nat) : list N :=
  decimal_aux (S n) (N.of_nat n) [].

(** ASCII lower-casing: what [toLowerCase] does to a string of ASCII
    code units. *)
Definition asciiLower (s : list N) : list N :=
  (fun c => if (65 <=? c) && (c <=? 90) then c + 32 else c) <$> s.

Definition SPACE : N := 32.

(** [s.includes(p)] *)
Fixpoint includes (p s : list N) : bool :=
  startsWith p s
  || match s with
     | [] => false
     | _ :: s' => includes p s'
     end.

(** [ls.join(sep)] *)
Fixpoint joinWith (sep : list N) (ls : list (list N)) : list N :=
  match ls with
  | [] => []
  | [l] => l
  | l :: ls' => l ++ sep ++ joinWith sep ls'
  end.

End Js.

Abbreviation jsstring := (list N).

(** ** SHA-256 (FIPS 180-4), the digest behind [crypto.subtle.digest] *)

Module Sha256.

Local Open Scope N_scope.

Definition w32 (x : N) : N := x mod 2 ^ 32.
Definition add32 (x y : N) : N := w32 (x + y).
Definition rotr (n x : N) : N :=
  N.lor (N.shiftr x n) (w32 (N.shiftl x (32 - n))).
Definition not32 (x : N) : N := N.lxor x 0xFFFFFFFF.

Definition Ch (x y z : N) : N := N.lxor (N.land x y) (N.land (not32 x) z).
Definition Maj (x y z : N) : N :=
  N.lxor (N.lxor (N.land x y) (N.land x z)) (N.land y z).
Definition bigSigma0 (x : N) : N :=
  N.lxor (N.lxor (rotr 2 x) (rotr 13 x)) (rotr 22 x).
Definition bigSigma1 (x : N) : N :=
  N.lxor (N.lxor (rotr 6 x) (rotr 11 x)) (rotr 25 x).
Definition smallSigma0 (x : N) : N :=
  N.lxor (N.lxor (rotr 7 x) (rotr 18 x)) (N.shiftr x 3).
Definition smallSigma1 (x : N) : N :=
  N.lxor (N.lxor (rotr 17 x) (rotr 19 x)) (N.shiftr x 10).

(** A 32-bit word from its two 16-bit halves. *)
Definition wd (hi lo : N) : N := hi * 65536 + lo.

(** The round constants: the first 32 bits of the fractional parts of
    the cube roots of the first 64 primes. *)
Definition K : list N :=
    (wd 0x428a 0x2f98) :: (wd 0x7137 0x4491) :: (wd 0xb5c0 0xfbcf) :: (wd 0xe9b5 0xdba5) ::
    (wd 0x3956 0xc25b) :: (wd 0x59f1 0x11f1) :: (wd 0x923f 0x82a4) :: (wd 0xab1c 0x5ed5) ::
    (wd 0xd807 0xaa98) :: (wd 0x1283 0x5b01) :: (wd 0x2431 0x85be) :: (wd 0x550c 0x7dc3) ::
    (wd 0x72be 0x5d74) :: (wd 0x80de 0xb1fe) :: (wd 0x9bdc 0x06a7) :: (wd 0xc19b 0xf174) ::
    (wd 0xe49b 0x69c1) :: (wd 0xefbe 0x4786) :: (wd 0x0fc1 0x9dc6) :: (wd 0x240c 0xa1cc) ::
    (wd 0x2de9 0x2c6f) :: (wd 0x4a74 0x84aa) :: (wd 0x5cb0 0xa9dc) :: (wd 0x76f9 0x88da) ::
    (wd 0x983e 0x5152) :: (wd 0xa831 0xc66d) :: (wd 0xb003 0x27c8) :: (wd 0xbf59 0x7fc7) ::
    (wd 0xc6e0 0x0bf3) :: (wd 0xd5a7 0x9147) :: (wd 0x06ca 0x6351) :: (wd 0x1429 0x2967) ::
    (wd 0x27b7 0x0a85) :: (wd 0x2e1b 0x2138) :: (wd 0x4d2c 0x6dfc) :: (wd 0x5338 0x0d13) ::
    (wd 0x650a 0x7354) :: (wd 0x766a 0x0abb) :: (wd 0x81c2 0xc92e) :: (wd 0x9272 0x2c85) ::
    (wd 0xa2bf 0xe8a1) :: (wd 0xa81a 0x664b) :: (wd 0xc24b 0x8b70) :: (wd 0xc76c 0x51a3) ::
    (wd 0xd192 0xe819) :: (wd 0xd699 0x0624) :: (wd 0xf40e 0x3585) :: (wd 0x106a 0xa070) ::
    (wd 0x19a4 0xc116) :: (wd 0x1e37 0x6c08) :: (wd 0x2748 0x774c) :: (wd 0x34b0 0xbcb5) ::
    (wd 0x391c 0x0cb3) :: (wd 0x4ed8 0xaa4a) :: (wd 0x5b9c 0xca4f) :: (wd 0x682e 0x6ff3) ::
    (wd 0x748f 0x82ee) :: (wd 0x78a5 0x636f) :: (wd 0x84c8 0x7814) :: (wd 0x8cc7 0x0208) ::
    (wd 0x90be 0xfffa) :: (wd 0xa450 0x6ceb) :: (wd 0xbef9 0xa3f7) :: (wd 0xc671 0x78f2) :: [].

(** Padding: the bit 1, zero bits up to 56 mod 64 bytes, then the length
    of the message in bits on 64 bits, big-endian. *)
Definition be_bytes (k : nat) (x : N) : list N :=
  (fun i => N.shiftr x (8 * N.of_nat i) mod 256) <$> reverse (seq 0 k).

Definition pad (msg : list N) : list N :=
  let len := length msg in
  let zeros := ((119 - len mod 64) mod 64)%nat in
  msg ++ 0x80 :: replicate zeros 0 ++ be_bytes 8 (8 * N.of_nat len).

(** Big-endian words of a byte string whose length is a multiple of 4. *)
Fixpoint words (bytes : list N) : list N :=
  match bytes with
  | a :: b :: c :: d :: rest =>
      (N.shiftl a 24 + N.shiftl b 16 + N.shiftl c 8 + d) :: words rest
  | _ => []
  end.

Fixpoint blocks (fuel : nat) (ws : list N) : list (list N) :=
  match fuel with
  | O => []
  | S fuel' =>
      match ws with
      | [] => []
      | _ => take 16 ws :: blocks fuel' (drop 16 ws)
      end
  end.

(** The message schedule, kept most recent word first while it grows. *)
Fixpoint schedule (n : nat) (recent : list N) : list N :=
  match n with
  | O => recent
  | S n' =>
      let at_ i := default 0 (recent !! i) in
      let wt :=
        add32 (add32 (smallSigma1 (at_ 1%nat)) (at_ 6%nat))
              (add32 (smallSigma0 (at_ 14%nat)) (at_ 15%nat)) in
      schedule n' (wt :: recent)
  end.

Definition W (block : list N) : list N :=
  reverse (schedule 48 (reverse block)).

Record Regs := mkRegs { ra : N; rb : N; rc : N; rd : N;
                        re : N; rf : N; rg : N; rh : N }.

Definition round (r : Regs) (kw : N * N) : Regs :=
  let t1 := add32 (add32 (add32 (add32 (rh r) (bigSigma1 (re r)))
                                 (Ch (re r) (rf r) (rg r))) kw.1) kw.2 in
  let t2 := add32 (bigSigma0 (ra r)) (Maj (ra r) (rb r) (rc r)) in
  mkRegs (add32 t1 t2) (ra r) (rb r) (rc r)
         (add32 (rd r) t1) (re r) (rf r) (rg r).

Definition compress (h : Regs) (block : list N) : Regs :=
  let r := foldl round h (zip K (W block)) in
  mkRegs (add32 (ra h) (ra r)) (add32 (rb h) (rb r))
         (add32 (rc h) (rc r)) (add32 (rd h) (rd r))
         (add32 (re h) (re r)) (add32 (rf h) (rf r))
         (add32 (rg h) (rg r)) (add32 (rh h) (rh r)).

(** The initial hash value: the first 32 bits of the fractional parts
    of the square roots of the first 8 primes. *)
Definition init : Regs :=
  mkRegs (wd 0x6a09 0xe667) (wd 0xbb67 0xae85) (wd 0x3c6e 0xf372) (wd 0xa54f 0xf53a)
         (wd 0x510e 0x527f) (wd 0x9b05 0x688c) (wd 0x1f83 0xd9ab) (wd 0x5be0 0xcd19).

(** The 32 bytes of the digest of a byte string. *)
Definition digest (msg : list N) : list N :=
  let ws := words (pad msg) in
  let r := foldl compress init (blocks (length ws) ws) in
  be_bytes 4 (ra r) ++ be_bytes 4 (rb r) ++ be_bytes 4 (rc r)
  ++ be_bytes 4 (rd r) ++ be_bytes 4 (re r) ++ be_bytes 4 (rf r)
  ++ be_bytes 4 (rg r) ++ be_bytes 4 (rh r).

End Sha256.

(** ** [TextEncoder.encode]: UTF-8 of a string of UTF-16 code units *)

Module Utf8.

Local Open Scope N_scope.

Definition isHigh (c : N) : bool := (0xD800 <=? c) && (c <? 0xDC00).
Definition isLow (c : N) : bool := (0xDC00 <=? c) && (c <? 0xE000).

Definition three (c : N) : list N :=
  [N.lor 0xE0 (N.shiftr c 12);
   N.lor 0x80 (N.land (N.shiftr c 6) 0x3F);
   N.lor 0x80 (N.land c 0x3F)].

Definition four (cp : N) : list N :=
  [N.lor 0xF0 (N.shiftr cp 18);
   N.lor 0x80 (N.land (N.shiftr cp 12) 0x3F);
   N.lor 0x80 (N.land (N.shiftr cp 6) 0x3F);
   N.lor 0x80 (N.land cp 0x3F)].

(** A lone surrogate is encoded as U+FFFD. *)
Definition replacement : list N := three 0xFFFD.

Fixpoint encode (s : list N) : list N :=
  match s with
  | [] => []
  | c :: s' =>
      if c <? 0x80 then c :: encode s'
      else if c <? 0x800 then
        N.lor 0xC0 (N.shiftr c 6) :: N.lor 0x80 (N.land c 0x3F) :: encode s'
      else if isHigh c then
        match s' with
        | d :: s'' =>
            if isLow d then
              four (0x10000 + N.shiftl (c - 0xD800) 10 + (d - 0xDC00))
              ++ encode s''
            else replacement ++ encode s'
        | [] => replacement
        end
      else if isLow c then replacement ++ encode s'
      else three c ++ encode s'
  end.

End Utf8.

(** [b.toString(16).padStart(2, "0")] for a byte, and the hex string of a
    byte array. *)
Definition hexDigit (d : N) : N :=
  (if d <? 10 then 48 + d else 87 + d)%N.

Definition hexByte (b : N) : jsstring :=
  [hexDigit (b / 16)%N; hexDigit (b mod 16)%N].

Definition hexString (bytes : list N) : jsstring :=
  concat (hexByte <$> bytes).

(** ** Types of [types.ts] *)

(** [Section] of the source (the name is a command of Rocq). *)
Record MdSection := mkSection {
  id : jsstring;
  level : nat;
  title : jsstring;
  line : nat;      (* 1-indexed line number of the header *)
  lineEnd : nat;   (* 1-indexed line number of the last content line *)
}.

Record Document := mkDocument {
  sections : list MdSection;
  lines : list jsstring;
  frontmatter : option jsstring;
  frontmatterEndLine : nat;
}.

Inductive Action := updated | created | appended | emptied | removed.

Module Mutation.
Record Result := mk {
  action : Action;
  id : jsstring;
  lineStart : Z;
  lineEnd : option Z;
  linesAdded : Z;
  linesRemoved : Z;
}.
End Mutation.

Inductive ErrorCode :=
  file_not_found | section_not_found | parse_error | invalid_id | io_error.

(** [MdError]: the code, the file and the id; the message, a text for
    humans built from the same two strings, is left out. *)
Module MdError.
Record t := mk {
  code : ErrorCode;
  file : option jsstring;
  id : option jsstring;
}.
End MdError.

Module SearchMatch.
Record t := mk {
  sectionId : option jsstring;  (* null if outside any section *)
  line : nat;
  content : jsstring;
}.
End SearchMatch.

Module SearchSummary.
Record t := mk {
  id : jsstring;
  level : nat;
  title : jsstring;
  lines : list nat;
  matchCount : nat;
}.
End SearchSummary.

(** A call that returns [a] or throws an [MdError]. *)
Inductive Result (A : Type) :=
  | Throw (e : MdError.t)
  | Return (a : A).
Arguments Throw {A} e.
Arguments Return {A} a.

(** ** The disk, and commands that read and write it *)

(** [files] holds the text of every file that exists; a path in
    [unreadable] or [unwritable] is one on which the read or the write of
    Deno fails for another reason than absence. *)
Record World := mkWorld {
  files : gmap jsstring jsstring;
  unreadable : gset jsstring;
  unwritable : gset jsstring;
}.

Definition IO (A : Type) : Type := World -> Result A * World.

Definition io_ret {A} (a : A) : IO A := fun w => (Return a, w).

Definition io_throw {A} (e : MdError.t) : IO A := fun w => (Throw e, w).

Definition io_bind {A B} (m : IO A) (k : A -> IO B) : IO B :=
  fun w =>
    match m w with
    | (Throw e, w') => (Throw e, w')
    | (Return a, w') => k a w'
    end.

Definition io_lift {A} (r : Result A) : IO A := fun w => (r, w).

#[export] Instance io_mret : MRet IO := @io_ret.
#[export] Instance io_mbind : MBind IO := fun A B k m => io_bind m k.

(** [readFile] of [cli.ts]. *)
Definition readFile (path : jsstring) : IO jsstring :=
  fun w =>
    match files w !! path with
    | None =>
        (Throw (MdError.mk file_not_found (Some path) None), w)
    | Some content =>
        if decide (path ∈ unreadable w)
        then (Throw (MdError.mk io_error (Some path) None), w)
        else (Return content, w)
    end.

(** [writeFile] of [cli.ts]. *)
Definition writeFile (path content : jsstring) : IO () :=
  fun w =>
    if decide (path ∈ unwritable w)
    then (Throw (MdError.mk io_error (Some path) None), w)
    else (Return (),
          mkWorld (<[path := content]> (files w))
                  (unreadable w) (unwritable w)).

(** ** Texts and disks used as examples *)

Module Ex.

(** The text whose lines are [ls]. *)
Definition text (ls : list string) : jsstring := Js.join (Js.lit <$> ls).

Definition fenced : jsstring :=
  text ["# A"; "```"; "# not a header"; "```"; "## B"].

Definition nested : jsstring :=
  text ["# A"; "x"; ""; "## B"; "y"; ""; "# C"].

Definition siblings : jsstring :=
  text ["# A"; "old"; ""; "# B"; "keep"].

(** Two titles whose ids are the same 8 hex characters. *)
Definition colliding : jsstring :=
  text ["# afmd"; "foo"; "# egcp"; "bar"].

(** The same header 24 times: the ids of the 6th and of the 24th are the
    same 8 hex characters. *)
Definition repeated : jsstring :=
  Js.join (replicate 24 (Js.lit "# t34743085")).

Definition short : jsstring := text ["# A"; "x"].

Definition notes : jsstring := Js.lit "notes.md".

(** A disk with the one file [notes], readable and writable. *)
Definition disk (t : jsstring) : World := mkWorld {[ notes := t ]} ∅ ∅.

(** Collaborators for texts that are ASCII, have no frontmatter and no
    magic expression. *)
Definition lower (s : jsstring) : jsstring := s.
Definition yaml (s : jsstring) : () := ().
Definition magic (s : jsstring) (m : ()) : jsstring := s.

(** The section [# A] of [nested] and of [siblings], as the parser
    makes it. *)
Definition sectionA : MdSection :=
  mkSection (Js.lit "4887bbd6") 1 (Js.lit "A") 1 3.

(** A text with frontmatter. *)
Definition withMeta : jsstring :=
  text ["---"; "title: Old"; "---"; ""; "# Title"].

(** A toy frontmatter of one [key: value] line, kept as its text. *)
Definition metaOfText (s : jsstring) : jsstring := s.
Definition textOfMeta (m : jsstring) : jsstring := m.
Definition keepText (s m : jsstring) : jsstring := s.
Definition setLine (m key value : jsstring) : jsstring :=
  key ++ Js.lit ": " ++ value.
Definition dropLine (m key : jsstring) : option jsstring :=
  if Js.startsWith key m then Some (Js.lit "rest: 1") else None.
Definition valueOf (m key : jsstring) : jsstring :=
  drop (length key + 2) m.

End Ex.

(** ** [hash.ts], [parser.ts] and [cli.ts]

    Three things that the program calls are no part of it and are
    parameters here, so that everything below holds whatever they are:
    - [unicodeLower], the case conversion of ECMAScript on a string with
      a code unit outside ASCII (on an ASCII string [toLowerCase] is
      [Js.asciiLower]);
    - [parseFrontmatter], the YAML collaborator ([Meta] is the parsed
      frontmatter); it is total, as it catches what the YAML parser
      throws;
    - [magic], what [expandMagic] makes of a string with an opening
      brace, read with the clock of the invocation (a string without
      one has no magic expression and is returned as it is). *)

Section Surgeon.

Variable unicodeLower : jsstring -> jsstring.
Variable Meta : Type.
Variable parseFrontmatter : jsstring -> Meta.
Variable magic : jsstring -> Meta -> jsstring.

Definition isAscii (s : jsstring) : bool :=
  forallb (fun c => (c <? 128)%N) s.

(** [s.toLowerCase()] *)
Definition toLowerCase (s : jsstring) : jsstring :=
  if isAscii s then Js.asciiLower s else unicodeLower s.

Definition LBRACE : N := 123.

(** [expandMagic(input, meta)]: [input.replace(/\{([^}]+)\}/g, ...)]. *)
Definition expandMagic (input : jsstring) (meta : Meta) : jsstring :=
  if existsb (fun c => (c =? LBRACE)%N) input then magic input meta
  else input.

(** *** hash.ts *)

Definition sectionHash (level : nat) (title : jsstring)
    (occurrenceIndex : nat) : jsstring :=
  let input :=
    Js.decimal level ++ Js.COLON :: Js.trim (toLowerCase title)
    ++ Js.COLON :: Js.decimal occurrenceIndex in
  let data := Utf8.encode input in
  let hashArray := Sha256.digest data in
  let hashHex := hexString hashArray in
  take 8 hashHex.

(** A code unit that [[0-9a-f]] matches under the [i] flag. *)
Definition isHexDigit (c : N) : bool :=
  ((48 <=? c) && (c <=? 57) || (97 <=? c) && (c <=? 102)
   || (65 <=? c) && (c <=? 70))%N.

(** [/^[0-9a-f]{8}$/i.test(id)] *)
Definition isValidId (id : jsstring) : bool :=
  (length id =? 8) && forallb isHexDigit id.

(** *** parser.ts *)

(** [HEADER_REGEX = /^(#{1,6})\s+(.+)$/], matched by backtracking as the
    regular expression is: each quantifier is greedy and gives back one
    code unit at a time.

    [(.+)$]: the rest of the string, not empty, without line terminator. *)
Definition dotPlusEnd (s : jsstring) : bool :=
  match s with
  | [] => false
  | _ => forallb (fun c => negb (Js.isLineTerminator c)) s
  end.

(** [\s+(.+)$]: the result is the second group. *)
Fixpoint spacesThen (s : jsstring) : option jsstring :=
  match s with
  | c :: s' =>
      if Js.isWhiteSpace c then
        match spacesThen s' with
        | Some r => Some r
        | None => if dotPlusEnd s' then Some s' else None
        end
      else None
  | [] => None
  end.

(** [#{1,n}\s+(.+)$]: the length of the first group and the second
    group. *)
Fixpoint hashesThen (n : nat) (s : jsstring) : option (nat * jsstring) :=
  match n with
  | O => None
  | S n' =>
      match s with
      | c :: s' =>
          if (c =? Js.HASH)%N then
            match hashesThen n' s' with
            | Some (k, r) => Some (S k, r)
            | None =>
                match spacesThen s' with
                | Some r => Some (1, r)
                | None => None
                end
            end
          else None
      | [] => None
      end
  end.

(** [line.match(HEADER_REGEX)]: [match[1].length] and [match[2]]. *)
Definition matchHeader (line : jsstring) : option (nat * jsstring) :=
  hashesThen 6 line.

Definition FRONTMATTER_DELIMITER : jsstring := Js.lit "---".

(** [l?.trim() === s] for a line that may be [undefined]. *)
Definition trimIs (l : option jsstring) (s : jsstring) : bool :=
  match l with
  | Some x => Js.eqb (Js.trim x) s
  | None => false
  end.

(** The loop that looks for the closing delimiter: the first index, from
    [i] on, of a line that trims to the delimiter. *)
Fixpoint findClosing (ls : list jsstring) (i : nat) : option nat :=
  match ls with
  | [] => None
  | l :: ls' =>
      if trimIs (Some l) FRONTMATTER_DELIMITER then Some i
      else findClosing ls' (S i)
  end.

(** A line that opens or closes a code block. *)
Definition isFence (line : jsstring) : bool :=
  Js.startsWith (Js.lit "```") (Js.trim line)
  || Js.startsWith (Js.lit "~~~") (Js.trim line).

(** [`${level}:${title.toLowerCase().trim()}`] *)
Definition normalizedKey (level : nat) (title : jsstring) : jsstring :=
  Js.decimal level ++ Js.COLON :: Js.trim (toLowerCase title).

(** The loop over the lines from [startLine] on: [ls] are the lines not
    yet seen, [i] the index of the first of them, [total] is
    [lines.length]. The sections are pushed in this order. *)
Fixpoint scanSections (total : nat) (ls : list jsstring) (i : nat)
    (inCodeBlock : bool) (occurrences : gmap jsstring nat)
    : list MdSection :=
  match ls with
  | [] => []
  | line :: rest =>
      if isFence line then
        scanSections total rest (S i) (negb inCodeBlock) occurrences
      else if inCodeBlock then
        scanSections total rest (S i) inCodeBlock occurrences
      else
        match matchHeader line with
        | Some (level, m2) =>
            let title := Js.trim m2 in
            let key := normalizedKey level title in
            let occurrence := default 0 (occurrences !! key) in
            mkSection (sectionHash level title occurrence) level title
                      (i + 1) total
            :: scanSections total rest (S i) inCodeBlock
                 (<[key := occurrence + 1]> occurrences)
        | None => scanSections total rest (S i) inCodeBlock occurrences
        end
  end.

(** The [while] that trims trailing blank lines: from [last] down, never
    below [floor]. *)
Fixpoint trimBack (lines : list jsstring) (floor last : nat) : nat :=
  match last with
  | O => O
  | S last' =>
      if (floor <? last) && trimIs (lines !! last') []
      then trimBack lines floor last'
      else last
  end.

(** The loop that computes [lineEnd] for each section. *)
Fixpoint fixLineEnds (lines : list jsstring) (ss : list MdSection)
    : list MdSection :=
  match ss with
  | [] => []
  | s :: rest =>
      let lineEnd' :=
        match rest with
        | nextSection :: _ => line nextSection - 1
        | [] => trimBack lines (line s) (length lines)
        end in
      mkSection (id s) (level s) (title s) (line s) lineEnd'
      :: fixLineEnds lines rest
  end.

(** The frontmatter block: the text, [frontmatterEndLine], [startLine]. *)
Definition parseFrontmatterBlock (lines : list jsstring)
    : option jsstring * nat * nat :=
  if trimIs (lines !! 0) FRONTMATTER_DELIMITER then
    match findClosing (drop 1 lines) 1 with
    | Some i => (Some (Js.join (take (i + 1) lines)), i + 1, i + 1)
    | None => (None, 0, 0)
    end
  else (None, 0, 0).

Definition parseDocument (content : jsstring) : Document :=
  let lines := Js.split content in
  let '(frontmatter, frontmatterEndLine, startLine) :=
    parseFrontmatterBlock lines in
  let sections :=
    scanSections (length lines) (drop startLine lines) startLine false ∅ in
  mkDocument (fixLineEnds lines sections) lines frontmatter
             frontmatterEndLine.

Definition findSection (doc : Document) (id' : jsstring)
    : option MdSection :=
  find (fun s => Js.eqb (id s) id') (sections doc).

(** [xs.findIndex(p)], [None] for [-1]. *)
Fixpoint findIndex {A} (p : A -> bool) (xs : list A) : option nat :=
  match xs with
  | [] => None
  | x :: xs' => if p x then Some 0 else S <$> findIndex p xs'
  end.

Definition getSectionEndLine (doc : Document) (section : MdSection)
    (deep : bool) : Result nat :=
  match findIndex (fun s => Js.eqb (id s) (id section)) (sections doc) with
  | None =>
      Throw (MdError.mk section_not_found None None)
  | Some sectionIndex =>
      if negb deep then Return (lineEnd section)
      else
        match find (fun s => level s <=? level section)
                   (drop (sectionIndex + 1) (sections doc)) with
        | Some s => Return (line s - 1)
        | None =>
            Return (trimBack (lines doc) (line section)
                             (length (lines doc)))
        end
  end.

(** [xs.slice(a, b)] for [0 <= a] and [0 <= b]. *)
Definition slice {A} (a b : nat) (xs : list A) : list A :=
  take (b - a) (drop a xs).

Definition getSectionContent (doc : Document) (section : MdSection)
    (deep : bool) : Result jsstring :=
  match getSectionEndLine doc section deep with
  | Throw e => Throw e
  | Return endLine =>
      Return (Js.join (slice (line section) endLine (lines doc)))
  end.

Definition serializeDocument (doc : Document) : jsstring :=
  Js.join (lines doc).

(** [lines.slice(1, -1)]: without the first and the last element. *)
Definition getFrontmatterContent (doc : Document) : jsstring :=
  match frontmatter doc with
  | None => []
  | Some fm =>
      if Js.eqb fm [] then []
      else Js.join (removelast (tail (Js.split fm)))
  end.

Definition startsWithHeader (content : jsstring)
    : option (nat * jsstring) :=
  match Js.split content !! 0 with
  | Some firstLine =>
      match matchHeader firstLine with
      | Some (k, m2) => Some (k, Js.trim m2)
      | None => None
      end
  | None => None
  end.

(** *** cli.ts: the commands

    Each command returns the record that the source then renders as text
    or as JSON ([formatMutation], [jsonMutation], [formatRead],
    [jsonRead]); the rendering and its [json] flag are left out. *)

Definition invalidId (file id' : jsstring) : MdError.t :=
  MdError.mk invalid_id (Some file) (Some id').

Definition sectionNotFound (file id' : jsstring) : MdError.t :=
  MdError.mk section_not_found (Some file) (Some id').

(** The three arguments of [formatRead] and [jsonRead]. *)
Definition cmdRead (file id' : jsstring) (deep : bool)
    : IO (MdSection * jsstring * nat) :=
  if negb (isValidId id') then io_throw (invalidId file id')
  else
    content ← readFile file;
    let doc := parseDocument content in
    match findSection doc id' with
    | None => io_throw (sectionNotFound file id')
    | Some section =>
        endLine ← io_lift (getSectionEndLine doc section deep);
        sectionContent ← io_lift (getSectionContent doc section deep);
        mret (section, sectionContent, endLine)
    end.

(** [newLines.unshift("")] when [cond]. *)
Definition unshiftBlankIf (cond : bool) (newLines : list jsstring)
    : list jsstring :=
  if cond then [] :: newLines else newLines.

Definition cmdWrite (file id' newContent : jsstring) (deep : bool)
    : IO Mutation.Result :=
  if negb (isValidId id') then io_throw (invalidId file id')
  else
    fileContent ← readFile file;
    let doc := parseDocument fileContent in
    match findSection doc id' with
    | None => io_throw (sectionNotFound file id')
    | Some section =>
        let meta := parseFrontmatter (getFrontmatterContent doc) in
        let expandedContent := expandMagic newContent meta in
        endLine ← io_lift (getSectionEndLine doc section deep);
        let oldLineCount := (Z.of_nat endLine - Z.of_nat (line section))%Z in
        let newLines0 :=
          if Js.eqb expandedContent [] then []
          else Js.split expandedContent in
        let newLines :=
          unshiftBlankIf
            ((0 <? length newLines0)
             && negb (trimIs (newLines0 !! 0) [])) newLines0 in
        let beforeSection := slice 0 (line section) (lines doc) in
        let afterSection := drop endLine (lines doc) in
        let doc' :=
          mkDocument (sections doc)
                     (beforeSection ++ newLines ++ afterSection)
                     (frontmatter doc) (frontmatterEndLine doc) in
        writeFile file (serializeDocument doc');;
        mret (Mutation.mk updated (id section)
                (Z.of_nat (line section))
                (Some (Z.of_nat (line section + length newLines)))
                (Z.of_nat (length newLines))
                oldLineCount)
    end.

(** [lines.splice(start, 0, ...items)] *)
Definition spliceInsert {A} (start : nat) (items xs : list A) : list A :=
  take start xs ++ items ++ drop start xs.

(** [l?.trim() !== ""] for a line that may be [undefined]: an
    [undefined] line is different from the empty string. *)
Definition trimIsNotEmpty (l : option jsstring) : bool :=
  match l with
  | Some x => negb (Js.eqb (Js.trim x) [])
  | None => true
  end.

Definition DASH : jsstring := Js.lit "-".

Definition cmdAppend (file : jsstring) (id' : option jsstring)
    (newContent : jsstring) (deep before : bool) : IO Mutation.Result :=
  fileContent ← readFile file;
  let doc := parseDocument fileContent in
  let meta := parseFrontmatter (getFrontmatterContent doc) in
  let expandedContent := expandMagic newContent meta in
  let newLines0 := Js.split expandedContent in
  '(insertLine, section) ←
    match id' with
    | None =>
        if before then mret (frontmatterEndLine doc, None)
        else mret (length (lines doc), None)
    | Some i =>
        if negb (isValidId i) then io_throw (invalidId file i)
        else
          match findSection doc i with
          | None => io_throw (sectionNotFound file i)
          | Some found =>
              if before then mret (line found - 1, Some found)
              else
                endLine ← io_lift (getSectionEndLine doc found deep);
                mret (endLine, Some found)
          end
    end;
  let newLines :=
    unshiftBlankIf
      (negb before && (0 <? insertLine)
       && trimIsNotEmpty (lines doc !! (insertLine - 1))
       && trimIsNotEmpty (newLines0 !! 0)) newLines0 in
  let doc' :=
    mkDocument (sections doc) (spliceInsert insertLine newLines (lines doc))
               (frontmatter doc) (frontmatterEndLine doc) in
  writeFile file (serializeDocument doc');;
  let headerInfo := startsWithHeader expandedContent in
  let action :=
    match headerInfo with Some _ => created | None => appended end in
  let resultId0 := default DASH (id <$> section) in
  let resultId :=
    match headerInfo with
    | Some (_, headerTitle) =>
        let newDoc := parseDocument (serializeDocument doc') in
        match find (fun s => (line s =? insertLine + 1)
                             && Js.eqb (title s) headerTitle)
                   (sections newDoc) with
        | Some newSection => id newSection
        | None => resultId0
        end
    | None => resultId0
    end in
  mret (Mutation.mk action resultId
          (Z.of_nat (insertLine + 1))
          (match headerInfo with
           | Some _ => Some (Z.of_nat (insertLine + length newLines))
           | None => None
           end)
          (Z.of_nat (length newLines))
          0%Z).

Definition cmdEmpty (file id' : jsstring) (deep : bool)
    : IO Mutation.Result :=
  if negb (isValidId id') then io_throw (invalidId file id')
  else
    fileContent ← readFile file;
    let doc := parseDocument fileContent in
    match findSection doc id' with
    | None => io_throw (sectionNotFound file id')
    | Some section =>
        endLine ← io_lift (getSectionEndLine doc section deep);
        let linesRemoved := (Z.of_nat endLine - Z.of_nat (line section))%Z in
        let beforeContent := slice 0 (line section) (lines doc) in
        let afterContent := drop endLine (lines doc) in
        let doc' :=
          mkDocument (sections doc) (beforeContent ++ afterContent)
                     (frontmatter doc) (frontmatterEndLine doc) in
        writeFile file (serializeDocument doc');;
        mret (Mutation.mk emptied (id section) (Z.of_nat (line section))
                None 0%Z linesRemoved)
    end.

Definition cmdRemove (file id' : jsstring) : IO Mutation.Result :=
  if negb (isValidId id') then io_throw (invalidId file id')
  else
    fileContent ← readFile file;
    let doc := parseDocument fileContent in
    match findSection doc id' with
    | None => io_throw (sectionNotFound file id')
    | Some section =>
        endLine ← io_lift (getSectionEndLine doc section true);
        let linesRemoved :=
          (Z.of_nat endLine - Z.of_nat (line section) + 1)%Z in
        let beforeSection := slice 0 (line section - 1) (lines doc) in
        let afterSection := drop endLine (lines doc) in
        let doc' :=
          mkDocument (sections doc) (beforeSection ++ afterSection)
                     (frontmatter doc) (frontmatterEndLine doc) in
        writeFile file (serializeDocument doc');;
        mret (Mutation.mk removed (id section) (Z.of_nat (line section))
                None 0%Z linesRemoved)
    end.

(** *** parser.ts: the section of a line, and the frontmatter editor *)

Definition findSectionAtLine (doc : Document) (lineNum : nat)
    : option MdSection :=
  find (fun s => line s <=? lineNum) (reverse (sections doc)).

(** The truth value of a string that may be [null]: [null] and the empty
    string are false. *)
Definition truthy (s : option jsstring) : bool :=
  match s with
  | Some (_ :: _) => true
  | _ => false
  end.

(** [setFrontmatter] changes [doc] in place; here it returns the changed
    document. *)
Definition setFrontmatter (doc : Document) (yamlContent : jsstring)
    : Document :=
  let newFrontmatter :=
    if Js.eqb (Js.trim yamlContent) [] then None
    else Some (Js.lit "---" ++ Js.LF :: Js.trim yamlContent
               ++ Js.LF :: Js.lit "---") in
  if truthy (frontmatter doc) then
    let oldEndLine := frontmatterEndLine doc in
    let newLines :=
      match newFrontmatter with
      | Some fm => Js.split fm
      | None => []
      end in
    mkDocument (sections doc) (newLines ++ drop oldEndLine (lines doc))
               newFrontmatter (length newLines)
  else
    match newFrontmatter with
    | Some fm =>
        let newLines := Js.split fm in
        mkDocument (sections doc) (newLines ++ [] :: lines doc)
                   (Some fm) (length newLines)
    | None => doc
    end.

(** *** cli.ts: the commands that only read

    As for the mutations, each command returns what the source then
    renders as text or as JSON. *)

(** The three results of [cmdOutline]: the count, the last section
    ([None] where the source prints [null] or nothing), the list. *)
Inductive Outline :=
  | OutlineCount (n : nat)
  | OutlineLast (s : option MdSection)
  | OutlineList (ss : list MdSection).

Definition cmdOutline (file : jsstring) (afterId : option jsstring)
    (last count : bool) : IO Outline :=
  content ← readFile file;
  let doc := parseDocument content in
  sections' ←
    (if truthy afterId then
       let afterId := default [] afterId in
       if negb (isValidId afterId) then io_throw (invalidId file afterId)
       else
         match findSection doc afterId with
         | None => io_throw (sectionNotFound file afterId)
         | Some parentSection =>
             parentEndLine ←
               io_lift (getSectionEndLine doc parentSection true);
             mret (List.filter
                     (fun s => (line parentSection <? line s)
                               && (line s <=? parentEndLine)
                               && (level parentSection <? level s))
                     (sections doc))
         end
     else mret (sections doc));
  if count then mret (OutlineCount (length sections'))
  else if last then mret (OutlineLast (list.last sections'))
  else mret (OutlineList sections').

(** The loop of [cmdSearch] over the lines: [ls] are the lines not yet
    seen, [i] the index of the first of them. *)
Fixpoint searchLines (doc : Document) (pattern : jsstring)
    (ls : list jsstring) (i : nat) : list SearchMatch.t :=
  match ls with
  | [] => []
  | l :: rest =>
      if Js.includes pattern l then
        let lineNum := i + 1 in
        SearchMatch.mk (id <$> findSectionAtLine doc lineNum) lineNum l
        :: searchLines doc pattern rest (S i)
      else searchLines doc pattern rest (S i)
  end.

(** [sectionMap]: a [Map] keeps its keys in the order of their first
    insertion, so it is the list of its entries in that order. *)
Fixpoint mapGet (key : jsstring)
    (m : list (jsstring * SearchSummary.t)) : option SearchSummary.t :=
  match m with
  | [] => None
  | (k, e) :: m' => if Js.eqb k key then Some e else mapGet key m'
  end.

(** [entry.lines.push(n); entry.matchCount++] on the entry of [key]. *)
Fixpoint mapPush (key : jsstring) (n : nat)
    (m : list (jsstring * SearchSummary.t))
    : list (jsstring * SearchSummary.t) :=
  match m with
  | [] => []
  | (k, e) :: m' =>
      if Js.eqb k key then
        (k, SearchSummary.mk (SearchSummary.id e) (SearchSummary.level e)
              (SearchSummary.title e) (SearchSummary.lines e ++ [n])
              (SearchSummary.matchCount e + 1)) :: m'
      else (k, e) :: mapPush key n m'
  end.

(** One turn of the loop that groups the matches by section. *)
Definition summarize (doc : Document)
    (sectionMap : list (jsstring * SearchSummary.t))
    (m : SearchMatch.t) : list (jsstring * SearchSummary.t) :=
  if negb (truthy (SearchMatch.sectionId m)) then sectionMap
  else
    let sid := default [] (SearchMatch.sectionId m) in
    match findSection doc sid with
    | None => sectionMap
    | Some section =>
        let sectionMap' :=
          match mapGet sid sectionMap with
          | Some _ => sectionMap
          | None =>
              sectionMap
              ++ [(sid, SearchSummary.mk (id section) (level section)
                          (title section) [] 0)]
          end in
        mapPush sid (SearchMatch.line m) sectionMap'
    end.

Inductive SearchResult :=
  | Matches (ms : list SearchMatch.t)
  | Summaries (ss : list SearchSummary.t).

Definition cmdSearch (file pattern : jsstring) (summary : bool)
    : IO SearchResult :=
  content ← readFile file;
  let doc := parseDocument content in
  let matches := searchLines doc pattern (lines doc) 0 in
  if negb summary then mret (Matches matches)
  else
    let sectionMap := foldl (summarize doc) [] matches in
    mret (Summaries (sectionMap.*2)).

(** The header shift of [cmdConcat] on one line. *)
Definition shiftLine (shift : Z) (l : jsstring) : jsstring :=
  match matchHeader l with
  | Some (k, m2) =>
      let newLevel := Z.to_nat (Z.min 6 (Z.of_nat k + shift)) in
      replicate newLevel Js.HASH ++ Js.SPACE :: m2
  | None => l
  end.

(** The loop of [cmdConcat] over the files from index [i] on. *)
Fixpoint concatFiles (files : list jsstring) (i : nat) (shift : Z)
    (firstFrontmatter : option jsstring) (outputs : list jsstring)
    : IO (option jsstring * list jsstring) :=
  match files with
  | [] => mret (firstFrontmatter, outputs)
  | f :: rest =>
      content ← readFile f;
      let doc := parseDocument content in
      let firstFrontmatter' :=
        if (i =? 0) && truthy (frontmatter doc) then frontmatter doc
        else firstFrontmatter in
      let startLine := frontmatterEndLine doc in
      let fileLines0 := drop startLine (lines doc) in
      let fileLines :=
        if (0 <? shift)%Z then shiftLine shift <$> fileLines0
        else fileLines0 in
      concatFiles rest (S i) shift firstFrontmatter'
                  (outputs ++ [Js.join fileLines])
  end.

Definition BLANK_LINE : jsstring := [Js.LF; Js.LF].

Definition cmdConcat (files : list jsstring) (shift : Z) : IO jsstring :=
  '(firstFrontmatter, outputs) ← concatFiles files 0 shift None [];
  let result := Js.joinWith BLANK_LINE outputs in
  match firstFrontmatter with
  | Some (c :: fm) => mret ((c :: fm) ++ BLANK_LINE ++ result)
  | _ => mret result
  end.

(** *** cli.ts: the frontmatter commands

    The YAML library stays outside, as for [parseFrontmatter]:
    [stringifyFrontmatter] and the walks of [yaml.ts] over the parsed
    object are parameters. The source changes the object in place; here
    each walk returns the changed object. [deleteNestedValue] gives
    [None] where the source returns [false]. [setMetaValue meta key v]
    is [setNestedValue(meta, key, parsedValue)], for the [parsedValue]
    that [cmdMeta] computes from the expanded value [v];
    [formatNestedValue meta key] is
    [formatValue(getNestedValue(meta, key))]. In [cmdCreate] the value
    given to [setNestedValue] is a string, and [emptyMeta] is [{}]. *)
Variable stringifyFrontmatter : Meta -> jsstring.
Variable deleteNestedValue : Meta -> jsstring -> option Meta.
Variable setMetaValue : Meta -> jsstring -> jsstring -> Meta.
Variable formatNestedValue : Meta -> jsstring -> jsstring.
Variable emptyMeta : Meta.
Variable setNestedValue : Meta -> jsstring -> jsstring -> Meta.

(** The two [parse_error]s of [cmdMeta]: a usage error and a key that
    is not there; neither names a file or an id. *)
Definition metaError : MdError.t := MdError.mk parse_error None None.

Definition cmdMeta (file : jsstring) (key value : option jsstring)
    (del getH1 : bool) : IO jsstring :=
  fileContent ← readFile file;
  let doc := parseDocument fileContent in
  if getH1 then
    mret match find (fun s => level s =? 1) (sections doc) with
         | Some h1 => title h1
         | None => []
         end
  else
    let yamlContent := getFrontmatterContent doc in
    let meta := parseFrontmatter yamlContent in
    if del then
      if negb (truthy key) then io_throw metaError
      else
        let key := default [] key in
        match deleteNestedValue meta key with
        | None => io_throw metaError
        | Some meta' =>
            let doc' := setFrontmatter doc (stringifyFrontmatter meta') in
            writeFile file (serializeDocument doc');;
            mret (Js.lit "deleted " ++ key)
        end
    else
      match value with
      | Some value =>
          if negb (truthy key) then io_throw metaError
          else
            let key := default [] key in
            let expandedValue := expandMagic value meta in
            let meta' := setMetaValue meta key expandedValue in
            let doc' := setFrontmatter doc (stringifyFrontmatter meta') in
            writeFile file (serializeDocument doc');;
            mret (Js.lit "set " ++ key)
      | None =>
          if truthy key then mret (formatNestedValue meta (default [] key))
          else mret yamlContent
      end.

(** [Deno.stat]: on this disk it fails only for a file that is not
    there. *)
Definition fileExists (path : jsstring) : IO bool :=
  fun w => (Return (bool_decide (is_Some (files w !! path))), w).

(** The loop of [cmdCreate] over the [--meta] entries: each value is
    expanded against the object built so far. *)
Definition createMeta (metaEntries : list (jsstring * jsstring)) : Meta :=
  foldl (fun meta kv => setNestedValue meta kv.1 (expandMagic kv.2 meta))
        emptyMeta metaEntries.

Definition cmdCreate (file : jsstring) (title : option jsstring)
    (metaEntries : list (jsstring * jsstring)) (force : bool)
    (content : option jsstring) : IO jsstring :=
  exists' ← fileExists file;
  if exists' && negb force then
    io_throw (MdError.mk io_error (Some file) None)
  else
    let meta := createMeta metaEntries in
    let lines1 :=
      if 0 <? length metaEntries
      then [Js.lit "---"; stringifyFrontmatter meta; Js.lit "---"; []]
      else [] in
    let lines2 :=
      if truthy title
      then [Js.lit "# " ++ expandMagic (default [] title) meta; []]
      else [] in
    let lines3 :=
      if truthy content then [expandMagic (default [] content) meta]
      else [] in
    writeFile file (Js.join (lines1 ++ lines2 ++ lines3));;
    mret (Js.lit "created " ++ file).

(** ** The vocabulary of the properties *)

(** Where the scan starts: the third component of the frontmatter block. *)
Definition startLineOf (ls : list jsstring) : nat :=
  (parseFrontmatterBlock ls).2.

(** The sections as the scan pushes them, before [lineEnd] is computed. *)
Definition rawSections (t : jsstring) : list MdSection :=
  let ls := Js.split t in
  scanSections (length ls) (drop (startLineOf ls) ls) (startLineOf ls)
               false ∅.

(** Strictly ascending, by index. *)
Definition ascending (ns : list nat) : Prop :=
  forall i j a b, ns !! i = Some a -> ns !! j = Some b -> i < j -> a < b.

(** The section at index [j] is the first one after index [k] whose
    level is at most [lvl]. *)
Definition firstAtMost (ss : list MdSection) (k lvl j : nat)
    (n : MdSection) : Prop :=
  k < j /\ ss !! j = Some n /\ level n <= lvl /\
  forall m x, k < m < j -> ss !! m = Some x -> lvl < level x.

(** No section after index [k] has a level at most [lvl]. *)
Definition noneAtMost (ss : list MdSection) (k lvl : nat) : Prop :=
  forall m x, k < m -> ss !! m = Some x -> lvl < level x.

(** [e] is the end of the file [L] with the trailing lines that are all
    whitespace trimmed back, but never below [floor]: every line after
    line [e] trims to the empty string, and line [e] does not unless
    [e] is [floor]. *)
Definition trimmedEndOfFile (L : list jsstring) (floor e : nat) : Prop :=
  floor <= e <= length L /\
  (forall m l, e <= m -> L !! m = Some l -> Js.trim l = []) /\
  (floor < e -> exists l, L !! (e - 1) = Some l /\ Js.trim l <> []).

(** The section that carries [id'] first, as [findSection] returns it. *)
Definition firstWithId (ss : list MdSection) (id' : jsstring) (k : nat)
    (s : MdSection) : Prop :=
  ss !! k = Some s /\ id s = id' /\
  forall m x, m < k -> ss !! m = Some x -> id x <> id'.

(** What [getSectionEndLine] returns for the section [s] at index [k]
    of [doc]: the shallow end is [s.lineEnd], the line before the next
    header of any level (the trimmed end of file for the last section);
    the deep end, when no section before index [k] carries the id of
    [s], is the line before the first later section whose level is at
    most that of [s], or the trimmed end of file when there is none. *)
Definition endLineSpec (doc : Document) (k : nat) (s : MdSection) : Prop :=
  getSectionEndLine doc s false = Return (lineEnd s)
  /\ match sections doc !! (k + 1) with
     | Some n => lineEnd s = line n - 1
     | None => trimmedEndOfFile (lines doc) (line s) (lineEnd s)
     end
  /\ ((forall m x, m < k -> sections doc !! m = Some x -> id x <> id s) ->
      (exists j n,
          firstAtMost (sections doc) k (level s) j n /\
          getSectionEndLine doc s true = Return (line n - 1))
      \/ (noneAtMost (sections doc) k (level s) /\
          exists e,
            getSectionEndLine doc s true = Return e /\
            trimmedEndOfFile (lines doc) (line s) e)).

(** The fence flag as the specification words it: it starts unset and
    every line that opens or closes a fence toggles it. *)
Definition toggleFence (flag : bool) (l : jsstring) : bool :=
  if isFence l then negb flag else flag.

(** The flag when the scan, started at line index [start], reaches line
    index [p]. *)
Definition fenceFlagAt (L : list jsstring) (start p : nat) : bool :=
  foldl toggleFence false (slice start p L).

(** What the scan leaves for the line [l] at offset [q] of [ls], when it
    starts with the flag [b]: a section exactly when the line is no
    fence line, the flag is unset there and the line matches. *)
Definition headerAt (ls : list jsstring) (b : bool) (q : nat)
    (l : jsstring) (k : nat) (m2 : jsstring) : Prop :=
  ls !! q = Some l /\ isFence l = false /\
  foldl toggleFence b (take q ls) = false /\
  matchHeader l = Some (k, m2).

(** [normalize(title)]: lower-cased and trimmed. *)
Definition normalizedTitle (title : jsstring) : jsstring :=
  Js.trim (toLowerCase title).

(** Two headers with identical level and normalized title. *)
Definition sameHeader (a b : MdSection) : Prop :=
  level a = level b /\ normalizedTitle (title a) = normalizedTitle (title b).

#[local] Instance sameHeader_dec (a b : MdSection) : Decision (sameHeader a b).
Proof. unfold sameHeader. apply _. Defined.

(** The occurrence index of the section [s] at index [j]: how many
    sections before it have its level and its normalized title. *)
Definition occurrencesBefore (ss : list MdSection) (j : nat)
    (s : MdSection) : nat :=
  length (filter (fun x => sameHeader x s) (take j ss)).

(** The key of the [occurrences] map for a section. *)
Definition keyOf (s : MdSection) : jsstring :=
  normalizedKey (level s) (title s).

Definition countKey (k : jsstring) (ks : list jsstring) : nat :=
  length (filter (fun x => x = k) ks).

(** The string that is hashed. *)
Definition hashInput (level : nat) (title : jsstring)
    (occurrenceIndex : nat) : jsstring :=
  Js.decimal level ++ Js.lit ":" ++ normalizedTitle title ++ Js.lit ":"
  ++ Js.decimal occurrenceIndex.

(** The file [file] exists with the text [t] and can be read. *)
Definition readable (w : World) (file t : jsstring) : Prop :=
  files w !! file = Some t /\ file ∉ unreadable w.

Definition writable (w : World) (file : jsstring) : Prop :=
  file ∉ unwritable w.

(** The world after [content] was written to [file]. *)
Definition written (w : World) (file content : jsstring) : World :=
  mkWorld (<[file := content]> (files w)) (unreadable w) (unwritable w).

(** The command fails with an error of kind [c]. *)
Definition failsWith {A} (r : Result A * World) (c : ErrorCode) : Prop :=
  exists e, r.1 = Throw e /\ MdError.code e = c.

(** The lines that [write] puts after the header for the expanded
    content [c]: none for the empty content; else the lines of [c], after
    one blank line when the first of them is not blank. *)
Definition writtenLinesSpec (c : jsstring) (inserted : list jsstring)
    : Prop :=
  (c = [] -> inserted = []) /\
  (c <> [] ->
   exists first, Js.split c !! 0 = Some first /\
     (Js.trim first <> [] -> inserted = [] :: Js.split c) /\
     (Js.trim first = [] -> inserted = Js.split c)).

(** The result of [write]: the header and every line before it are
    kept, the lines from [endLine] on are kept, the lines between are
    replaced by [inserted], and the record reports the edit. *)
Definition writePost (w : World) (file id' newContent : jsstring)
    (deep : bool) (t : jsstring) (s : MdSection) : Prop :=
  let doc := parseDocument t in
  let expanded :=
    expandMagic newContent (parseFrontmatter (getFrontmatterContent doc)) in
  exists endLine inserted res,
    getSectionEndLine doc s deep = Return endLine
    /\ 1 <= line s <= endLine /\ endLine <= length (lines doc)
    /\ writtenLinesSpec expanded inserted
    /\ let newLines :=
         take (line s) (lines doc) ++ inserted ++ drop endLine (lines doc) in
       cmdWrite file id' newContent deep w
       = (Return res, written w file (Js.join newLines))
       /\ (forall m, m < line s -> newLines !! m = lines doc !! m)
       /\ (forall m, m < length inserted ->
             newLines !! (line s + m) = inserted !! m)
       /\ (forall m, endLine <= m ->
             newLines !! (line s + length inserted + (m - endLine))
             = lines doc !! m)
       /\ Mutation.action res = updated
       /\ Mutation.id res = id s
       /\ Mutation.lineStart res = Z.of_nat (line s)
       /\ Mutation.lineEnd res = Some (Z.of_nat (line s + length inserted))
       /\ Mutation.linesAdded res = Z.of_nat (length inserted)
       /\ Mutation.linesRemoved res
          = Z.of_nat (length (slice (line s) endLine (lines doc))).

(** The result of [remove] on the section [s], the first that carries
    [id']: the header line and the deep range of [s] are deleted, every
    other line is kept, every descendant of [s] (a later section with
    only sections of a greater level than [s] between [s] and itself,
    itself included) has its header in the deleted range, and the
    record counts the header and the deep content. *)
Definition removePost (w : World) (file id' t : jsstring) (s : MdSection)
    : Prop :=
  let doc := parseDocument t in
  exists k endLine res,
    firstWithId (sections doc) id' k s
    /\ getSectionEndLine doc s true = Return endLine
    /\ 1 <= line s <= endLine /\ endLine <= length (lines doc)
    /\ ((exists j n, firstAtMost (sections doc) k (level s) j n
                     /\ endLine = line n - 1)
        \/ (noneAtMost (sections doc) k (level s)
            /\ trimmedEndOfFile (lines doc) (line s) endLine))
    /\ (forall m x, k < m -> sections doc !! m = Some x ->
          (forall m' y, k < m' <= m -> sections doc !! m' = Some y ->
                        level s < level y) ->
          line s < line x <= endLine)
    /\ let newLines :=
         take (line s - 1) (lines doc) ++ drop endLine (lines doc) in
       cmdRemove file id' w = (Return res, written w file (Js.join newLines))
       /\ (forall m, m < line s - 1 -> newLines !! m = lines doc !! m)
       /\ (forall m, endLine <= m ->
             newLines !! (line s - 1 + (m - endLine)) = lines doc !! m)
       /\ length newLines + (endLine - line s + 1) = length (lines doc)
       /\ Mutation.action res = removed
       /\ Mutation.id res = id s
       /\ Mutation.lineStart res = Z.of_nat (line s)
       /\ Mutation.linesAdded res = 0%Z
       /\ Mutation.linesRemoved res
          = Z.of_nat (length (slice (line s) endLine (lines doc)) + 1).

(** Removing [# A] from the lines [# A], [x], blank, [## B], [y], blank,
    [# C] leaves the line [# C] alone. *)
Definition removeExample : Prop :=
  forall (w : World) (file : jsstring),
    readable w file Ex.nested -> writable w file ->
    exists res,
      cmdRemove file (sectionHash 1 (Js.lit "A") 0) w
      = (Return res, written w file (Ex.text ["# C"]))
      /\ Mutation.linesRemoved res = 6%Z.

(** Every operation that takes the id [id'] of a section fails with
    an error of kind [c]. *)
Definition allFailWith (w : World) (file id' newContent : jsstring)
    (deep before : bool) (c : ErrorCode) : Prop :=
  failsWith (cmdRead file id' deep w) c
  /\ failsWith (cmdWrite file id' newContent deep w) c
  /\ failsWith (cmdAppend file (Some id') newContent deep before w) c
  /\ failsWith (cmdEmpty file id' deep w) c
  /\ failsWith (cmdRemove file id' w) c.

(** The two failures on the id. *)
Definition idErrorsSpec (w : World) (file id' newContent t : jsstring)
    (deep before : bool) : Prop :=
  (isValidId id' = false ->
   allFailWith w file id' newContent deep before invalid_id)
  /\ (isValidId id' = true ->
      (forall s, s ∈ sections (parseDocument t) -> id s <> id') ->
      allFailWith w file id' newContent deep before section_not_found).

(** A failed mutation leaves the world, and so the target file, as it
    was. *)
Definition atomicSpec (w w' : World) (file id' newContent : jsstring)
    (deep before : bool) (e : MdError.t) : Prop :=
  (cmdWrite file id' newContent deep w = (Throw e, w') -> w' = w)
  /\ (cmdAppend file (Some id') newContent deep before w = (Throw e, w')
      -> w' = w)
  /\ (cmdEmpty file id' deep w = (Throw e, w') -> w' = w)
  /\ (cmdRemove file id' w = (Throw e, w') -> w' = w).

(** A code unit that is a lower-case hex digit. *)
Definition isLowerHex (c : N) : bool :=
  ((48 <=? c) && (c <=? 57) || (97 <=? c) && (c <=? 102))%N.

(** A line without the newline in it. *)
Definition noLF (l : jsstring) : Prop := Forall (fun c => c <> Js.LF) l.

(** The line at index [q] of [L] trims to the frontmatter delimiter. *)
Definition isDelimiter (L : list jsstring) (q : nat) : bool :=
  trimIs (L !! q) FRONTMATTER_DELIMITER.

(** What the parser keeps of the frontmatter: with a block, its closing
    delimiter is the first delimiter line after the first line, the text
    is the lines through it and [frontmatterEndLine] is the number of
    these lines; without one, [frontmatterEndLine] is 0 and the first
    line is no delimiter or no later line is one. *)
Definition frontmatterSpec (doc : Document) : Prop :=
  match frontmatter doc with
  | Some fm =>
      exists i,
        1 <= i < length (lines doc)
        /\ frontmatterEndLine doc = i + 1
        /\ fm = Js.join (take (i + 1) (lines doc))
        /\ isDelimiter (lines doc) 0 = true
        /\ isDelimiter (lines doc) i = true
        /\ forall q, 1 <= q < i -> isDelimiter (lines doc) q = false
  | None =>
      frontmatterEndLine doc = 0
      /\ (isDelimiter (lines doc) 0 = false
          \/ forall q, 1 <= q -> isDelimiter (lines doc) q = false)
  end.

(** The lines of a frontmatter block around the YAML text [y]. *)
Definition frontmatterLines (y : jsstring) : list jsstring :=
  Js.lit "---" :: Js.split y ++ [Js.lit "---"].

(** What [setFrontmatter] leaves of the lines: the new block, none for a
    blank [y], then the lines that were after the old block; a blank line
    between them when a block is added to a document without one. *)
Definition setFrontmatterSpec (doc : Document) (y : jsstring)
    (doc' : Document) : Prop :=
  let block := if Js.eqb (Js.trim y) [] then []
               else frontmatterLines (Js.trim y) in
  let body := drop (frontmatterEndLine doc) (lines doc) in
  sections doc' = sections doc
  /\ (truthy (frontmatter doc) = true ->
      lines doc' = block ++ body
      /\ frontmatterEndLine doc' = length block
      /\ frontmatter doc' = (if Js.eqb (Js.trim y) [] then None
                             else Some (Js.join block)))
  /\ (truthy (frontmatter doc) = false -> Js.trim y <> [] ->
      lines doc' = block ++ [] :: lines doc
      /\ frontmatterEndLine doc' = length block
      /\ frontmatter doc' = Some (Js.join block))
  /\ (truthy (frontmatter doc) = false -> Js.trim y = [] -> doc' = doc).

(** A YAML text that a parse reads back as one block: not blank when
    trimmed, and none of its trimmed lines is a delimiter. *)
Definition blockSafe (y : jsstring) : Prop :=
  Js.trim y <> []
  /\ Forall (fun l => Js.trim l <> FRONTMATTER_DELIMITER)
            (Js.split (Js.trim y)).

(** The document read back from the text of [doc'] has the frontmatter
    fields and the lines of [doc']. *)
Definition readsBack (doc' : Document) : Prop :=
  let again := parseDocument (serializeDocument doc') in
  lines again = lines doc'
  /\ frontmatter again = frontmatter doc'
  /\ frontmatterEndLine again = frontmatterEndLine doc'.

(** What [findSectionAtLine] gives for line [n]: the section with the
    greatest header line that is at most [n], none when every header is
    after line [n]. *)
Definition sectionOfLine (doc : Document) (n : nat)
    (r : option MdSection) : Prop :=
  match r with
  | Some s =>
      s ∈ sections doc /\ line s <= n
      /\ forall x, x ∈ sections doc -> line x <= n -> line x <= line s
  | None => forall x, x ∈ sections doc -> n < line x
  end.

(** The shallow content of [s] is the beginning of its deep content. *)
Definition shallowWithinDeep (doc : Document) (s : MdSection) : Prop :=
  exists e1 e2,
    getSectionEndLine doc s false = Return e1
    /\ getSectionEndLine doc s true = Return e2
    /\ line s <= e1 <= e2 /\ e2 <= length (lines doc)
    /\ slice (line s) e1 (lines doc) `prefix_of` slice (line s) e2 (lines doc).

(** A command that leaves every world as it finds it. *)
Definition readOnly {A} (m : IO A) : Prop := forall w, (m w).2 = w.

(** The result of [empty]: the header and every line before it are
    kept, the lines from [endLine] on are kept and follow the header,
    nothing is put in, and the record reports the edit. *)
Definition emptyPost (w : World) (file id' : jsstring) (deep : bool)
    (t : jsstring) (s : MdSection) : Prop :=
  let doc := parseDocument t in
  exists endLine res,
    getSectionEndLine doc s deep = Return endLine
    /\ 1 <= line s <= endLine /\ endLine <= length (lines doc)
    /\ let newLines :=
         take (line s) (lines doc) ++ drop endLine (lines doc) in
       cmdEmpty file id' deep w
       = (Return res, written w file (Js.join newLines))
       /\ (forall m, m < line s -> newLines !! m = lines doc !! m)
       /\ (forall m, endLine <= m ->
             newLines !! (line s + (m - endLine)) = lines doc !! m)
       /\ length newLines + (endLine - line s) = length (lines doc)
       /\ Mutation.action res = emptied
       /\ Mutation.id res = id s
       /\ Mutation.lineStart res = Z.of_nat (line s)
       /\ Mutation.lineEnd res = None
       /\ Mutation.linesAdded res = 0%Z
       /\ Mutation.linesRemoved res
          = Z.of_nat (length (slice (line s) endLine (lines doc))).

(** Where [append] puts the new lines, as a 0-based index in the lines:
    without an id after the frontmatter ([before]) or at the end of the
    file; with an id before the header of the section or after its
    resolved end line. *)
Definition appendTarget (doc : Document) (id' : option jsstring)
    (deep before : bool) (insertLine : nat) (section : option MdSection)
    : Prop :=
  match id' with
  | None =>
      section = None
      /\ insertLine
         = (if before then frontmatterEndLine doc else length (lines doc))
  | Some i =>
      exists s,
        section = Some s /\ findSection doc i = Some s
        /\ if before then insertLine = line s - 1
           else getSectionEndLine doc s deep = Return insertLine
  end.

(** The lines [append] inserts at [insertLine]: the lines of the content,
    after an empty line when the content goes after a line that is not
    blank and does not itself begin with a blank line. *)
Definition appendedLines (doc : Document) (expanded : jsstring)
    (before : bool) (insertLine : nat) : list jsstring :=
  unshiftBlankIf
    (negb before && (0 <? insertLine)
     && trimIsNotEmpty (lines doc !! (insertLine - 1))
     && trimIsNotEmpty (Js.split expanded !! 0)) (Js.split expanded).

(** The target of an [append] can be resolved: no id, or the id of a
    section of the document. *)
Definition appendable (doc : Document) (id' : option jsstring) : Prop :=
  match id' with
  | None => True
  | Some i => is_Some (findSection doc i)
  end.

(** The result of [append]: every line of the file is kept, in order,
    the new lines stand between line [insertLine] and the next one, and
    the record reports the insertion. *)
Definition appendPost (w : World) (file : jsstring)
    (id' : option jsstring) (newContent : jsstring) (deep before : bool)
    (t : jsstring) : Prop :=
  let doc := parseDocument t in
  let expanded :=
    expandMagic newContent (parseFrontmatter (getFrontmatterContent doc)) in
  exists insertLine section res,
    appendTarget doc id' deep before insertLine section
    /\ insertLine <= length (lines doc)
    /\ let inserted := appendedLines doc expanded before insertLine in
       let newLines :=
         take insertLine (lines doc) ++ inserted
         ++ drop insertLine (lines doc) in
       cmdAppend file id' newContent deep before w
       = (Return res, written w file (Js.join newLines))
       /\ (forall m, m < insertLine -> newLines !! m = lines doc !! m)
       /\ (forall m, m < length inserted ->
             newLines !! (insertLine + m) = inserted !! m)
       /\ (forall m, insertLine <= m ->
             newLines !! (m + length inserted) = lines doc !! m)
       /\ Mutation.action res
          = match startsWithHeader expanded with
            | Some _ => created
            | None => appended
            end
       /\ Mutation.lineStart res = Z.of_nat (insertLine + 1)
       /\ Mutation.linesAdded res = Z.of_nat (length inserted)
       /\ Mutation.linesRemoved res = 0%Z
       /\ (startsWithHeader expanded = None ->
             Mutation.lineEnd res = None
             /\ Mutation.id res = default DASH (id <$> section)).

(** The result of an [append] before everything, of content that
    begins with a header of level [k] and title [headerTitle]: the
    content stands right after the frontmatter, its header is the first
    section of the new file and the record carries that section's id,
    which is the hash of the header with occurrence 0. *)
Definition prependPost (w : World) (file newContent : jsstring)
    (deep : bool) (t : jsstring) (k : nat) (headerTitle : jsstring)
    : Prop :=
  let doc := parseDocument t in
  let expanded :=
    expandMagic newContent (parseFrontmatter (getFrontmatterContent doc)) in
  let fe := frontmatterEndLine doc in
  let newText :=
    Js.join (take fe (lines doc) ++ Js.split expanded
             ++ drop fe (lines doc)) in
  exists res first rest,
    cmdAppend file None newContent deep true w
    = (Return res, written w file newText)
    /\ sections (parseDocument newText) = first :: rest
    /\ id first = sectionHash k headerTitle 0
    /\ level first = k
    /\ title first = headerTitle
    /\ line first = fe + 1
    /\ frontmatterEndLine (parseDocument newText) = fe
    /\ Mutation.action res = created
    /\ Mutation.id res = id first
    /\ Mutation.lineStart res = Z.of_nat (fe + 1)
    /\ Mutation.lineEnd res
       = Some (Z.of_nat (fe + length (Js.split expanded))).

(** A line that is neither a fence, nor a header, nor a frontmatter
    delimiter. *)
Definition plainLine (l : jsstring) : Prop :=
  isFence l = false /\ matchHeader l = None
  /\ Js.trim l <> FRONTMATTER_DELIMITER.

(** What identifies a section and places its header. *)
Definition headerOf (s : MdSection) : jsstring * nat * jsstring * nat :=
  (id s, level s, title s, line s).

(** The result of an [append] of plain text at the end of the file: the
    old lines are a prefix of the new ones and the new file has the same
    frontmatter and the same sections, with the same ids, at the same
    lines. *)
Definition appendTextPost (w : World) (file newContent : jsstring)
    (deep : bool) (t : jsstring) : Prop :=
  exists res text',
    cmdAppend file None newContent deep false w
    = (Return res, written w file text')
    /\ Mutation.action res = appended
    /\ Mutation.id res = DASH
    /\ take (length (lines (parseDocument t))) (lines (parseDocument text'))
       = lines (parseDocument t)
    /\ headerOf <$> sections (parseDocument text')
       = headerOf <$> sections (parseDocument t)
    /\ frontmatter (parseDocument text') = frontmatter (parseDocument t)
    /\ frontmatterEndLine (parseDocument text')
       = frontmatterEndLine (parseDocument t).

(** The longest prefix of [xs] whose elements all satisfy [p]. *)
Fixpoint prefixWhile {A} (p : A -> bool) (xs : list A) : list A :=
  match xs with
  | [] => []
  | x :: xs' => if p x then x :: prefixWhile p xs' else []
  end.

(** The sections below the section [s] at index [k]: the sections that
    follow it, up to the first one whose level is at most that of [s]. *)
Definition descendants (ss : list MdSection) (k : nat) (s : MdSection)
    : list MdSection :=
  prefixWhile (fun x => level s <? level x) (drop (S k) ss).

(** What [outline --after id] returns for the section [s] at index [k]:
    its descendants, the last of them, or their number. *)
Definition outlinePost (w : World) (file id' t : jsstring) (k : nat)
    (s : MdSection) : Prop :=
  let sub := descendants (sections (parseDocument t)) k s in
  cmdOutline file (Some id') false false w = (Return (OutlineList sub), w)
  /\ cmdOutline file (Some id') true false w
     = (Return (OutlineLast (list.last sub)), w)
  /\ forall last,
       cmdOutline file (Some id') last true w
       = (Return (OutlineCount (length sub)), w).

(** The level of a header of level [k] after a shift by [shift]. *)
Definition shiftedLevel (shift : Z) (k : nat) : nat :=
  Nat.min 6 (k + Z.to_nat shift).

(** What [concat] makes of the text of one file: its lines after the
    frontmatter, with the headers shifted for a positive [shift]. *)
Definition concatBody (shift : Z) (t : jsstring) : jsstring :=
  let doc := parseDocument t in
  let body := drop (frontmatterEndLine doc) (lines doc) in
  Js.join (if (0 <? shift)%Z then shiftLine shift <$> body else body).

(** The text [concat] returns for the texts of its files: the bodies
    with an empty line between them, after the frontmatter of the first
    file, if it has one, and an empty line. *)
Definition concatSpec (shift : Z) (texts : list jsstring) : jsstring :=
  let result := Js.joinWith BLANK_LINE (concatBody shift <$> texts) in
  match texts with
  | t0 :: _ =>
      if truthy (frontmatter (parseDocument t0))
      then default [] (frontmatter (parseDocument t0)) ++ BLANK_LINE ++ result
      else result
  | [] => result
  end.

(** The result of [concat]: the text of [concatSpec]; without a
    positive shift and without frontmatter it is the texts with an empty
    line between them, and the text itself for one file. *)
Definition concatPost (w : World) (shift : Z)
    (files texts : list jsstring) : Prop :=
  cmdConcat files shift w = (Return (concatSpec shift texts), w)
  /\ ((shift <= 0)%Z ->
      Forall (fun t => frontmatter (parseDocument t) = None) texts ->
      concatSpec shift texts = Js.joinWith BLANK_LINE texts
      /\ forall t, texts = [t] -> concatSpec shift texts = t).

(** The outline of a document: level, title and line of each section. *)
Definition outlineOf (ss : list MdSection) : list (nat * jsstring * nat) :=
  (fun s => (level s, title s, line s)) <$> ss.

(** The same outline with every level raised by [shift], at most to 6. *)
Definition shiftedOutline (shift : Z) (ss : list MdSection)
    : list (nat * jsstring * nat) :=
  (fun s => (shiftedLevel shift (level s), title s, line s)) <$> ss.

(** The result of [concat] of one file with a positive shift: the text
    it returns has as many lines, and its sections are those of the
    file, with the same titles at the same lines and the levels raised
    by the shift. *)
Definition shiftPost (w : World) (file t : jsstring) (shift : Z) : Prop :=
  exists r,
    cmdConcat [file] shift w = (Return r, w)
    /\ length (lines (parseDocument r)) = length (lines (parseDocument t))
    /\ outlineOf (sections (parseDocument r))
       = shiftedOutline shift (sections (parseDocument t)).

(** [p] occurs in [s]. *)
Definition occursIn (p s : jsstring) : Prop := exists a b, s = a ++ p ++ b.

(** What makes [m] a match of [pattern] in [doc]: its line is a line of
    the document that contains the pattern, its content is that line,
    and its section is the last section that starts at or before the
    line, none when the line is before the first header. *)
Definition isMatch (doc : Document) (pattern : jsstring)
    (m : SearchMatch.t) : Prop :=
  1 <= SearchMatch.line m
  /\ lines doc !! (SearchMatch.line m - 1) = Some (SearchMatch.content m)
  /\ occursIn pattern (SearchMatch.content m)
  /\ exists r, sectionOfLine doc (SearchMatch.line m) r
               /\ SearchMatch.sectionId m = id <$> r.

(** The result of [search]: the matches, by ascending line. *)
Definition searchPost (w : World) (file pattern t : jsstring) : Prop :=
  exists ms,
    cmdSearch file pattern false w = (Return (Matches ms), w)
    /\ (forall m, m ∈ ms <-> isMatch (parseDocument t) pattern m)
    /\ ascending (SearchMatch.line <$> ms).

(** The lines of the matches attributed to the section id [sid]. *)
Definition matchedLines (ms : list SearchMatch.t) (sid : jsstring)
    : list nat :=
  SearchMatch.line
  <$> filter (fun m => SearchMatch.sectionId m = Some sid) ms.

(** The entry of the summary for the id [sid]: none for the empty id, an
    id that no section carries, or a section without matches; otherwise
    the id, level and title of the section [findSection] gives, the
    lines of its matches in order and their number. *)
Definition summaryFor (doc : Document) (ms : list SearchMatch.t)
    (sid : jsstring) : option SearchSummary.t :=
  if truthy (Some sid) then
    match findSection doc sid, matchedLines ms sid with
    | Some s, n :: ns =>
        Some (SearchSummary.mk (id s) (level s) (title s) (n :: ns)
                (length (n :: ns)))
    | _, _ => None
    end
  else None.

(** The result of [search --summary]: one entry for each section id
    that has matches, and every match inside a section is counted in the
    entry of its section id. *)
Definition summaryPost (w : World) (file pattern t : jsstring) : Prop :=
  exists ms es,
    cmdSearch file pattern false w = (Return (Matches ms), w)
    /\ cmdSearch file pattern true w = (Return (Summaries es), w)
    /\ (forall e, e ∈ es <->
          exists sid, summaryFor (parseDocument t) ms sid = Some e)
    /\ NoDup (SearchSummary.id <$> es)
    /\ (forall m sid,
          m ∈ ms -> SearchMatch.sectionId m = Some sid ->
          exists e, e ∈ es /\ SearchSummary.id e = sid
                    /\ SearchMatch.line m ∈ SearchSummary.lines e).

(** What [findSection] gives for the id of a section of the document:
    the first section that carries this id. *)
Definition findsOwnId (doc : Document) (s : MdSection) : Prop :=
  exists s', findSection doc (id s) = Some s'
             /\ s' ∈ sections doc /\ id s' = id s /\ line s' <= line s.

(** The [occurrences] map when the scan has gone through [ls], started
    with the flag [b] and the map [occ]. *)
Fixpoint scanOcc (ls : list jsstring) (b : bool)
    (occ : gmap jsstring nat) : gmap jsstring nat :=
  match ls with
  | [] => occ
  | l :: rest =>
      if isFence l then scanOcc rest (negb b) occ
      else if b then scanOcc rest b occ
      else
        match matchHeader l with
        | Some (level, m2) =>
            let key := normalizedKey level (Js.trim m2) in
            scanOcc rest b (<[key := default 0 (occ !! key) + 1]> occ)
        | None => scanOcc rest b occ
        end
  end.

(** Line [e] (0-based) of [L] is a header line, or every line from it on
    is blank. *)
Definition boundaryAt (L : list jsstring) (e : nat) : Prop :=
  (exists h k m2, L !! e = Some h /\ matchHeader h = Some (k, m2))
  \/ (forall m l, e <= m -> L !! m = Some l -> Js.trim l = []).

(** No line, or a last line that is not blank. *)
Definition endsWithText (ls : list jsstring) : Prop :=
  ls = [] \/ exists l, list.last ls = Some l /\ Js.trim l <> [].

(** Content that can be read back: its lines are plain, and it is empty
    or its last line is not blank. *)
Definition textContent (c : jsstring) : Prop :=
  Forall plainLine (Js.split c)
  /\ (c = [] \/ exists l, list.last (Js.split c) = Some l /\ Js.trim l <> []).

(** A write followed by a shallow read of the same id: the read finds
    the section where it was, with the same id, level and title, and
    gives back the lines that the write put in. *)
Definition writeReadPost (w : World) (file id' newContent : jsstring)
    (deep : bool) (t : jsstring) (s : MdSection) : Prop :=
  let doc := parseDocument t in
  let expanded :=
    expandMagic newContent (parseFrontmatter (getFrontmatterContent doc)) in
  exists res w' inserted s',
    writtenLinesSpec expanded inserted
    /\ cmdWrite file id' newContent deep w = (Return res, w')
    /\ cmdRead file id' false w'
       = (Return (s', Js.join inserted, line s + length inserted), w')
    /\ headerOf s' = headerOf s.

(** An empty followed by a shallow read of the same id: the read finds
    the section where it was and gives back no content. *)
Definition emptyReadPost (w : World) (file id' : jsstring) (deep : bool)
    (t : jsstring) (s : MdSection) : Prop :=
  exists res w' s',
    cmdEmpty file id' deep w = (Return res, w')
    /\ cmdRead file id' false w' = (Return (s', [], line s), w')
    /\ headerOf s' = headerOf s.

(** What [meta --h1] prints: the title of the level-1 section with the
    least header line, the empty string when no section has level 1. *)
Definition firstH1 (doc : Document) (r : jsstring) : Prop :=
  (exists s, s ∈ sections doc /\ level s = 1 /\ r = title s
             /\ forall x, x ∈ sections doc -> level x = 1 -> line s <= line x)
  \/ (r = [] /\ forall x, x ∈ sections doc -> level x <> 1).

(** The modes of [meta] that only read: [--h1], a key, nothing. *)
Definition metaQueryPost (w : World) (file t : jsstring) : Prop :=
  let doc := parseDocument t in
  let meta := parseFrontmatter (getFrontmatterContent doc) in
  (exists r, firstH1 doc r
             /\ forall key value del,
                  cmdMeta file key value del true w = (Return r, w))
  /\ cmdMeta file None None false false w
     = (Return (getFrontmatterContent doc), w)
  /\ forall c key,
       cmdMeta file (Some (c :: key)) None false false w
       = (Return (formatNestedValue meta (c :: key)), w).

(** The disk after [meta] wrote the frontmatter of [meta'] to the file
    with the text [t]: the file holds the new block, then the lines that
    were after the old block (after an empty line, when there was no
    block), and [meta] without arguments prints the YAML text. *)
Definition metaUpdated (w : World) (file t : jsstring) (meta' : Meta)
    (w' : World) : Prop :=
  let doc := parseDocument t in
  let y := Js.trim (stringifyFrontmatter meta') in
  exists t',
    w' = written w file t'
    /\ Js.split t'
       = frontmatterLines y
         ++ (if truthy (frontmatter doc)
             then drop (frontmatterEndLine doc) (lines doc)
             else [] :: lines doc)
    /\ cmdMeta file None None false false w' = (Return y, w').

(** The result of [meta --set key value]. *)
Definition metaSetPost (w : World) (file t key value : jsstring) : Prop :=
  let meta := parseFrontmatter (getFrontmatterContent (parseDocument t)) in
  let meta' := setMetaValue meta key (expandMagic value meta) in
  exists w',
    cmdMeta file (Some key) (Some value) false false w
    = (Return (Js.lit "set " ++ key), w')
    /\ metaUpdated w file t meta' w'.

(** The result of [meta --del key]: an error that leaves the disk as it
    is when the key is not there, the frontmatter of what is left when
    it is. *)
Definition metaDelPost (w : World) (file t key : jsstring)
    (value : option jsstring) : Prop :=
  let meta := parseFrontmatter (getFrontmatterContent (parseDocument t)) in
  match deleteNestedValue meta key with
  | None => cmdMeta file (Some key) value true false w = (Throw metaError, w)
  | Some meta' =>
      writable w file -> blockSafe (stringifyFrontmatter meta') ->
      exists w',
        cmdMeta file (Some key) value true false w
        = (Return (Js.lit "deleted " ++ key), w')
        /\ metaUpdated w file t meta' w'
  end.

(** A title with a character that is no white space and without line
    terminators. *)
Definition properTitle (T : jsstring) : Prop :=
  Js.trimStart T <> []
  /\ Forall (fun c => Js.isLineTerminator c = false) T.

(** The results of [create] with a title and nothing else: a refusal
    that leaves the disk as it is for a file that exists, unless
    [force]; otherwise a file of two lines, the header and an empty
    line, whose parse has no frontmatter and the one section of the
    title. *)
Definition createPost (w : World) (file title : jsstring) (force : bool)
    : Prop :=
  let T := expandMagic title emptyMeta in
  let text := Js.join [Js.lit "# " ++ T; []] in
  (is_Some (files w !! file) ->
   forall title' metaEntries content,
     cmdCreate file title' metaEntries false content w
     = (Throw (MdError.mk io_error (Some file) None), w))
  /\ (files w !! file = None \/ force = true ->
      cmdCreate file (Some title) [] force None w
      = (Return (Js.lit "created " ++ file), written w file text)
      /\ frontmatter (parseDocument text) = None
      /\ lines (parseDocument text) = [Js.lit "# " ++ T; []]
      /\ sections (parseDocument text)
         = [mkSection (sectionHash 1 (Js.trim T) 0) 1 (Js.trim T) 1 1]).

(** An append to the section [s] followed by a shallow read of the same
    id: the read finds the section where it was and gives back the old
    content followed by the appended lines. *)
Definition appendReadPost (w : World) (file id' newContent t : jsstring)
    (s : MdSection) : Prop :=
  let doc := parseDocument t in
  let expanded :=
    expandMagic newContent (parseFrontmatter (getFrontmatterContent doc)) in
  let old := slice (line s) (lineEnd s) (lines doc) in
  let inserted := appendedLines doc expanded false (lineEnd s) in
  exists res w' s',
    cmdAppend file (Some id') newContent false false w = (Return res, w')
    /\ cmdRead file id' false w'
       = (Return (s', Js.join (old ++ inserted),
                  lineEnd s + length inserted), w')
    /\ headerOf s' = headerOf s.

(** ** Properties *)

(** *** Strings and lines *)

Lemma split_not_nil (s : jsstring) : Js.split s <> [].
Proof.
  destruct s as [|c s]; simpl; [discriminate|].
  destruct (c =? Js.LF)%N; [discriminate|].
  destruct (Js.split s); discriminate.
Qed.

Lemma join_cons_cons (l l' : jsstring) (ls : list jsstring) :
  Js.join (l :: l' :: ls) = l ++ Js.LF :: Js.join (l' :: ls).
Proof. reflexivity. Qed.

Lemma join_split (s : jsstring) : Js.join (Js.split s) = s.
Proof.
  induction s as [|c s IH]; [reflexivity|].
  simpl. destruct (N.eqb_spec c Js.LF) as [->|Hc].
  - pose proof (split_not_nil s) as Hne.
    destruct (Js.split s) as [|l ls]; [done|].
    rewrite join_cons_cons. simpl. by rewrite <- IH.
  - pose proof (split_not_nil s) as Hne.
    destruct (Js.split s) as [|l ls]; [done|].
    destruct ls as [|l' ls]; simpl in *; by rewrite <- IH.
Qed.

Lemma parse_lines (t : jsstring) : lines (parseDocument t) = Js.split t.
Proof.
  unfold parseDocument.
  by destruct (parseFrontmatterBlock (Js.split t)) as [[fm fe] st].
Qed.

Lemma serialize_parse (t : jsstring) :
  serializeDocument (parseDocument t) = t.
Proof. unfold serializeDocument. rewrite parse_lines. apply join_split. Qed.

(** C1. Round trip: serializing the parse of the serialization of the
    parse of a text gives the serialization of the parse of that text
    (each is the text itself, as [serializeDocument] joins with the
    newline the lines that [parseDocument] split on it). *)
Theorem roundtrip_serialize_parse (t : jsstring) :
  serializeDocument (parseDocument (serializeDocument (parseDocument t)))
  = serializeDocument (parseDocument t).
Proof. by rewrite !serialize_parse. Qed.

(** *** The sections of a parse *)

Lemma parse_sections (t : jsstring) :
  sections (parseDocument t) = fixLineEnds (Js.split t) (rawSections t).
Proof.
  unfold parseDocument, rawSections, startLineOf.
  by destruct (parseFrontmatterBlock (Js.split t)) as [[fm fe] st].
Qed.

Lemma ascending_nil : ascending [].
Proof. intros i j a b H. by rewrite lookup_nil in H. Qed.

Lemma ascending_cons (a : nat) (ns : list nat) :
  Forall (fun b => a < b) ns -> ascending ns -> ascending (a :: ns).
Proof.
  intros Hall Hns i j x y Hi Hj Hlt.
  destruct j as [|j]; [lia|]. simpl in Hj.
  destruct i as [|i]; simpl in Hi.
  - inversion Hi; subst x.
    rewrite Forall_forall in Hall. apply Hall.
    apply list_elem_of_lookup. eauto.
  - eapply Hns; eauto. lia.
Qed.

Lemma hashesThen_level (n : nat) (s : jsstring) (k : nat) (r : jsstring) :
  hashesThen n s = Some (k, r) -> 1 <= k <= n.
Proof.
  revert s k r. induction n as [|n IH]; intros s k r; simpl; [done|].
  destruct s as [|c s]; [done|].
  destruct (c =? Js.HASH)%N; [|done].
  destruct (hashesThen n s) as [[k' r']|] eqn:E.
  - intros [= <- <-]. apply IH in E. lia.
  - destruct (spacesThen s); [|done]. intros [= <- <-]. lia.
Qed.

Lemma matchHeader_level (l : jsstring) (k : nat) (m2 : jsstring) :
  matchHeader l = Some (k, m2) -> 1 <= k <= 6.
Proof. apply hashesThen_level. Qed.

(** Every section that the scan pushes has its header on a line that
    the scan visits, and the provisional [lineEnd]. *)
Lemma scan_bounds (total : nat) (ls : list jsstring) :
  forall (i : nat) (b : bool) (occ : gmap jsstring nat),
    Forall (fun s => i < line s <= i + length ls /\ lineEnd s = total)
           (scanSections total ls i b occ).
Proof.
  induction ls as [|l rest IH]; intros i b occ; simpl; [constructor|].
  assert (forall b' occ',
    Forall (fun s => i < line s <= i + S (length rest) /\ lineEnd s = total)
           (scanSections total rest (S i) b' occ')) as Hrest.
  { intros b' occ'. eapply Forall_impl; [apply IH|].
    simpl. intros s [? ?]. split; [lia|done]. }
  destruct (isFence l); [apply Hrest|].
  destruct b; [apply Hrest|].
  destruct (matchHeader l) as [[k m2]|]; [|apply Hrest].
  constructor; [|apply Hrest]. simpl. split; [lia|done].
Qed.

Lemma scan_ascending (total : nat) (ls : list jsstring) :
  forall (i : nat) (b : bool) (occ : gmap jsstring nat),
    ascending (line <$> scanSections total ls i b occ).
Proof.
  induction ls as [|l rest IH]; intros i b occ; simpl; [apply ascending_nil|].
  destruct (isFence l); [apply IH|].
  destruct b; [apply IH|].
  destruct (matchHeader l) as [[k m2]|]; [|apply IH].
  rewrite fmap_cons. apply ascending_cons; [|apply IH].
  apply Forall_fmap. eapply Forall_impl; [apply scan_bounds|].
  simpl. intros s [? _]. lia.
Qed.

Lemma trimBack_le (L : list jsstring) (floor last : nat) :
  trimBack L floor last <= last.
Proof.
  induction last as [|last IH]; simpl; [done|].
  destruct ((floor <? S last) && trimIs (L !! last) []); lia.
Qed.

Lemma trimBack_ge (L : list jsstring) (floor last : nat) :
  floor <= last -> floor <= trimBack L floor last.
Proof.
  induction last as [|last IH]; simpl; [done|]. intros Hle.
  destruct (Nat.ltb_spec floor (S last)) as [Hlt|Hge]; simpl; [|lia].
  destruct (trimIs (L !! last) []); [apply IH|]; lia.
Qed.

(** What the loop over the sections leaves in each of them. *)
Lemma fixLineEnds_lookup (L : list jsstring) (ss : list MdSection) :
  forall i,
    fixLineEnds L ss !! i =
    (fun s => mkSection (id s) (level s) (title s) (line s)
       match ss !! S i with
       | Some nextSection => line nextSection - 1
       | None => trimBack L (line s) (length L)
       end) <$> ss !! i.
Proof.
  induction ss as [|s rest IH]; intros i; [done|].
  destruct i as [|i]; simpl.
  - by destruct rest.
  - apply IH.
Qed.

Lemma fixLineEnds_line (L : list jsstring) (ss : list MdSection) :
  line <$> fixLineEnds L ss = line <$> ss.
Proof.
  apply list_eq. intros i. rewrite !list_lookup_fmap, fixLineEnds_lookup.
  by destruct (ss !! i).
Qed.

Lemma fixLineEnds_length (L : list jsstring) (ss : list MdSection) :
  length (fixLineEnds L ss) = length ss.
Proof. induction ss as [|s rest IH]; simpl; [done|]. by rewrite IH. Qed.

Lemma rawSections_bounds (t : jsstring) :
  Forall (fun s => 1 <= line s <= length (Js.split t)) (rawSections t).
Proof.
  unfold rawSections. set (ls := Js.split t). set (st := startLineOf ls).
  eapply Forall_impl; [apply scan_bounds|]. simpl.
  intros s [Hs _]. rewrite length_drop in Hs. lia.
Qed.

Lemma rawSections_ascending (t : jsstring) :
  ascending (line <$> rawSections t).
Proof. apply scan_ascending. Qed.

(** A section of a parse, by index: the raw section and its [lineEnd]. *)
Lemma parse_section_lookup (t : jsstring) (i : nat) (s : MdSection) :
  sections (parseDocument t) !! i = Some s ->
  exists r,
    rawSections t !! i = Some r /\
    id s = id r /\ level s = level r /\ title s = title r /\
    line s = line r /\
    lineEnd s =
      match rawSections t !! S i with
      | Some nextSection => line nextSection - 1
      | None => trimBack (Js.split t) (line r) (length (Js.split t))
      end.
Proof.
  rewrite parse_sections, fixLineEnds_lookup.
  destruct (rawSections t !! i) as [r|]; [|done].
  simpl. intros [= <-]. by exists r.
Qed.

Lemma parse_section_line_bounds (t : jsstring) (i : nat) (s : MdSection) :
  sections (parseDocument t) !! i = Some s ->
  1 <= line s <= length (lines (parseDocument t)).
Proof.
  intros Hs. apply parse_section_lookup in Hs as (r & Hr & _ & _ & _ & -> & _).
  rewrite parse_lines.
  pose proof (rawSections_bounds t) as Hall.
  rewrite Forall_forall in Hall. apply Hall.
  apply list_elem_of_lookup. eauto.
Qed.

Lemma parse_ascending (t : jsstring) :
  ascending (line <$> sections (parseDocument t)).
Proof.
  rewrite parse_sections, fixLineEnds_line. apply rawSections_ascending.
Qed.

Lemma parse_line_le_lineEnd (t : jsstring) (s : MdSection) :
  s ∈ sections (parseDocument t) -> line s <= lineEnd s.
Proof.
  intros Hs. apply list_elem_of_lookup in Hs as [i Hs].
  pose proof (parse_section_line_bounds _ _ _ Hs) as Hb.
  rewrite parse_lines in Hb.
  apply parse_section_lookup in Hs as (r & Hr & _ & _ & _ & Hl & ->).
  rewrite Hl in *.
  destruct (rawSections t !! S i) as [n|] eqn:Hn.
  - assert (line r < line n); [|lia].
    apply (rawSections_ascending t i (S i)); [| |lia];
      rewrite list_lookup_fmap; [by rewrite Hr|by rewrite Hn].
  - apply trimBack_ge. lia.
Qed.

Lemma parse_lines_ascending (t : jsstring) (i j : nat) (a b : MdSection) :
  sections (parseDocument t) !! i = Some a ->
  sections (parseDocument t) !! j = Some b ->
  i < j -> line a < line b.
Proof.
  intros Ha Hb Hlt.
  apply (parse_ascending t i j); [| |done];
    rewrite list_lookup_fmap; [by rewrite Ha|by rewrite Hb].
Qed.

Lemma parse_lineEnd_next (t : jsstring) (i : nat) (a b : MdSection) :
  sections (parseDocument t) !! i = Some a ->
  sections (parseDocument t) !! (i + 1) = Some b ->
  lineEnd a = line b - 1 /\ 1 <= line b.
Proof.
  intros Ha Hb. replace (i + 1) with (S i) in Hb by lia.
  pose proof (parse_section_line_bounds _ _ _ Hb) as Hbb.
  apply parse_section_lookup in Ha as (r & Hr & _ & _ & _ & _ & ->).
  apply parse_section_lookup in Hb as (r' & Hr' & _ & _ & _ & Hl & _).
  rewrite Hr'. lia.
Qed.

(** C2. The sections of a parsed document are strictly ascending by
    [line] (so no two share a line), every section has
    [line <= lineEnd], and consecutive sections have
    [s[i].lineEnd < s[i+1].line]. *)
Theorem parse_sections_ordered (t : jsstring) :
  let doc := parseDocument t in
  (forall i j a b,
      sections doc !! i = Some a -> sections doc !! j = Some b ->
      i < j -> line a < line b)
  /\ (forall s, s ∈ sections doc -> line s <= lineEnd s)
  /\ (forall i a b,
      sections doc !! i = Some a -> sections doc !! (i + 1) = Some b ->
      lineEnd a < line b).
Proof.
  simpl. split; [|split].
  - apply parse_lines_ascending.
  - apply parse_line_le_lineEnd.
  - intros i a b Ha Hb.
    destruct (parse_lineEnd_next t i a b Ha Hb). lia.
Qed.

(** *** Section boundaries *)

Lemma trimIs_true (o : option jsstring) (x : jsstring) :
  trimIs o x = true <-> exists l, o = Some l /\ Js.trim l = x.
Proof.
  destruct o as [l|]; simpl.
  - unfold Js.eqb. rewrite bool_decide_eq_true. split.
    + intros H. by exists l.
    + by intros (l' & [= ->] & H).
  - split; [done|]. by intros (l & H & _).
Qed.

Lemma trimBack_spec (L : list jsstring) (floor last : nat) :
  floor <= last -> last <= length L ->
  let e := trimBack L floor last in
  floor <= e <= last /\
  (forall m l, e <= m < last -> L !! m = Some l -> Js.trim l = []) /\
  (floor < e -> exists l, L !! (e - 1) = Some l /\ Js.trim l <> []).
Proof.
  induction last as [|last IH]; simpl; intros Hfl Hlen.
  - split; [lia|]. split; intros; lia.
  - destruct (Nat.ltb_spec floor (S last)) as [Hlt|Hge]; simpl.
    + destruct (trimIs (L !! last) []) eqn:Hblank.
      * destruct IH as (Hb & Hall & Hlast); [lia|lia|].
        split; [lia|]. split; [|done].
        intros m l Hm Hl. destruct (decide (m = last)) as [->|Hne].
        -- apply trimIs_true in Hblank as (l' & Hl' & ?). congruence.
        -- apply (Hall m); [lia|done].
      * split; [lia|]. split; [intros; lia|]. intros _.
        replace (S last - 1) with last by lia.
        destruct (L !! last) as [l|] eqn:Hl.
        -- exists l. split; [done|]. intros Ht.
           assert (trimIs (Some l) [] = true); [|congruence].
           apply trimIs_true. eauto.
        -- apply lookup_ge_None in Hl. lia.
    + split; [lia|]. split; intros; lia.
Qed.

Lemma trimBack_trimmedEndOfFile (L : list jsstring) (floor : nat) :
  floor <= length L ->
  trimmedEndOfFile L floor (trimBack L floor (length L)).
Proof.
  intros Hfl. destruct (trimBack_spec L floor (length L)) as (Hb & Hall & Hl);
    [done|done|].
  split; [done|]. split; [|done].
  intros m l Hm Hlk. apply (Hall m); [|done].
  apply lookup_lt_Some in Hlk. lia.
Qed.

Lemma findIndex_spec {A} (p : A -> bool) (xs : list A) (k : nat) :
  findIndex p xs = Some k <->
  (exists x, xs !! k = Some x /\ p x = true) /\
  (forall m y, m < k -> xs !! m = Some y -> p y = false).
Proof.
  revert k. induction xs as [|x xs IH]; intros k; simpl.
  - split; [done|]. intros [(x & Hx & _) _]. by rewrite lookup_nil in Hx.
  - destruct (p x) eqn:Hp.
    + split.
      * intros [= <-]. split; [by exists x|]. intros; lia.
      * intros [_ Hbefore]. destruct k as [|k]; [done|].
        rewrite (Hbefore 0 x) in Hp; [done|lia|done].
    + destruct k as [|k].
      * split; [by destruct (findIndex p xs)|].
        intros [(y & [= <-] & Hpy) _]. congruence.
      * split.
        -- intros (k' & Hk & [= ->])%fmap_Some.
           apply IH in Hk as [Hx Hbefore]. split; [done|].
           intros [|m] y Hm Hy; simpl in Hy; [congruence|].
           apply (Hbefore m); [lia|done].
        -- intros [Hx Hbefore].
           assert (findIndex p xs = Some k) as ->; [|done].
           apply IH. split; [done|].
           intros m y Hm Hy. apply (Hbefore (S m)); [lia|done].
Qed.

Lemma find_spec {A} (p : A -> bool) (xs : list A) :
  match find p xs with
  | Some x =>
      exists k, findIndex p xs = Some k /\ xs !! k = Some x /\ p x = true
  | None => findIndex p xs = None /\ forall y, y ∈ xs -> p y = false
  end.
Proof.
  induction xs as [|x xs IH]; simpl.
  - split; [done|]. intros y Hy. by apply elem_of_nil in Hy.
  - destruct (p x) eqn:Hp; [by exists 0|].
    destruct (find p xs) as [y|].
    + destruct IH as (k & -> & Hk & Hy). by exists (S k).
    + destruct IH as [-> Hall]. split; [done|].
      intros y [->|Hy]%elem_of_cons; [done|by apply Hall].
Qed.

Lemma eqb_true (a b : jsstring) : Js.eqb a b = true <-> a = b.
Proof. unfold Js.eqb. apply bool_decide_eq_true. Qed.

Lemma eqb_false (a b : jsstring) : Js.eqb a b = false <-> a <> b.
Proof. unfold Js.eqb. apply bool_decide_eq_false. Qed.

Lemma findSection_Some (doc : Document) (id' : jsstring) (s : MdSection) :
  findSection doc id' = Some s ->
  exists k, firstWithId (sections doc) id' k s.
Proof.
  unfold findSection. intros Hf.
  pose proof (find_spec (fun s => Js.eqb (id s) id') (sections doc)) as H.
  rewrite Hf in H. destruct H as (k & Hk & Hs & Hid).
  exists k. split; [done|]. split; [by apply eqb_true|].
  apply findIndex_spec in Hk as [_ Hbefore].
  intros m x Hm Hx. apply eqb_false. by apply (Hbefore m).
Qed.

Lemma findSection_None (doc : Document) (id' : jsstring) :
  findSection doc id' = None <->
  forall s, s ∈ sections doc -> id s <> id'.
Proof.
  unfold findSection.
  pose proof (find_spec (fun s => Js.eqb (id s) id') (sections doc)) as H.
  split.
  - intros Hf. rewrite Hf in H. destruct H as [_ Hall].
    intros s Hs. apply eqb_false. by apply Hall.
  - intros Hall. destruct (find _ _) as [s|]; [|done].
    destruct H as (k & _ & Hs & Hid). apply eqb_true in Hid.
    exfalso. apply (Hall s); [|done]. apply list_elem_of_lookup. eauto.
Qed.

Lemma findIndex_firstWithId (ss : list MdSection) (k : nat)
    (s : MdSection) :
  firstWithId ss (id s) k s ->
  findIndex (fun x => Js.eqb (id x) (id s)) ss = Some k.
Proof.
  intros (Hs & _ & Hbefore). apply findIndex_spec. split.
  - exists s. split; [done|]. by apply eqb_true.
  - intros m x Hm Hx. apply eqb_false. by apply (Hbefore m).
Qed.

(** The forward scan of [getSectionEndLine] with [deep]. *)
Lemma find_after_spec (ss : list MdSection) (k lvl : nat) :
  match find (fun x => level x <=? lvl) (drop (k + 1) ss) with
  | Some n => exists j, firstAtMost ss k lvl j n
  | None => noneAtMost ss k lvl
  end.
Proof.
  pose proof (find_spec (fun x => level x <=? lvl) (drop (k + 1) ss)) as H.
  destruct (find _ _) as [n|].
  - destruct H as (j & Hj & Hn & Hlvl). exists (k + 1 + j).
    rewrite lookup_drop in Hn. apply Nat.leb_le in Hlvl.
    split; [lia|]. split; [done|]. split; [done|].
    intros m x Hm Hx. apply findIndex_spec in Hj as [_ Hbefore].
    specialize (Hbefore (m - (k + 1)) x).
    rewrite lookup_drop in Hbefore.
    replace (k + 1 + (m - (k + 1))) with m in Hbefore by lia.
    apply Nat.leb_gt. apply Hbefore; [lia|done].
  - destruct H as [_ Hall]. intros m x Hm Hx.
    apply Nat.leb_gt. apply Hall. apply list_elem_of_lookup.
    exists (m - (k + 1)). rewrite lookup_drop.
    by replace (k + 1 + (m - (k + 1))) with m by lia.
Qed.

Lemma endLine_parsed (t : jsstring) (k : nat) (s : MdSection) :
  sections (parseDocument t) !! k = Some s ->
  endLineSpec (parseDocument t) k s.
Proof.
  intros Hs.
  pose proof (parse_section_line_bounds _ _ _ Hs) as Hb.
  split; [|split].
  - unfold getSectionEndLine.
    destruct (findIndex _ _) as [i|] eqn:Hi; [done|]. exfalso.
    pose proof (find_spec (fun x => Js.eqb (id x) (id s))
                          (sections (parseDocument t))) as H.
    destruct (find _ _) as [y|].
    + destruct H as (i & Hi' & _). congruence.
    + destruct H as [_ Hall].
      assert (Js.eqb (id s) (id s) = false) as E.
      { apply Hall. apply list_elem_of_lookup. eauto. }
      apply eqb_false in E. done.
  - replace (k + 1) with (S k) by lia.
    destruct (sections (parseDocument t) !! S k) as [n|] eqn:Hn.
    + apply parse_section_lookup in Hn as (r' & Hr' & _ & _ & _ & Hl' & _).
      apply parse_section_lookup in Hs as (r & Hr & _ & _ & _ & _ & ->).
      by rewrite Hr', Hl'.
    + rewrite parse_sections, fixLineEnds_lookup in Hn.
      destruct (rawSections t !! S k) eqn:Hraw; [done|].
      apply parse_section_lookup in Hs as (r & Hr & _ & _ & _ & Hl & ->).
      rewrite Hraw, parse_lines, Hl. apply trimBack_trimmedEndOfFile.
      rewrite parse_lines, Hl in Hb. lia.
  - intros Hfirst. unfold getSectionEndLine.
    rewrite (findIndex_firstWithId _ k s); [|done]. simpl.
    pose proof (find_after_spec (sections (parseDocument t)) k (level s))
      as H.
    destruct (find _ _) as [n|].
    + left. destruct H as [j Hj]. by exists j, n.
    + right. split; [done|]. eexists. split; [done|].
      apply trimBack_trimmedEndOfFile. lia.
Qed.

(** C3 (amended). In a parsed document, for the section [s] at index
    [k]: without [deep] the end line is [s.lineEnd], the line before the
    next header of any level (the trimmed end of file for the last
    section); with [deep], when no earlier section carries the id of
    [s], the end line is the line of the first later section whose level
    is at most that of [s], minus 1, or, when there is none, the end of
    file with the trailing all-whitespace lines trimmed back but never
    below [s.line]. *)
Theorem getSectionEndLine_parsed (t : jsstring) (k : nat) (s : MdSection) :
  sections (parseDocument t) !! k = Some s ->
  endLineSpec (parseDocument t) k s.
Proof. apply endLine_parsed. Qed.

(** The end line that a command computes for the section it found. *)
Lemma endLine_found (t id' : jsstring) (s : MdSection) (deep : bool) :
  findSection (parseDocument t) id' = Some s ->
  exists k e,
    firstWithId (sections (parseDocument t)) id' k s /\
    getSectionEndLine (parseDocument t) s deep = Return e /\
    1 <= line s <= e /\ e <= length (lines (parseDocument t)) /\
    (deep = true ->
       (exists j n, firstAtMost (sections (parseDocument t)) k (level s) j n
                    /\ e = line n - 1)
       \/ (noneAtMost (sections (parseDocument t)) k (level s) /\
           trimmedEndOfFile (lines (parseDocument t)) (line s) e)).
Proof.
  intros Hf. destruct (findSection_Some _ _ _ Hf) as (k & Hk).
  destruct Hk as (Hs & Hid & Hbefore).
  pose proof (parse_section_line_bounds _ _ _ Hs) as Hb.
  destruct (endLine_parsed t k s Hs) as (Hshallow & Hnext & Hdeep).
  exists k. destruct deep.
  - destruct Hdeep as [(j & n & Hj & He)|(Hnone & e & He & Htrim)].
    { by rewrite Hid. }
    + exists (line n - 1). split; [done|]. split; [done|].
      destruct Hj as (Hkj & Hn & Hlvl & Hbetween).
      pose proof (parse_lines_ascending t k j s n Hs Hn Hkj).
      pose proof (parse_section_line_bounds _ _ _ Hn).
      split; [lia|]. split; [lia|]. intros _. left. by exists j, n.
    + exists e. split; [done|]. split; [done|].
      destruct Htrim as (Hbe & Hrest). split; [lia|]. split; [lia|].
      intros _. by right.
  - exists (lineEnd s). split; [done|]. split; [done|].
    assert (line s <= lineEnd s).
    { apply (parse_line_le_lineEnd t). apply list_elem_of_lookup. eauto. }
    split; [lia|]. split; [|done].
    destruct (sections (parseDocument t) !! (k + 1)) as [n|] eqn:Hn.
    + pose proof (parse_section_line_bounds _ _ _ Hn). lia.
    + destruct Hnext as (Hbe & _). lia.
Qed.

(** *** Headers and code fences *)

Lemma scan_headers (total : nat) (ls : list jsstring) :
  forall (i : nat) (b : bool) (occ : gmap jsstring nat),
    Forall (fun s => exists q l m2,
              line s = i + q + 1 /\ headerAt ls b q l (level s) m2 /\
              title s = Js.trim m2)
           (scanSections total ls i b occ).
Proof.
  induction ls as [|l rest IH]; intros i b occ; simpl; [constructor|].
  assert (forall occ',
    Forall (fun s => exists q l0 m2,
              line s = i + q + 1 /\
              headerAt (l :: rest) b q l0 (level s) m2 /\
              title s = Js.trim m2)
           (scanSections total rest (S i) (toggleFence b l) occ')) as Hrest.
  { intros occ'. eapply Forall_impl; [apply IH|]. simpl.
    intros s (q & l0 & m2 & Hl & (Hq & Hf & Hflag & Hm) & Ht).
    exists (S q), l0, m2. split; [lia|]. split; [|done].
    split; [done|]. split; [done|]. split; [|done]. by simpl. }
  unfold toggleFence in Hrest.
  destruct (isFence l) eqn:Hfence; [apply Hrest|].
  destruct b; [apply Hrest|].
  destruct (matchHeader l) as [[k m2]|] eqn:Hm; [|apply Hrest].
  constructor; [|apply Hrest]. simpl.
  exists 0, l, m2. split; [lia|]. split; [|done]. by repeat split.
Qed.

Lemma scan_header_found (total : nat) (ls : list jsstring) :
  forall (i : nat) (b : bool) (occ : gmap jsstring nat) q l k m2,
    headerAt ls b q l k m2 ->
    exists s, s ∈ scanSections total ls i b occ /\
              line s = i + q + 1 /\ level s = k /\ title s = Js.trim m2.
Proof.
  induction ls as [|l0 rest IH]; intros i b occ q l k m2
    (Hq & Hf & Hflag & Hm); [by rewrite lookup_nil in Hq|].
  destruct q as [|q]; simpl in *.
  - injection Hq as ->. subst b. rewrite Hf, Hm.
    eexists. split; [apply elem_of_cons; by left|]. simpl. split; [lia|done].
  - assert (forall occ', exists s,
      s ∈ scanSections total rest (S i) (toggleFence b l0) occ' /\
      line s = i + S q + 1 /\ level s = k /\ title s = Js.trim m2) as Hrest.
    { intros occ'.
      destruct (IH (S i) (toggleFence b l0) occ' q l k m2) as (s & ? & ? & ?);
        [done|].
      exists s. split; [done|]. split; [lia|done]. }
    unfold toggleFence in Hrest.
    destruct (isFence l0); [apply Hrest|].
    destruct b; [apply Hrest|].
    destruct (matchHeader l0) as [[k0 m0]|]; [|apply Hrest].
    destruct (Hrest (<[normalizedKey k0 (Js.trim m0) :=
                        default 0 (occ !! normalizedKey k0 (Js.trim m0)) + 1]>
                     occ)) as (s & ? & ?).
    exists s. split; [apply elem_of_cons; by right|done].
Qed.

(** The header line of a section of a parse: it lies where the scan
    goes, is no fence line, is outside every fence, and matches
    [HEADER_REGEX] with the level and the title of the section. *)
Lemma parse_section_header (t : jsstring) (s : MdSection) :
  s ∈ sections (parseDocument t) ->
  exists l m2,
    startLineOf (Js.split t) < line s /\
    Js.split t !! (line s - 1) = Some l /\
    isFence l = false /\
    fenceFlagAt (Js.split t) (startLineOf (Js.split t)) (line s - 1) = false /\
    matchHeader l = Some (level s, m2) /\
    title s = Js.trim m2.
Proof.
  intros (i & Hs)%list_elem_of_lookup.
  apply parse_section_lookup in Hs as (r & Hr & _ & -> & -> & -> & _).
  pose proof (scan_headers (length (Js.split t))
                (drop (startLineOf (Js.split t)) (Js.split t))
                (startLineOf (Js.split t)) false ∅) as Hall.
  rewrite Forall_forall in Hall.
  destruct (Hall r) as (q & l & m2 & Hl & (Hq & Hf & Hflag & Hm) & Ht).
  { apply list_elem_of_lookup. by exists i. }
  exists l, m2. rewrite Hl.
  replace (startLineOf (Js.split t) + q + 1 - 1)
    with (startLineOf (Js.split t) + q) by lia.
  rewrite lookup_drop in Hq.
  split; [lia|]. split; [done|]. split; [done|]. split; [|done].
  unfold fenceFlagAt, slice.
  by replace (startLineOf (Js.split t) + q - startLineOf (Js.split t))
    with q by lia.
Qed.

Lemma raw_to_parsed (t : jsstring) (i : nat) (r : MdSection) :
  rawSections t !! i = Some r ->
  exists s, sections (parseDocument t) !! i = Some s /\
            id s = id r /\ level s = level r /\ title s = title r /\
            line s = line r.
Proof.
  intros Hr. rewrite parse_sections, fixLineEnds_lookup, Hr. simpl.
  eexists. split; [done|]. by simpl.
Qed.

(** C7. A line inside a fenced code block is never recognised as a
    header: the header line of every section is no fence line and the
    fence flag, toggled by every line whose trimmed content starts with
    three backticks or three tildes, is unset there; so a line on which
    the flag is set, and a fence line, give no section; a line that
    matches outside the fences does give one. The five lines [# A],
    three backticks, [# not a header], three backticks, [## B] give
    exactly two sections, titled A and B. *)
Theorem fenced_lines_are_not_headers (t : jsstring) :
  let doc := parseDocument t in
  let start := startLineOf (lines doc) in
  (forall s, s ∈ sections doc ->
     exists l, lines doc !! (line s - 1) = Some l /\ isFence l = false /\
               fenceFlagAt (lines doc) start (line s - 1) = false)
  /\ (forall p l, lines doc !! p = Some l ->
        fenceFlagAt (lines doc) start p = true \/ isFence l = true ->
        forall s, s ∈ sections doc -> line s <> p + 1)
  /\ (forall p l, start <= p -> lines doc !! p = Some l ->
        isFence l = false -> fenceFlagAt (lines doc) start p = false ->
        is_Some (matchHeader l) ->
        exists s, s ∈ sections doc /\ line s = p + 1)
  /\ title <$> sections (parseDocument Ex.fenced) = [Js.lit "A"; Js.lit "B"].
Proof.
  simpl. rewrite parse_lines.
  assert (forall s, s ∈ sections (parseDocument t) ->
    exists l, Js.split t !! (line s - 1) = Some l /\ isFence l = false /\
      fenceFlagAt (Js.split t) (startLineOf (Js.split t)) (line s - 1)
      = false) as Hsec.
  { intros s Hs.
    destruct (parse_section_header t s Hs) as (l & m2 & _ & Hl & Hf & Hflag & _).
    by exists l. }
  split; [done|]. split; [|split].
  - intros p l Hl Hin s Hs Hline.
    destruct (Hsec s Hs) as (l' & Hl' & Hf & Hflag).
    rewrite Hline in Hl', Hflag.
    replace (p + 1 - 1) with p in Hl', Hflag by lia.
    assert (l' = l) as -> by congruence.
    destruct Hin; congruence.
  - intros p l Hp Hl Hf Hflag [[k m2] Hm].
    set (st := startLineOf (Js.split t)) in *.
    destruct (scan_header_found (length (Js.split t)) (drop st (Js.split t))
                st false ∅ (p - st) l k m2) as (r & Hr & Hline & _).
    { split; [|split; [done|split; [|done]]].
      - rewrite lookup_drop. by replace (st + (p - st)) with p by lia.
      - unfold fenceFlagAt, slice in Hflag. done. }
    apply list_elem_of_lookup in Hr as [i Hr].
    destruct (raw_to_parsed t i r Hr) as (s & Hs & _ & _ & _ & Hl').
    exists s. split; [apply list_elem_of_lookup; by exists i|].
    rewrite Hl', Hline. lia.
  - reflexivity.
Qed.

(** *** Identifiers *)

Lemma countKey_cons (k x : jsstring) (ks : list jsstring) :
  countKey k (x :: ks) = (if decide (x = k) then 1 else 0) + countKey k ks.
Proof. unfold countKey. rewrite filter_cons. by destruct (decide (x = k)). Qed.

Lemma scan_ids (total : nat) (ls : list jsstring) :
  forall (i : nat) (b : bool) (occ : gmap jsstring nat) j s,
    scanSections total ls i b occ !! j = Some s ->
    id s = sectionHash (level s) (title s)
             (default 0 (occ !! keyOf s)
              + countKey (keyOf s)
                  (take j (keyOf <$> scanSections total ls i b occ))).
Proof.
  induction ls as [|l rest IH]; intros i b occ j s; simpl;
    [by rewrite lookup_nil|].
  destruct (isFence l); [apply IH|].
  destruct b; [apply IH|].
  destruct (matchHeader l) as [[k m2]|]; [|apply IH].
  set (key := normalizedKey k (Js.trim m2)).
  destruct j as [|j]; simpl.
  - intros [= <-]. simpl. unfold keyOf, countKey. simpl.
    fold key. by rewrite Nat.add_0_r.
  - intros Hs. rewrite (IH _ _ _ _ _ Hs).
    apply (f_equal (sectionHash (level s) (title s))).
    rewrite countKey_cons.
    lazymatch goal with
    | |- context [decide (?a = keyOf s)] => change a with key
    end.
    change (list_fmap MdSection jsstring keyOf) with (fmap (M:=list) keyOf).
    destruct (decide (key = keyOf s)) as [E|E].
    + rewrite <- E, lookup_insert_eq. simpl. lia.
    + by rewrite lookup_insert_ne.
Qed.

Lemma parse_keys (t : jsstring) :
  keyOf <$> sections (parseDocument t) = keyOf <$> rawSections t.
Proof.
  apply list_eq. intros i. rewrite !list_lookup_fmap.
  rewrite parse_sections, fixLineEnds_lookup.
  by destruct (rawSections t !! i).
Qed.

Lemma parse_ids (t : jsstring) (j : nat) (s : MdSection) :
  sections (parseDocument t) !! j = Some s ->
  id s = sectionHash (level s) (title s)
           (countKey (keyOf s) (take j (keyOf <$> sections (parseDocument t)))).
Proof.
  intros Hs. rewrite parse_keys.
  apply parse_section_lookup in Hs as (r & Hr & Hid & Hlvl & Ht & _).
  unfold keyOf at 1. rewrite Hid, Hlvl, Ht.
  unfold rawSections in *. rewrite (scan_ids _ _ _ _ _ _ _ Hr).
  by rewrite lookup_empty.
Qed.

Lemma decimal_level (k : nat) :
  1 <= k <= 6 -> Js.decimal k = [(48 + N.of_nat k)%N].
Proof.
  intros Hk.
  do 7 (destruct k as [|k]; [first [lia | reflexivity]|]). lia.
Qed.

Lemma normalizedKey_inj (k1 k2 : nat) (t1 t2 : jsstring) :
  1 <= k1 <= 6 -> 1 <= k2 <= 6 ->
  normalizedKey k1 t1 = normalizedKey k2 t2 <->
  k1 = k2 /\ normalizedTitle t1 = normalizedTitle t2.
Proof.
  intros H1 H2. unfold normalizedKey, normalizedTitle.
  rewrite !decimal_level by done. simpl. split.
  - intros [= Hk Ht]. split; [lia|done].
  - by intros [-> ->].
Qed.

Lemma parse_section_level (t : jsstring) (s : MdSection) :
  s ∈ sections (parseDocument t) -> 1 <= level s <= 6.
Proof.
  intros Hs.
  destruct (parse_section_header t s Hs) as (l & m2 & _ & _ & _ & _ & Hm & _).
  by apply matchHeader_level in Hm.
Qed.

Lemma occurrences_countKey (ss : list MdSection) (s : MdSection) :
  Forall (fun x => 1 <= level x <= 6) ss -> 1 <= level s <= 6 ->
  length (filter (fun x => sameHeader x s) ss)
  = countKey (keyOf s) (keyOf <$> ss).
Proof.
  intros Hall Hs. induction Hall as [|x ss Hx Hall IH]; [done|].
  rewrite fmap_cons, countKey_cons, filter_cons.
  assert (sameHeader x s <-> keyOf x = keyOf s) as Hiff.
  { unfold keyOf, sameHeader. by rewrite normalizedKey_inj. }
  destruct (decide (sameHeader x s)) as [E|E];
    destruct (decide (keyOf x = keyOf s)) as [E'|E']; simpl;
    rewrite ?IH; try lia.
  - destruct E'. by apply Hiff.
  - destruct E. by apply Hiff.
Qed.

(** The identifier of a section of a parse is the hash of its level,
    its title and its occurrence index. *)
Lemma parse_id_occurrence (t : jsstring) (j : nat) (s : MdSection) :
  sections (parseDocument t) !! j = Some s ->
  id s = sectionHash (level s) (title s)
           (occurrencesBefore (sections (parseDocument t)) j s).
Proof.
  intros Hs. rewrite (parse_ids t j s Hs). f_equal.
  unfold occurrencesBefore. rewrite occurrences_countKey, fmap_take; [done| |].
  - apply Forall_take, Forall_forall. intros x Hx.
    by apply (parse_section_level t).
  - apply (parse_section_level t), list_elem_of_lookup. eauto.
Qed.

Lemma occurrencesBefore_lt (ss : list MdSection) (i j : nat)
    (a b : MdSection) :
  i < j -> ss !! i = Some a -> ss !! j = Some b -> sameHeader a b ->
  occurrencesBefore ss i a < occurrencesBefore ss j b.
Proof.
  intros Hij Ha Hb Hab. unfold occurrencesBefore.
  assert (take j ss = take i ss ++ a :: take (j - S i) (drop (S i) ss)) as ->.
  { rewrite <- (take_drop i ss) at 1.
    rewrite take_app_ge by (rewrite length_take; lia).
    rewrite length_take.
    assert (i < length ss) by (by eapply lookup_lt_Some).
    replace (i `min` length ss) with i by lia.
    rewrite (drop_S _ _ _ Ha).
    by replace (j - i) with (S (j - S i)) by lia. }
  rewrite filter_app, length_app, filter_cons_True by done. simpl.
  assert (forall l, filter (fun x => sameHeader x a) l
                    = filter (fun x => sameHeader x b) l) as ->; [|lia].
  intros l. apply list_filter_iff. intros x. unfold sameHeader in *.
  destruct Hab as [-> ->]. done.
Qed.

(** C8 (amended). [sectionHash] is the first 8 hex characters of the
    SHA-256 digest of the UTF-8 bytes of
    [{level}:{lowercased trimmed title}:{occurrenceIndex}]. The ids of
    [(1, Title, 0)], [(1, title  , 0)] and [(1, TITLE, 0)] are equal, and
    those of [(1, Title, 0)], [(1, Title, 1)], [(2, Title, 0)] and
    [(1, Other, 0)] are pairwise distinct. Within one parse, each section
    gets the hash of its level, its title and its occurrence index, and
    of two headers with identical level and normalized title the later
    one has the greater occurrence index (which alone does not make the
    two ids different). *)
Theorem sectionHash_identifiers :
  (forall level title occ,
      sectionHash level title occ
      = take 8 (hexString (Sha256.digest
                             (Utf8.encode (hashInput level title occ)))))
  /\ (sectionHash 1 (Js.lit "Title") 0 = Js.lit "ffec1a58"
      /\ sectionHash 1 (Js.lit "title  ") 0 = sectionHash 1 (Js.lit "Title") 0
      /\ sectionHash 1 (Js.lit "TITLE") 0 = sectionHash 1 (Js.lit "Title") 0)
  /\ (sectionHash 1 (Js.lit "Title") 0 <> sectionHash 1 (Js.lit "Title") 1
      /\ sectionHash 1 (Js.lit "Title") 0 <> sectionHash 2 (Js.lit "Title") 0
      /\ sectionHash 1 (Js.lit "Title") 0 <> sectionHash 1 (Js.lit "Other") 0
      /\ sectionHash 1 (Js.lit "Title") 1 <> sectionHash 2 (Js.lit "Title") 0
      /\ sectionHash 1 (Js.lit "Title") 1 <> sectionHash 1 (Js.lit "Other") 0
      /\ sectionHash 2 (Js.lit "Title") 0 <> sectionHash 1 (Js.lit "Other") 0)
  /\ (forall t i j a b,
        let ss := sections (parseDocument t) in
        ss !! i = Some a -> ss !! j = Some b -> i < j -> sameHeader a b ->
        id a = sectionHash (level a) (title a) (occurrencesBefore ss i a)
        /\ id b = sectionHash (level b) (title b) (occurrencesBefore ss j b)
        /\ occurrencesBefore ss i a < occurrencesBefore ss j b).
Proof.
  split; [|split; [|split]].
  - intros k ti o. unfold sectionHash, hashInput, normalizedTitle.
    reflexivity.
  - repeat split; vm_compute; reflexivity.
  - repeat split; vm_compute; discriminate.
  - intros t i j a b ss Ha Hb Hij Hab.
    split; [by apply parse_id_occurrence|].
    split; [by apply parse_id_occurrence|].
    by apply (occurrencesBefore_lt ss i j).
Qed.

(** An identifier that [sectionHash] makes has the shape that
    [isValidId] asks for. *)
Lemma be_bytes_length (k : nat) (x : N) : length (Sha256.be_bytes k x) = k.
Proof.
  unfold Sha256.be_bytes.
  by rewrite length_fmap, length_reverse, length_seq.
Qed.

Lemma be_bytes_bytes (k : nat) (x : N) :
  Forall (fun b => (b < 256)%N) (Sha256.be_bytes k x).
Proof.
  unfold Sha256.be_bytes. apply Forall_fmap, Forall_forall.
  intros i _. simpl. by apply N.mod_lt.
Qed.

Lemma digest_length (msg : list N) : length (Sha256.digest msg) = 32.
Proof.
  unfold Sha256.digest. cbv zeta.
  by rewrite !length_app, !be_bytes_length.
Qed.

Lemma digest_bytes (msg : list N) :
  Forall (fun b => (b < 256)%N) (Sha256.digest msg).
Proof.
  unfold Sha256.digest. cbv zeta.
  repeat (apply Forall_app; split); apply be_bytes_bytes.
Qed.

Lemma hexString_length (bytes : list N) :
  length (hexString bytes) = 2 * length bytes.
Proof.
  induction bytes as [|b bytes IH]; [done|].
  unfold hexString. rewrite fmap_cons. cbn [concat].
  rewrite length_app. fold (hexString bytes). rewrite IH. simpl. lia.
Qed.

Lemma hexDigit_hex (d : N) : (d < 16)%N -> isHexDigit (hexDigit d) = true.
Proof.
  intros Hd. unfold hexDigit, isHexDigit.
  destruct (N.ltb_spec d 10).
  - apply orb_true_intro. left. apply orb_true_intro. left.
    apply andb_true_intro. split; apply N.leb_le; lia.
  - apply orb_true_intro. left. apply orb_true_intro. right.
    apply andb_true_intro. split; apply N.leb_le; lia.
Qed.

Lemma hexString_hex (bytes : list N) :
  Forall (fun b => (b < 256)%N) bytes ->
  Forall (fun c => isHexDigit c = true) (hexString bytes).
Proof.
  induction 1 as [|b bytes Hb _ IH]; [constructor|].
  unfold hexString. rewrite fmap_cons. cbn [concat].
  apply Forall_app. split; [|exact IH].
  unfold hexByte. repeat constructor; apply hexDigit_hex.
  - apply N.Div0.div_lt_upper_bound. lia.
  - by apply N.mod_lt.
Qed.

Lemma sectionHash_valid (k : nat) (ti : jsstring) (o : nat) :
  isValidId (sectionHash k ti o) = true.
Proof.
  unfold isValidId, sectionHash. cbv zeta.
  set (bytes := Sha256.digest _).
  apply andb_true_intro. split.
  - apply Nat.eqb_eq. rewrite length_take, hexString_length.
    unfold bytes. rewrite digest_length. reflexivity.
  - apply forallb_forall. intros c Hc.
    pose proof (hexString_hex bytes (digest_bytes _)) as Hall.
    apply Forall_take with (n := 8) in Hall.
    rewrite Forall_forall in Hall. apply Hall. by apply list_elem_of_In.
Qed.

(** The id of a section that [findSection] finds is well-formed. *)
Lemma findSection_valid (t id' : jsstring) (s : MdSection) :
  findSection (parseDocument t) id' = Some s -> isValidId id' = true.
Proof.
  intros (k & Hs & <- & _)%findSection_Some.
  rewrite (parse_id_occurrence t k s Hs). apply sectionHash_valid.
Qed.

(** *** Commands *)

Lemma readFile_readable (w : World) (file t : jsstring) :
  readable w file t -> readFile file w = (Return t, w).
Proof.
  intros [Hf Hr]. unfold readFile. rewrite Hf.
  by destruct (decide (file ∈ unreadable w)).
Qed.

Lemma writeFile_writable (w : World) (file c : jsstring) :
  writable w file -> writeFile file c w = (Return (), written w file c).
Proof.
  intros Hw. unfold writeFile.
  by destruct (decide (file ∈ unwritable w)).
Qed.

Lemma bind_Return {A B} (m : IO A) (k : A -> IO B) (w w' : World) (a : A) :
  m w = (Return a, w') -> (m ≫= k) w = k a w'.
Proof. intros H. unfold mbind, io_mbind, io_bind. by rewrite H. Qed.

Lemma bind_Throw {A B} (m : IO A) (k : A -> IO B) (w w' : World)
    (e : MdError.t) :
  m w = (Throw e, w') -> (m ≫= k) w = (Throw e, w').
Proof. intros H. unfold mbind, io_mbind, io_bind. by rewrite H. Qed.

Lemma slice_0 {A} (n : nat) (xs : list A) : slice 0 n xs = take n xs.
Proof. unfold slice. by rewrite Nat.sub_0_r, drop_0. Qed.

Lemma length_slice {A} (a b : nat) (xs : list A) :
  b <= length xs -> length (slice a b xs) = b - a.
Proof. intros Hb. unfold slice. rewrite length_take, length_drop. lia. Qed.

(** What [cmdWrite] does once the section is found. *)
Lemma cmdWrite_run (w : World) (file id' newContent t : jsstring)
    (deep : bool) (s : MdSection) (e : nat) :
  readable w file t -> writable w file -> isValidId id' = true ->
  findSection (parseDocument t) id' = Some s ->
  getSectionEndLine (parseDocument t) s deep = Return e ->
  let doc := parseDocument t in
  let expanded :=
    expandMagic newContent (parseFrontmatter (getFrontmatterContent doc)) in
  let newLines0 := if Js.eqb expanded [] then [] else Js.split expanded in
  let inserted :=
    unshiftBlankIf ((0 <? length newLines0)
                    && negb (trimIs (newLines0 !! 0) [])) newLines0 in
  cmdWrite file id' newContent deep w =
  (Return (Mutation.mk updated (id s) (Z.of_nat (line s))
             (Some (Z.of_nat (line s + length inserted)))
             (Z.of_nat (length inserted))
             (Z.of_nat e - Z.of_nat (line s))%Z),
   written w file
     (Js.join (take (line s) (lines doc) ++ inserted ++ drop e (lines doc)))).
Proof.
  intros Hr Hw Hv Hf He. simpl. unfold cmdWrite. rewrite Hv. simpl.
  rewrite (bind_Return _ _ w w t) by by apply readFile_readable.
  rewrite Hf. unfold io_lift at 1.
  erewrite bind_Return by (rewrite He; reflexivity).
  erewrite bind_Return by (by apply writeFile_writable).
  by rewrite slice_0.
Qed.

Lemma writtenLines_ok (c : jsstring) :
  let newLines0 := if Js.eqb c [] then [] else Js.split c in
  writtenLinesSpec c
    (unshiftBlankIf ((0 <? length newLines0)
                     && negb (trimIs (newLines0 !! 0) [])) newLines0).
Proof.
  simpl. split.
  - intros ->. reflexivity.
  - intros Hc. apply eqb_false in Hc as Hc'. rewrite Hc'.
    pose proof (split_not_nil c) as Hne.
    destruct (Js.split c) as [|first rest] eqn:Hsplit; [done|].
    exists first. split; [done|]. simpl.
    destruct (Js.eqb (Js.trim first) []) eqn:Ht; simpl.
    + apply eqb_true in Ht. split; [done|]. by intros _.
    + apply eqb_false in Ht. split; [by intros _|done].
Qed.

Lemma splice_lookup {A} (xs ins : list A) (a e : nat) :
  a <= e -> e <= length xs ->
  let ys := take a xs ++ ins ++ drop e xs in
  (forall m, m < a -> ys !! m = xs !! m)
  /\ (forall m, m < length ins -> ys !! (a + m) = ins !! m)
  /\ (forall m, e <= m -> ys !! (a + length ins + (m - e)) = xs !! m).
Proof.
  intros Hae He. simpl.
  assert (length (take a xs) = a) as Hla by (rewrite length_take; lia).
  split; [|split].
  - intros m Hm. rewrite lookup_app_l by lia. by apply lookup_take_lt.
  - intros m Hm. rewrite lookup_app_r by lia. rewrite Hla.
    replace (a + m - a) with m by lia. by rewrite lookup_app_l.
  - intros m Hm. rewrite lookup_app_r by lia. rewrite Hla.
    rewrite lookup_app_r by lia. rewrite lookup_drop. f_equal. lia.
Qed.

(** C5. A write on a section that is present keeps the header line and
    every line outside the replaced range (the lines after the header
    through the resolved end line), puts the new content, split on the
    newline, in place of that range, after a single blank line when the
    content is not empty and its first line is not blank, and reports
    [lineStart] = the header line, [linesAdded] = the number of lines put
    in, [linesRemoved] = the number of lines of the old content. *)
Theorem cmdWrite_replaces_content (w : World)
    (file id' newContent t : jsstring) (deep : bool) (s : MdSection) :
  readable w file t -> writable w file ->
  findSection (parseDocument t) id' = Some s ->
  writePost w file id' newContent deep t s.
Proof.
  intros Hr Hw Hf. pose proof (findSection_valid t id' s Hf) as Hv.
  destruct (endLine_found t id' s deep Hf)
    as (k & e & Hfirst & He & Hb1 & Hb2 & _).
  pose proof (cmdWrite_run w file id' newContent t deep s e Hr Hw Hv Hf He)
    as Hrun. simpl in Hrun.
  unfold writePost.
  set (doc := parseDocument t) in *.
  set (expanded := expandMagic newContent _) in *.
  pose proof (writtenLines_ok expanded) as Hspec. simpl in Hspec.
  set (inserted := unshiftBlankIf _ _) in *.
  eexists e, inserted, _.
  split; [done|]. split; [done|]. split; [done|]. split; [done|].
  simpl. split; [exact Hrun|].
  destruct (splice_lookup (lines doc) inserted (line s) e) as (H1 & H2 & H3);
    [lia|lia|].
  split; [done|]. split; [done|]. split; [done|]. simpl.
  repeat split; try done.
  rewrite length_slice by done. f_equal. lia.
Qed.

(** A header line does not trim to the empty string. *)
Lemma trimStart_not_nil (s : jsstring) (c : N) :
  c ∈ s -> Js.isWhiteSpace c = false -> Js.trimStart s <> [].
Proof.
  induction s as [|x s IH]; intros Hin Hc; [by apply elem_of_nil in Hin|].
  simpl. destruct (Js.isWhiteSpace x) eqn:Hx; [|done].
  apply elem_of_cons in Hin as [->|Hin]; [congruence|]. by apply IH.
Qed.

Lemma matchHeader_first (l : jsstring) (k : nat) (m2 : jsstring) :
  matchHeader l = Some (k, m2) -> exists l', l = Js.HASH :: l'.
Proof.
  unfold matchHeader. simpl. destruct l as [|c l']; [done|].
  destruct (N.eqb_spec c Js.HASH) as [->|]; [|done]. by exists l'.
Qed.

Lemma matchHeader_not_blank (l : jsstring) (k : nat) (m2 : jsstring) :
  matchHeader l = Some (k, m2) -> Js.trim l <> [].
Proof.
  intros [l' ->]%matchHeader_first. unfold Js.trim, Js.trimEnd.
  change (Js.trimStart (Js.HASH :: l')) with (Js.HASH :: l').
  intros H. apply (f_equal reverse) in H.
  rewrite reverse_involutive in H. revert H.
  apply (trimStart_not_nil _ Js.HASH); [|done].
  apply elem_of_reverse, elem_of_cons. by left.
Qed.

(** What [cmdRemove] does once the section is found. *)
Lemma cmdRemove_run (w : World) (file id' t : jsstring) (s : MdSection)
    (e : nat) :
  readable w file t -> writable w file -> isValidId id' = true ->
  findSection (parseDocument t) id' = Some s ->
  getSectionEndLine (parseDocument t) s true = Return e ->
  cmdRemove file id' w =
  (Return (Mutation.mk removed (id s) (Z.of_nat (line s)) None 0%Z
             (Z.of_nat e - Z.of_nat (line s) + 1)%Z),
   written w file
     (Js.join (take (line s - 1) (lines (parseDocument t))
               ++ drop e (lines (parseDocument t))))).
Proof.
  intros Hr Hw Hv Hf He. unfold cmdRemove. rewrite Hv. simpl.
  rewrite (bind_Return _ _ w w t) by by apply readFile_readable.
  rewrite Hf. unfold io_lift at 1.
  erewrite bind_Return by (rewrite He; reflexivity).
  erewrite bind_Return by (by apply writeFile_writable).
  by rewrite slice_0.
Qed.

Lemma cmdRemove_post (w : World) (file id' t : jsstring) (s : MdSection) :
  readable w file t -> writable w file -> isValidId id' = true ->
  findSection (parseDocument t) id' = Some s ->
  removePost w file id' t s.
Proof.
  intros Hr Hw Hv Hf.
  destruct (endLine_found t id' s true Hf)
    as (k & e & Hfirst & He & Hb1 & Hb2 & Hdeep).
  specialize (Hdeep eq_refl).
  pose proof (cmdRemove_run w file id' t s e Hr Hw Hv Hf He) as Hrun.
  unfold removePost. set (doc := parseDocument t) in *.
  destruct Hfirst as (Hs & Hid & Hbefore).
  eexists k, e, _.
  split; [done|]. split; [done|]. split; [done|]. split; [done|].
  split; [done|]. split.
  { intros m x Hkm Hx Hdesc.
    assert (line s < line x) by (by apply (parse_lines_ascending t k m)).
    split; [done|].
    destruct Hdeep as [(j & n & (Hkj & Hn & Hlvl & Hbetween) & ->)
                      |(Hnone & Hbe & Hblank & _)].
    - assert (m < j).
      { destruct (decide (m < j)); [done|]. exfalso.
        assert (level s < level n) by (apply (Hdesc j); [lia|done]). lia. }
      pose proof (parse_lines_ascending t m j x n Hx Hn). lia.
    - destruct (decide (line x <= e)) as [|Hgt]; [done|]. exfalso.
      destruct (parse_section_header t x) as (l & m2 & _ & Hl & _ & _ & Hm & _).
      { apply list_elem_of_lookup. eauto. }
      apply matchHeader_not_blank in Hm. apply Hm.
      apply (Hblank (line x - 1)); [lia|].
      unfold doc. by rewrite parse_lines. }
  simpl. split; [exact Hrun|].
  destruct (splice_lookup (lines doc) [] (line s - 1) e) as (H1 & _ & H3);
    [lia|lia|]. simpl in H1, H3.
  split; [done|]. split.
  { intros m Hm. rewrite <- (H3 m Hm). f_equal. lia. }
  split.
  { rewrite length_app, length_take, length_drop. lia. }
  repeat split; try done.
  rewrite length_slice by done. simpl. lia.
Qed.

Lemma cmdRemove_example : removeExample.
Proof.
  intros w file Hr Hw.
  pose proof (cmdRemove_run w file (sectionHash 1 (Js.lit "A") 0) Ex.nested
                (mkSection (sectionHash 1 (Js.lit "A") 0) 1 (Js.lit "A") 1 3)
                6 Hr Hw) as Hrun.
  assert (Js.join (take (1 - 1) (lines (parseDocument Ex.nested))
                   ++ drop 6 (lines (parseDocument Ex.nested)))
          = Ex.text ["# C"]) as E by (vm_compute; reflexivity).
  cbn [line] in Hrun. rewrite E in Hrun.
  eexists. split.
  - apply Hrun; vm_compute; reflexivity.
  - reflexivity.
Qed.

(** C6. A remove on a section that is present deletes the header line
    and the entire deep range of the section, up to the line before the
    next section whose level is at most its own, or the end of the file
    (as the boundary resolver trims it); the command has no deep flag;
    the header of every descendant is in the deleted range, and
    [linesRemoved] is the number of lines of the deep content plus one.
    Removing [# A] from [# A], [x], blank, [## B], [y], blank, [# C]
    leaves [# C] alone. *)
Theorem cmdRemove_deletes_deep_range (w : World) (file id' t : jsstring)
    (s : MdSection) :
  readable w file t -> writable w file ->
  findSection (parseDocument t) id' = Some s ->
  removePost w file id' t s /\ removeExample.
Proof.
  intros Hr Hw Hf. pose proof (findSection_valid t id' s Hf) as Hv. split.
  - by apply cmdRemove_post.
  - apply cmdRemove_example.
Qed.

(** *** Errors *)

Ltac fails_now := eexists; split; [reflexivity|reflexivity].

(** C9. Every operation that takes the id of a target section (read,
    write, append with an id, empty, remove), on a file that can be
    read: when the id has not the shape of 8 hex characters, it fails
    with the kind [invalid_id]; when it has and no section of the parsed
    document carries it, it fails with the kind [section_not_found]. *)
Theorem id_errors (w : World) (file id' newContent t : jsstring)
    (deep before : bool) :
  readable w file t ->
  idErrorsSpec w file id' newContent t deep before.
Proof.
  intros Hr. apply readFile_readable in Hr. split.
  - intros Hv. unfold allFailWith, cmdRead, cmdWrite, cmdEmpty, cmdRemove.
    rewrite Hv. simpl. split; [fails_now|]. split; [fails_now|].
    split; [|split; fails_now].
    unfold cmdAppend. erewrite bind_Return by exact Hr.
    rewrite Hv. simpl. fails_now.
  - intros Hv Hnone. apply findSection_None in Hnone.
    unfold allFailWith, cmdRead, cmdWrite, cmdEmpty, cmdRemove.
    rewrite Hv. simpl.
    rewrite !(bind_Return _ _ w w t) by exact Hr. rewrite Hnone.
    split; [fails_now|]. split; [fails_now|].
    split; [|split; fails_now].
    unfold cmdAppend. erewrite bind_Return by exact Hr.
    rewrite Hv, Hnone. simpl. fails_now.
Qed.

Lemma readFile_world {A} (file : jsstring) (w w' : World) (r : Result A)
    (k : jsstring -> IO A) :
  (forall c, k c w = (r, w') -> w' = w \/ exists a, r = Return a) ->
  (readFile file ≫= k) w = (r, w') -> w' = w \/ exists a, r = Return a.
Proof.
  intros Hk. unfold mbind, io_mbind, io_bind, readFile.
  destruct (files w !! file) as [c|]; [|intros [= <- <-]; by left].
  destruct (decide (file ∈ unreadable w)); [intros [= <- <-]; by left|].
  apply Hk.
Qed.

Lemma endLine_world {A} (r0 : Result nat) (w w' : World) (r : Result A)
    (k : nat -> IO A) :
  (forall e, k e w = (r, w') -> w' = w \/ exists a, r = Return a) ->
  (io_lift r0 ≫= k) w = (r, w') -> w' = w \/ exists a, r = Return a.
Proof.
  intros Hk. unfold mbind, io_mbind, io_bind, io_lift.
  destruct r0 as [e|n]; [intros [= <- <-]; by left|]. apply Hk.
Qed.

Lemma writeFile_world {A} (file c : jsstring) (w w' : World) (r : Result A)
    (a : A) :
  (writeFile file c ≫= fun _ => mret a) w = (r, w') ->
  w' = w \/ exists a, r = Return a.
Proof.
  unfold mbind, io_mbind, io_bind, writeFile, mret, io_mret, io_ret.
  destruct (decide (file ∈ unwritable w)); intros [= <- <-];
    [by left|right; by eexists].
Qed.

(** A command that does not return leaves the world as it was. *)
Lemma cmdWrite_world (file id' nc : jsstring) (deep : bool) (w w' : World)
    (r : Result Mutation.Result) :
  cmdWrite file id' nc deep w = (r, w') -> w' = w \/ exists a, r = Return a.
Proof.
  unfold cmdWrite. destruct (isValidId id'); simpl;
    [|intros [= <- <-]; by left].
  apply readFile_world. intros c.
  destruct (findSection _ _) as [s|]; [|intros [= <- <-]; by left].
  apply endLine_world. intros e. apply writeFile_world.
Qed.

Lemma cmdEmpty_world (file id' : jsstring) (deep : bool) (w w' : World)
    (r : Result Mutation.Result) :
  cmdEmpty file id' deep w = (r, w') -> w' = w \/ exists a, r = Return a.
Proof.
  unfold cmdEmpty. destruct (isValidId id'); simpl;
    [|intros [= <- <-]; by left].
  apply readFile_world. intros c.
  destruct (findSection _ _) as [s|]; [|intros [= <- <-]; by left].
  apply endLine_world. intros e. apply writeFile_world.
Qed.

Lemma cmdRemove_world (file id' : jsstring) (w w' : World)
    (r : Result Mutation.Result) :
  cmdRemove file id' w = (r, w') -> w' = w \/ exists a, r = Return a.
Proof.
  unfold cmdRemove. destruct (isValidId id'); simpl;
    [|intros [= <- <-]; by left].
  apply readFile_world. intros c.
  destruct (findSection _ _) as [s|]; [|intros [= <- <-]; by left].
  apply endLine_world. intros e. apply writeFile_world.
Qed.

Lemma cmdAppend_world (file : jsstring) (id' : option jsstring)
    (nc : jsstring) (deep before : bool) (w w' : World)
    (r : Result Mutation.Result) :
  cmdAppend file id' nc deep before w = (r, w') ->
  w' = w \/ exists a, r = Return a.
Proof.
  unfold cmdAppend. apply readFile_world. intros c.
  unfold mbind at 1. unfold io_mbind, io_bind.
  match goal with
  | |- context [match ?m w with _ => _ end] =>
      assert (exists x, m w = (x, w)) as [x ->]
  end.
  { destruct id' as [i|].
    - destruct (isValidId i); simpl; [|by eexists].
      destruct (findSection _ _) as [s|]; [|by eexists].
      destruct before; [by eexists|].
      unfold mbind, io_mbind, io_bind, io_lift.
      destruct (getSectionEndLine _ _ _); by eexists.
    - destruct before; by eexists. }
  destruct x as [e|[insertLine section]]; [intros [= <- <-]; by left|].
  apply writeFile_world.
Qed.

(** C10. A mutation (write, append with an id, empty, remove) that
    fails with [invalid_id] or [section_not_found] leaves the content of
    the target file unchanged: the error is raised before the serialized
    document is written, and nothing is written. *)
Theorem failed_mutation_is_atomic (w w' : World)
    (file id' newContent : jsstring) (deep before : bool) (e : MdError.t) :
  MdError.code e = invalid_id \/ MdError.code e = section_not_found ->
  atomicSpec w w' file id' newContent deep before e.
Proof.
  intros _. unfold atomicSpec.
  split; [|split; [|split]]; intros H.
  - by destruct (cmdWrite_world _ _ _ _ _ _ _ H) as [|[a ?]].
  - by destruct (cmdAppend_world _ _ _ _ _ _ _ _ H) as [|[a ?]].
  - by destruct (cmdEmpty_world _ _ _ _ _ _ H) as [|[a ?]].
  - by destruct (cmdRemove_world _ _ _ _ _ H) as [|[a ?]].
Qed.

(** ** More properties of the code *)

#[local] Arguments Js.lit : simpl never.

(** *** Lines *)

Lemma split_app_LF (a b : jsstring) :
  Js.split (a ++ Js.LF :: b) = Js.split a ++ Js.split b.
Proof.
  induction a as [|c a IH]; [reflexivity|].
  simpl. rewrite IH. destruct (c =? Js.LF)%N; [reflexivity|].
  pose proof (split_not_nil a) as Hne.
  by destruct (Js.split a).
Qed.

Lemma split_noLF (l : jsstring) : noLF l -> Js.split l = [l].
Proof.
  induction 1 as [|c l Hc _ IH]; [reflexivity|].
  simpl. apply N.eqb_neq in Hc. by rewrite Hc, IH.
Qed.

Lemma split_lines_noLF (s : jsstring) : Forall noLF (Js.split s).
Proof.
  induction s as [|c s IH]; simpl.
  - repeat constructor.
  - destruct (N.eqb_spec c Js.LF) as [->|Hc].
    + constructor; [constructor|done].
    + destruct (Js.split s) as [|l ls]; [repeat constructor; done|].
      inversion IH; subst. constructor; [by constructor|done].
Qed.

Lemma split_join (ls : list jsstring) :
  ls <> [] -> Forall noLF ls -> Js.split (Js.join ls) = ls.
Proof.
  intros Hne Hall. induction Hall as [|l ls Hl Hall IH]; [done|].
  destruct ls as [|l' ls]; [by apply split_noLF|].
  rewrite join_cons_cons, split_app_LF, IH by done.
  by rewrite split_noLF.
Qed.

Lemma parse_lines_noLF (t : jsstring) : Forall noLF (lines (parseDocument t)).
Proof. rewrite parse_lines. apply split_lines_noLF. Qed.

(** *** Identifiers *)

Lemma hexDigit_lower (d : N) : (d < 16)%N -> isLowerHex (hexDigit d) = true.
Proof.
  intros Hd. unfold hexDigit, isLowerHex.
  destruct (N.ltb_spec d 10).
  - apply orb_true_intro. left.
    apply andb_true_intro. split; apply N.leb_le; lia.
  - apply orb_true_intro. right.
    apply andb_true_intro. split; apply N.leb_le; lia.
Qed.

Lemma hexString_lower (bytes : list N) :
  Forall (fun b => (b < 256)%N) bytes ->
  Forall (fun c => isLowerHex c = true) (hexString bytes).
Proof.
  induction 1 as [|b bytes Hb _ IH]; [constructor|].
  unfold hexString. rewrite fmap_cons. cbn [concat].
  apply Forall_app. split; [|exact IH].
  unfold hexByte. repeat constructor; apply hexDigit_lower.
  - apply N.Div0.div_lt_upper_bound. lia.
  - by apply N.mod_lt.
Qed.

(** X1. Every identifier that [sectionHash] makes has 8 characters, each
    a digit or a letter from [a] to [f], and [isValidId] accepts it; so
    the id of every section of every parsed document is well-formed. *)
Theorem sectionHash_wellformed :
  (forall level title occ,
      length (sectionHash level title occ) = 8
      /\ Forall (fun c => isLowerHex c = true) (sectionHash level title occ)
      /\ isValidId (sectionHash level title occ) = true)
  /\ (forall t s, s ∈ sections (parseDocument t) -> isValidId (id s) = true).
Proof.
  split.
  - intros k ti o. split; [|split].
    + unfold sectionHash. cbv zeta.
      rewrite length_take, hexString_length, digest_length. reflexivity.
    + unfold sectionHash. cbv zeta. apply Forall_take.
      apply hexString_lower, digest_bytes.
    + apply sectionHash_valid.
  - intros t s (k & Hs)%list_elem_of_lookup.
    rewrite (parse_id_occurrence t k s Hs). apply sectionHash_valid.
Qed.

(** X2. In a parsed document [findSection] finds, for the id of any of
    its sections, a section with that id that is not after it (the
    section itself unless an earlier one has the same id). *)
Theorem findSection_own_id (t : jsstring) (s : MdSection) :
  s ∈ sections (parseDocument t) -> findsOwnId (parseDocument t) s.
Proof.
  intros Hin. unfold findsOwnId.
  destruct (findSection (parseDocument t) (id s)) as [s'|] eqn:Hf.
  - exists s'. split; [done|].
    apply findSection_Some in Hf as (k & Hk & Hid & Hbefore).
    split; [apply list_elem_of_lookup; eauto|]. split; [done|].
    apply list_elem_of_lookup in Hin as [j Hj].
    destruct (decide (k <= j)) as [Hkj|Hkj].
    + destruct (decide (k = j)) as [->|Hne]; [by simplify_eq|].
      pose proof (parse_lines_ascending t k j s' s Hk Hj). lia.
    + exfalso. apply (Hbefore j s); [lia|done|done].
  - exfalso. rewrite findSection_None in Hf. by apply (Hf s).
Qed.

(** *** The header regular expression *)

Lemma spacesThen_sound (s r : jsstring) :
  spacesThen s = Some r ->
  exists ws, s = ws ++ r /\ ws <> []
             /\ Forall (fun c => Js.isWhiteSpace c = true) ws
             /\ dotPlusEnd r = true.
Proof.
  revert r. induction s as [|c s IH]; intros r; simpl; [done|].
  destruct (Js.isWhiteSpace c) eqn:Hc; [|done].
  destruct (spacesThen s) as [r'|].
  - intros [= <-]. destruct (IH r' eq_refl) as (ws & -> & _ & Hws & Hr).
    exists (c :: ws). split; [done|]. split; [done|].
    split; [by constructor|done].
  - destruct (dotPlusEnd s) eqn:Hd; [|done]. intros [= <-].
    exists [c]. split; [done|]. split; [done|].
    split; [by repeat constructor|done].
Qed.

Lemma hashesThen_sound (n : nat) (s : jsstring) (k : nat) (r : jsstring) :
  hashesThen n s = Some (k, r) ->
  exists ws, s = replicate k Js.HASH ++ ws ++ r /\ ws <> []
             /\ Forall (fun c => Js.isWhiteSpace c = true) ws
             /\ dotPlusEnd r = true.
Proof.
  revert s k r. induction n as [|n IH]; intros s k r; simpl; [done|].
  destruct s as [|c s]; [done|].
  destruct (N.eqb_spec c Js.HASH) as [->|]; [|done].
  destruct (hashesThen n s) as [[k' r']|] eqn:E.
  - intros [= <- <-]. destruct (IH _ _ _ E) as (ws & -> & Hrest).
    by exists ws.
  - destruct (spacesThen s) as [r'|] eqn:Es; [|done]. intros [= <- <-].
    destruct (spacesThen_sound _ _ Es) as (ws & -> & Hrest).
    by exists ws.
Qed.

Lemma dotPlusEnd_true (r : jsstring) :
  dotPlusEnd r = true <->
  r <> [] /\ Forall (fun c => Js.isLineTerminator c = false) r.
Proof.
  destruct r as [|c r]; simpl.
  - split; [done|]. by intros [? _].
  - rewrite andb_true_iff, negb_true_iff. split.
    + intros [Hc Hr]. split; [done|]. constructor; [done|].
      apply Forall_forall. intros x Hx.
      rewrite forallb_forall in Hr. apply negb_true_iff, Hr.
      by apply list_elem_of_In.
    + intros [_ Hall]. inversion Hall as [|? ? Hc Hr]; subst.
      split; [done|]. apply forallb_forall. intros x Hx.
      rewrite Forall_forall in Hr. apply negb_true_iff, Hr.
      by apply list_elem_of_In.
Qed.

Lemma spacesThen_complete (ws m2 : jsstring) (c : N) :
  ws <> [] -> Forall (fun c => Js.isWhiteSpace c = true) ws ->
  head m2 = Some c -> Js.isWhiteSpace c = false ->
  dotPlusEnd m2 = true ->
  spacesThen (ws ++ m2) = Some m2.
Proof.
  intros Hne Hws Hhead Hc Hd.
  assert (spacesThen m2 = None) as Hnone.
  { destruct m2 as [|x m2]; [done|]. simpl in *.
    injection Hhead as ->. by rewrite Hc. }
  induction Hws as [|x ws Hx Hws IH]; [done|].
  simpl. rewrite Hx. destruct ws as [|y ws].
  - simpl. by rewrite Hnone, Hd.
  - by rewrite IH.
Qed.

Lemma hashesThen_complete (n k : nat) (rest r : jsstring) :
  1 <= k <= n -> spacesThen rest = Some r ->
  hashesThen n (replicate k Js.HASH ++ rest) = Some (k, r).
Proof.
  intros Hk Hs. revert k Hk. induction n as [|n IH]; intros k Hk; [lia|].
  destruct k as [|k]; [lia|]. simpl.
  destruct k as [|k].
  - simpl. assert (hashesThen n rest = None) as ->; [|by rewrite Hs].
    destruct n; [done|]. simpl.
    destruct rest as [|c rest]; [done|]. simpl in Hs.
    destruct (N.eqb_spec c Js.HASH) as [->|]; [|done].
    by vm_compute in Hs.
  - by rewrite (IH (S k)) by lia.
Qed.

(** X3. What [HEADER_REGEX] matches: a matching line is 1 to 6 hashes,
    then whitespace, then the second group, which is not empty and has
    no line terminator; and every line made of 1 to 6 hashes, whitespace
    and a text without line terminator that starts with no whitespace
    matches, with the count of the hashes and that text as groups. A
    line that starts with 7 hashes does not match. *)
Theorem matchHeader_shape :
  (forall l k m2,
      matchHeader l = Some (k, m2) ->
      exists ws,
        l = replicate k Js.HASH ++ ws ++ m2 /\ 1 <= k <= 6 /\ ws <> []
        /\ Forall (fun c => Js.isWhiteSpace c = true) ws
        /\ m2 <> []
        /\ Forall (fun c => Js.isLineTerminator c = false) m2)
  /\ (forall k ws m2 c,
        1 <= k <= 6 -> ws <> [] ->
        Forall (fun c => Js.isWhiteSpace c = true) ws ->
        head m2 = Some c -> Js.isWhiteSpace c = false ->
        Forall (fun c => Js.isLineTerminator c = false) m2 ->
        matchHeader (replicate k Js.HASH ++ ws ++ m2) = Some (k, m2))
  /\ (forall l, matchHeader (replicate 7 Js.HASH ++ l) = None).
Proof.
  split; [|split].
  - intros l k m2 Hm. pose proof (matchHeader_level _ _ _ Hm) as Hk.
    destruct (hashesThen_sound _ _ _ _ Hm) as (ws & -> & Hne & Hws & Hd).
    apply dotPlusEnd_true in Hd as [Hm2 Hlt]. by exists ws.
  - intros k ws m2 c Hk Hne Hws Hhead Hc Hlt.
    apply hashesThen_complete; [done|].
    apply (spacesThen_complete ws m2 c); try done.
    apply dotPlusEnd_true. split; [|done]. by destruct m2.
  - intros l. reflexivity.
Qed.

(** *** Frontmatter *)

Lemma findClosing_spec (ls : list jsstring) :
  forall i,
    match findClosing ls i with
    | Some j =>
        exists q, j = i + q /\ trimIs (ls !! q) FRONTMATTER_DELIMITER = true
                  /\ forall q', q' < q ->
                       trimIs (ls !! q') FRONTMATTER_DELIMITER = false
    | None => forall q, trimIs (ls !! q) FRONTMATTER_DELIMITER = false
    end.
Proof.
  induction ls as [|l ls IH]; intros i; simpl.
  - intros q. by destruct q.
  - destruct (Js.eqb (Js.trim l) FRONTMATTER_DELIMITER) eqn:Hl.
    + exists 0. split; [lia|]. split; [done|]. intros; lia.
    + specialize (IH (S i)). destruct (findClosing ls (S i)) as [j|].
      * destruct IH as (q & -> & Hq & Hbefore). exists (S q).
        split; [lia|]. split; [done|].
        intros [|q'] Hq'; [done|]. apply Hbefore. lia.
      * intros [|q]; [done|]. apply IH.
Qed.

Lemma join_two_not_nil (a b : jsstring) (ls : list jsstring) :
  Js.join (a :: b :: ls) <> [].
Proof. rewrite join_cons_cons. by destruct a. Qed.

Lemma parse_frontmatter_fields (t : jsstring) :
  frontmatter (parseDocument t) = (parseFrontmatterBlock (Js.split t)).1.1
  /\ frontmatterEndLine (parseDocument t)
     = (parseFrontmatterBlock (Js.split t)).1.2.
Proof.
  unfold parseDocument.
  by destruct (parseFrontmatterBlock (Js.split t)) as [[fm fe] st].
Qed.

Lemma frontmatterBlock_spec (L : list jsstring) :
  match parseFrontmatterBlock L with
  | (Some fm, fe, st) =>
      exists i, 1 <= i < length L /\ fe = i + 1 /\ st = i + 1
                /\ fm = Js.join (take (i + 1) L)
                /\ isDelimiter L 0 = true /\ isDelimiter L i = true
                /\ forall q, 1 <= q < i -> isDelimiter L q = false
  | (None, fe, st) =>
      fe = 0 /\ st = 0
      /\ (isDelimiter L 0 = false
          \/ forall q, 1 <= q -> isDelimiter L q = false)
  end.
Proof.
  unfold parseFrontmatterBlock, isDelimiter.
  destruct (trimIs (L !! 0) FRONTMATTER_DELIMITER) eqn:H0;
    [|by split; [|split; [|left]]].
  pose proof (findClosing_spec (drop 1 L) 1) as Hc.
  destruct (findClosing (drop 1 L) 1) as [j|].
  - destruct Hc as (q & -> & Hq & Hbefore). exists (1 + q).
    rewrite lookup_drop in Hq.
    split.
    { split; [lia|]. apply trimIs_true in Hq as (l & Hl & _).
      by apply lookup_lt_Some in Hl. }
    split; [done|]. split; [done|]. split; [done|].
    split; [done|]. split; [done|].
    intros q' Hq'. specialize (Hbefore (q' - 1)).
    rewrite lookup_drop in Hbefore.
    replace (1 + (q' - 1)) with q' in Hbefore by lia.
    apply Hbefore. lia.
  - split; [done|]. split; [done|]. right. intros q Hq.
    specialize (Hc (q - 1)). rewrite lookup_drop in Hc.
    by replace (1 + (q - 1)) with q in Hc by lia.
Qed.

Lemma parse_frontmatterSpec (t : jsstring) : frontmatterSpec (parseDocument t).
Proof.
  unfold frontmatterSpec. rewrite parse_lines.
  destruct (parse_frontmatter_fields t) as [-> ->].
  pose proof (frontmatterBlock_spec (Js.split t)) as H.
  destruct (parseFrontmatterBlock (Js.split t)) as [[[fm|] fe] st]; simpl.
  - destruct H as (i & ? & ? & ? & ? & ? & ? & ?). by exists i.
  - by destruct H as (? & ? & ?).
Qed.

Lemma parse_startLine (t : jsstring) :
  startLineOf (Js.split t) = frontmatterEndLine (parseDocument t).
Proof.
  destruct (parse_frontmatter_fields t) as [_ ->]. unfold startLineOf.
  pose proof (frontmatterBlock_spec (Js.split t)) as H.
  destruct (parseFrontmatterBlock (Js.split t)) as [[[fm|] fe] st]; simpl.
  - destruct H as (i & _ & -> & -> & _). done.
  - by destruct H as (-> & -> & _).
Qed.

(** X4. The frontmatter of a parsed document: the block is recognised
    only when the first line and a later line trim to [---]; it then ends
    at the first such later line, its text is these lines joined, and
    [frontmatterEndLine] counts them; else there is no frontmatter and
    [frontmatterEndLine] is 0. No section has its header in the block. *)
Theorem parse_frontmatter_block (t : jsstring) :
  let doc := parseDocument t in
  frontmatterSpec doc
  /\ frontmatterEndLine doc <= length (lines doc)
  /\ (forall s, s ∈ sections doc -> frontmatterEndLine doc < line s).
Proof.
  simpl. split; [apply parse_frontmatterSpec|]. split.
  - pose proof (parse_frontmatterSpec t) as H. unfold frontmatterSpec in H.
    destruct (frontmatter (parseDocument t)).
    + destruct H as (i & ? & -> & _). lia.
    + destruct H as [-> _]. lia.
  - intros s Hs. rewrite <- parse_startLine.
    by destruct (parse_section_header t s Hs) as (l & m2 & ? & _).
Qed.

Lemma removelast_tail_take {A} (n : nat) (L : list A) :
  2 <= n <= length L ->
  removelast (tail (take n L)) = slice 1 (n - 1) L.
Proof.
  intros Hn. unfold slice.
  replace (tail (take n L)) with (drop 1 (take n L)) by by destruct (take n L).
  rewrite skipn_firstn_comm.
  replace (n - 1) with (S (n - 1 - 1)) at 1 by lia.
  apply removelast_firstn. rewrite length_drop. lia.
Qed.

(** X5. The YAML text that [getFrontmatterContent] gives for a parsed
    document is the lines strictly between the two delimiter lines,
    joined; it is empty without frontmatter. *)
Theorem getFrontmatterContent_parsed (t : jsstring) :
  let doc := parseDocument t in
  getFrontmatterContent doc
  = match frontmatter doc with
    | Some _ => Js.join (slice 1 (frontmatterEndLine doc - 1) (lines doc))
    | None => []
    end.
Proof.
  simpl. pose proof (parse_frontmatterSpec t) as H.
  unfold frontmatterSpec, getFrontmatterContent in *.
  destruct (frontmatter (parseDocument t)) as [fm|]; [|done].
  destruct H as (i & Hi & Hfe & -> & _). rewrite Hfe.
  assert (length (take (i + 1) (lines (parseDocument t))) = i + 1) as Hlen
    by (rewrite length_take; lia).
  assert (Js.join (take (i + 1) (lines (parseDocument t))) <> []) as Hne.
  { destruct (take (i + 1) (lines (parseDocument t))) as [|a [|b ls]];
      simpl in Hlen; [lia|lia|]. apply join_two_not_nil. }
  apply eqb_false in Hne. rewrite Hne.
  rewrite split_join.
  - rewrite removelast_tail_take by lia. done.
  - intros E. rewrite E in Hlen. simpl in Hlen. lia.
  - apply Forall_take, parse_lines_noLF.
Qed.

(** *** The frontmatter editor *)

Lemma split_block (y : jsstring) :
  Js.split (Js.lit "---" ++ Js.LF :: y ++ Js.LF :: Js.lit "---")
  = frontmatterLines y.
Proof.
  rewrite split_app_LF, split_app_LF. reflexivity.
Qed.

Lemma join_block (y : jsstring) :
  Js.join (frontmatterLines y)
  = Js.lit "---" ++ Js.LF :: y ++ Js.LF :: Js.lit "---".
Proof.
  rewrite <- (join_split (Js.lit "---" ++ Js.LF :: y ++ Js.LF :: Js.lit "---")).
  by rewrite split_block.
Qed.

Lemma setFrontmatter_spec (doc : Document) (y : jsstring) :
  setFrontmatterSpec doc y (setFrontmatter doc y).
Proof.
  unfold setFrontmatterSpec, setFrontmatter.
  destruct (Js.eqb (Js.trim y) []) eqn:Hy;
    destruct (truthy (frontmatter doc)) eqn:Hfm; cbv beta iota zeta;
    cbn [sections lines frontmatter frontmatterEndLine].
  - split; [done|]. split; [done|]. split; [done|]. done.
  - split; [done|]. split; [done|]. split; [|done].
    intros _ Hne. by apply eqb_true in Hy.
  - split; [done|]. split; [|split; [done|]].
    + intros _. rewrite split_block, join_block. done.
    + intros _ E. apply eqb_false in Hy. done.
  - split; [done|]. split; [done|]. split.
    + intros _ _. rewrite split_block, join_block. done.
    + intros _ E. apply eqb_false in Hy. done.
Qed.

Lemma removelast_snoc {A} (l : list A) (x : A) : removelast (l ++ [x]) = l.
Proof. apply removelast_last. Qed.

Lemma getFrontmatterContent_block (doc : Document) (y : jsstring) :
  frontmatter doc = Some (Js.join (frontmatterLines y)) ->
  getFrontmatterContent doc = y.
Proof.
  intros Hfm. unfold getFrontmatterContent. rewrite Hfm, join_block.
  assert (Js.eqb (Js.lit "---" ++ Js.LF :: y ++ Js.LF :: Js.lit "---") []
          = false) as -> by (by apply eqb_false).
  rewrite split_block. unfold frontmatterLines. cbn [tail].
  by rewrite removelast_snoc, join_split.
Qed.

(** X6. Set, then get: after [setFrontmatter(doc, y)] the YAML text of
    the document is [y] trimmed, whatever the document was; a second
    [setFrontmatter] with the same text changes nothing; and the lines
    are the new block, then the lines that were after the old one. *)
Theorem setFrontmatter_get (doc : Document) (y : jsstring) :
  getFrontmatterContent (setFrontmatter doc y) = Js.trim y
  /\ setFrontmatter (setFrontmatter doc y) y = setFrontmatter doc y
  /\ setFrontmatterSpec doc y (setFrontmatter doc y).
Proof.
  split; [|split; [|apply setFrontmatter_spec]].
  - destruct (setFrontmatter_spec doc y) as (_ & Hold & Hnew & Hsame).
    destruct (Js.eqb (Js.trim y) []) eqn:Hy.
    + apply eqb_true in Hy as Hy'. rewrite Hy'.
      destruct (truthy (frontmatter doc)) eqn:Hfm.
      * destruct (Hold eq_refl) as (_ & _ & Hf).
        unfold getFrontmatterContent. by rewrite Hf.
      * rewrite (Hsame eq_refl Hy'). unfold getFrontmatterContent.
        by destruct (frontmatter doc) as [[|c fm]|].
    + apply eqb_false in Hy as Hy'. apply getFrontmatterContent_block.
      destruct (truthy (frontmatter doc)) eqn:Hfm.
      * by destruct (Hold eq_refl) as (_ & _ & Hf).
      * by destruct (Hnew eq_refl Hy') as (_ & _ & Hf).
  - unfold setFrontmatter.
    destruct (Js.eqb (Js.trim y) []) eqn:Hy;
      destruct (truthy (frontmatter doc)) eqn:Hfm; cbv beta iota zeta;
      cbn [sections lines frontmatter frontmatterEndLine truthy].
    + done.
    + by rewrite Hfm.
    + rewrite split_block, drop_app_length. done.
    + rewrite split_block, drop_app_length. done.
Qed.

Lemma findClosing_app (a : list jsstring) (d : jsstring)
    (r : list jsstring) (i : nat) :
  Forall (fun l => Js.trim l <> FRONTMATTER_DELIMITER) a ->
  Js.trim d = FRONTMATTER_DELIMITER ->
  findClosing (a ++ d :: r) i = Some (i + length a).
Proof.
  intros Ha Hd. revert i. induction Ha as [|l a Hl Ha IH]; intros i; simpl.
  - apply eqb_true in Hd. rewrite Hd. f_equal. lia.
  - apply eqb_false in Hl. rewrite Hl, IH. f_equal. lia.
Qed.

Lemma frontmatterBlock_block (y : jsstring) (rest : list jsstring) :
  Forall (fun l => Js.trim l <> FRONTMATTER_DELIMITER) (Js.split y) ->
  parseFrontmatterBlock (frontmatterLines y ++ rest)
  = (Some (Js.join (frontmatterLines y)), length (frontmatterLines y),
     length (frontmatterLines y)).
Proof.
  intros Hy. unfold parseFrontmatterBlock, frontmatterLines.
  change (trimIs (((Js.lit "---" :: Js.split y ++ [Js.lit "---"]) ++ rest)
                    !! 0) FRONTMATTER_DELIMITER) with true.
  cbv iota.
  change (drop 1 ((Js.lit "---" :: Js.split y ++ [Js.lit "---"]) ++ rest))
    with ((Js.split y ++ [Js.lit "---"]) ++ rest).
  rewrite <- app_assoc. cbn [app].
  rewrite (findClosing_app (Js.split y) (Js.lit "---") rest 1 Hy eq_refl).
  assert (length (Js.lit "---" :: Js.split y ++ [Js.lit "---"])
          = 1 + length (Js.split y) + 1) as Hlen.
  { cbn [length]. rewrite length_app. simpl. lia. }
  rewrite Hlen.
  change (Js.lit "---" :: (Js.split y ++ [Js.lit "---"]) ++ rest)
    with ((Js.lit "---" :: Js.split y ++ [Js.lit "---"]) ++ rest).
  by rewrite take_app_length' by (by rewrite Hlen).
Qed.

Lemma frontmatterLines_noLF (y : jsstring) : Forall noLF (frontmatterLines y).
Proof.
  unfold frontmatterLines. constructor; [by repeat constructor|].
  apply Forall_app. split; [apply split_lines_noLF|].
  by repeat constructor.
Qed.

Lemma reads_back_block (y : jsstring) (rest : list jsstring)
    (ss : list MdSection) :
  Forall (fun l => Js.trim l <> FRONTMATTER_DELIMITER) (Js.split y) ->
  Forall noLF rest ->
  readsBack (mkDocument ss (frontmatterLines y ++ rest)
               (Some (Js.join (frontmatterLines y)))
               (length (frontmatterLines y))).
Proof.
  intros Hy Hrest. unfold readsBack, serializeDocument. cbv zeta.
  cbn [lines frontmatter frontmatterEndLine].
  destruct (parse_frontmatter_fields
              (Js.join (frontmatterLines y ++ rest))) as [-> ->].
  rewrite parse_lines, split_join.
  - by rewrite frontmatterBlock_block.
  - done.
  - apply Forall_app. split; [apply frontmatterLines_noLF|done].
Qed.

(** X7. After [setFrontmatter] on a parsed document, with a YAML text
    that is not blank and has no line that trims to [---], parsing the
    serialized document reads back the frontmatter, its end line and the
    lines that the edited document holds. *)
Theorem setFrontmatter_reads_back (t y : jsstring) :
  blockSafe y -> readsBack (setFrontmatter (parseDocument t) y).
Proof.
  intros [Hne Hsafe].
  destruct (setFrontmatter_spec (parseDocument t) y) as (_ & Hold & Hnew & _).
  apply eqb_false in Hne as Hne'. rewrite Hne' in Hold, Hnew.
  destruct (setFrontmatter (parseDocument t) y) as [ss L fm fe].
  cbn [lines frontmatter frontmatterEndLine] in *.
  destruct (truthy (frontmatter (parseDocument t))).
  - destruct (Hold eq_refl) as (-> & -> & ->).
    apply reads_back_block; [done|].
    apply Forall_drop, parse_lines_noLF.
  - destruct (Hnew eq_refl Hne) as (-> & -> & ->).
    apply reads_back_block; [done|].
    constructor; [constructor|apply parse_lines_noLF].
Qed.

(** *** The section of a line *)

Lemma find_app {A} (p : A -> bool) (l1 l2 : list A) :
  find p (l1 ++ l2)
  = match find p l1 with
    | Some x => Some x
    | None => find p l2
    end.
Proof.
  induction l1 as [|x l1 IH]; [done|]. simpl. by destruct (p x).
Qed.

Lemma find_reverse_spec {A} (p : A -> bool) (l : list A) :
  match find p (reverse l) with
  | Some x =>
      exists k, l !! k = Some x /\ p x = true
                /\ forall m y, k < m -> l !! m = Some y -> p y = false
  | None => forall y, y ∈ l -> p y = false
  end.
Proof.
  induction l as [|x l IH]; simpl.
  - intros y Hy. by apply elem_of_nil in Hy.
  - rewrite reverse_cons, find_app. destruct (find p (reverse l)) as [z|].
    + destruct IH as (k & Hk & Hz & Hafter). exists (S k).
      split; [done|]. split; [done|].
      intros [|m] y Hm Hy; [lia|]. apply (Hafter m); [lia|done].
    + simpl. destruct (p x) eqn:Hx.
      * exists 0. split; [done|]. split; [done|].
        intros [|m] y Hm Hy; [lia|]. apply IH.
        apply list_elem_of_lookup. eauto.
      * intros y [->|Hy]%elem_of_cons; [done|by apply IH].
Qed.

Lemma parse_line_index (t : jsstring) (i j : nat) (a b : MdSection) :
  sections (parseDocument t) !! i = Some a ->
  sections (parseDocument t) !! j = Some b ->
  line a <= line b -> i <= j.
Proof.
  intros Ha Hb Hle. destruct (decide (i <= j)); [done|].
  pose proof (parse_lines_ascending t j i b a Hb Ha). lia.
Qed.

Lemma findSectionAtLine_spec (t : jsstring) (n : nat) :
  sectionOfLine (parseDocument t) n (findSectionAtLine (parseDocument t) n).
Proof.
  unfold sectionOfLine, findSectionAtLine.
  pose proof (find_reverse_spec (fun s => line s <=? n)
                (sections (parseDocument t))) as H.
  destruct (find _ _) as [s|].
  - destruct H as (k & Hk & Hs & Hafter). apply Nat.leb_le in Hs.
    split; [apply list_elem_of_lookup; eauto|]. split; [done|].
    intros x (m & Hm)%list_elem_of_lookup Hx.
    destruct (decide (m <= k)) as [Hmk|Hmk].
    + destruct (decide (m = k)) as [->|]; [by simplify_eq|].
      pose proof (parse_lines_ascending t m k x s Hm Hk). lia.
    + specialize (Hafter m x). apply Nat.leb_le in Hx.
      rewrite Hafter in Hx; [done|lia|done].
  - intros x Hx. specialize (H x Hx). by apply Nat.leb_gt in H.
Qed.

(** X8. [findSectionAtLine] on a parsed document gives the section with
    the last header at or before the line, none before the first header;
    so the header line of a section and every line of its shallow range
    are attributed to this section. *)
Theorem findSectionAtLine_parsed (t : jsstring) :
  let doc := parseDocument t in
  (forall n, sectionOfLine doc n (findSectionAtLine doc n))
  /\ (forall s n, s ∈ sections doc -> line s <= n <= lineEnd s ->
        findSectionAtLine doc n = Some s).
Proof.
  simpl. split; [apply findSectionAtLine_spec|].
  intros s n Hs Hn. pose proof (findSectionAtLine_spec t n) as H.
  unfold sectionOfLine in H.
  destruct (findSectionAtLine (parseDocument t) n) as [s'|].
  - destruct H as (Hs' & Hle & Hmax). f_equal.
    apply list_elem_of_lookup in Hs as [k Hk].
    apply list_elem_of_lookup in Hs' as [j Hj].
    assert (line s <= line s') as Hss.
    { apply Hmax; [apply list_elem_of_lookup; eauto|lia]. }
    pose proof (parse_line_index t k j s s' Hk Hj Hss) as Hkj.
    destruct (decide (k = j)) as [->|Hne]; [by simplify_eq|]. exfalso.
    destruct (sections (parseDocument t) !! (k + 1)) as [x|] eqn:Hx.
    + destruct (parse_lineEnd_next t k s x Hk Hx) as [Hend Hpos].
      assert (line x <= line s').
      { destruct (decide (k + 1 = j)) as [<-|]; [by simplify_eq|].
        pose proof (parse_lines_ascending t (k + 1) j x s' Hx Hj). lia. }
      lia.
    + apply lookup_ge_None in Hx. apply lookup_lt_Some in Hj. lia.
  - exfalso. specialize (H s Hs). lia.
Qed.

(** *** Shallow and deep *)

Lemma shallow_within_deep (t id' : jsstring) (s : MdSection) :
  findSection (parseDocument t) id' = Some s ->
  shallowWithinDeep (parseDocument t) s.
Proof.
  intros Hf.
  destruct (endLine_found t id' s false Hf) as (k & e1 & Hk & He1 & Hb1 & _).
  destruct (endLine_found t id' s true Hf)
    as (k' & e2 & Hk' & He2 & Hb2 & Hlen & Hdeep).
  assert (k' = k) as ->.
  { destruct Hk as (Hs & _ & Hbefore), Hk' as (Hs' & Hid' & Hbefore').
    destruct (decide (k' = k)) as [|Hne]; [done|]. exfalso.
    destruct (decide (k' < k)).
    - apply (Hbefore k' s); [lia|done|done].
    - apply (Hbefore' k s); [lia|done|done]. }
  destruct Hk as (Hs & Hid & Hbefore).
  destruct (endLine_parsed t k s Hs) as (Hsh & Hnext & _).
  rewrite Hsh in He1. injection He1 as <-.
  specialize (Hdeep eq_refl).
  assert (lineEnd s <= e2) as Hle.
  { destruct (sections (parseDocument t) !! (k + 1)) as [x|] eqn:Hx.
    - rewrite Hnext.
      destruct Hdeep as [(j & n & (Hkj & Hn & _) & ->)|(Hnone & Htrim)].
      + assert (line x <= line n); [|lia].
        destruct (decide (k + 1 = j)) as [<-|]; [by simplify_eq|].
        pose proof (parse_lines_ascending t (k + 1) j x n Hx Hn). lia.
      + destruct Htrim as (Hbe & Hblank & _).
        destruct (decide (line x <= e2)) as [|Hgt]; [lia|]. exfalso.
        destruct (parse_section_header t x)
          as (l & m2 & _ & Hl & _ & _ & Hm & _).
        { apply list_elem_of_lookup. eauto. }
        apply matchHeader_not_blank in Hm. apply Hm.
        apply (Hblank (line x - 1)); [lia|]. by rewrite parse_lines.
    - destruct Hdeep as [(j & n & (Hkj & Hn & _) & ->)|(Hnone & Htrim)].
      + apply lookup_ge_None in Hx. apply lookup_lt_Some in Hn. lia.
      + destruct Hnext as (_ & Hblank1 & Hlast1).
        destruct Htrim as (Hbe2 & Hblank2 & Hlast2).
        destruct (decide (lineEnd s <= e2)) as [|Hgt]; [done|]. exfalso.
        destruct Hlast1 as (l & Hl & Hnb); [lia|].
        apply Hnb. apply (Hblank2 (lineEnd s - 1)); [lia|done]. }
  exists (lineEnd s), e2. split; [done|]. split; [done|].
  split; [lia|]. split; [done|].
  unfold slice.
  replace (lineEnd s - line s)
    with ((lineEnd s - line s) `min` (e2 - line s)) by lia.
  rewrite <- take_take. apply prefix_take.
Qed.

(** X9. For the section that a command finds by its id, the shallow end
    line is at most the deep end line, both within the file, and the
    shallow content is the beginning of the deep content. *)
Theorem getSectionEndLine_shallow_le_deep (t id' : jsstring) (s : MdSection) :
  findSection (parseDocument t) id' = Some s ->
  shallowWithinDeep (parseDocument t) s.
Proof. apply shallow_within_deep. Qed.

(** *** Commands that only read *)

Lemma readOnly_ret {A} (a : A) : readOnly (mret a).
Proof. by intros w. Qed.

Lemma readOnly_throw {A} (e : MdError.t) : readOnly (@io_throw A e).
Proof. by intros w. Qed.

Lemma readOnly_lift {A} (r : Result A) : readOnly (io_lift r).
Proof. by intros w. Qed.

Lemma readOnly_readFile (file : jsstring) : readOnly (readFile file).
Proof.
  intros w. unfold readFile. destruct (files w !! file); [|done].
  by destruct (decide (file ∈ unreadable w)).
Qed.

Lemma readOnly_bind {A B} (m : IO A) (k : A -> IO B) :
  readOnly m -> (forall a, readOnly (k a)) -> readOnly (m ≫= k).
Proof.
  intros Hm Hk w. unfold mbind, io_mbind, io_bind.
  specialize (Hm w). destruct (m w) as [[e|a] w']; simpl in *; subst.
  - done.
  - apply Hk.
Qed.

Lemma readOnly_cmdRead (file id' : jsstring) (deep : bool) :
  readOnly (cmdRead file id' deep).
Proof.
  unfold cmdRead. destruct (negb (isValidId id')); [apply readOnly_throw|].
  apply readOnly_bind; [apply readOnly_readFile|]. intros c.
  destruct (findSection _ _); [|apply readOnly_throw].
  apply readOnly_bind; [apply readOnly_lift|]. intros e.
  apply readOnly_bind; [apply readOnly_lift|]. intros x.
  apply readOnly_ret.
Qed.

Lemma readOnly_cmdOutline (file : jsstring) (afterId : option jsstring)
    (last count : bool) :
  readOnly (cmdOutline file afterId last count).
Proof.
  unfold cmdOutline.
  apply readOnly_bind; [apply readOnly_readFile|]. intros c.
  apply readOnly_bind.
  - destruct (truthy afterId); [|apply readOnly_ret].
    destruct (negb (isValidId _)); [apply readOnly_throw|].
    destruct (findSection _ _); [|apply readOnly_throw].
    apply readOnly_bind; [apply readOnly_lift|]. intros e.
    apply readOnly_ret.
  - intros ss. destruct count; [apply readOnly_ret|].
    destruct last; apply readOnly_ret.
Qed.

Lemma readOnly_cmdSearch (file pattern : jsstring) (summary : bool) :
  readOnly (cmdSearch file pattern summary).
Proof.
  unfold cmdSearch.
  apply readOnly_bind; [apply readOnly_readFile|]. intros c.
  destruct (negb summary); apply readOnly_ret.
Qed.

Lemma readOnly_concatFiles (files : list jsstring) (shift : Z) :
  forall i fm outputs, readOnly (concatFiles files i shift fm outputs).
Proof.
  induction files as [|f files IH]; intros i fm outputs; simpl.
  - apply readOnly_ret.
  - apply readOnly_bind; [apply readOnly_readFile|]. intros c. apply IH.
Qed.

Lemma readOnly_cmdConcat (files : list jsstring) (shift : Z) :
  readOnly (cmdConcat files shift).
Proof.
  unfold cmdConcat. apply readOnly_bind; [apply readOnly_concatFiles|].
  intros [fm outputs]. destruct fm as [[|c fm]|]; apply readOnly_ret.
Qed.

(** X10. The commands [read], [outline], [search] and [concat] never
    change the disk, whether they return or throw. *)
Theorem queries_are_read_only :
  (forall file id' deep, readOnly (cmdRead file id' deep))
  /\ (forall file afterId last count,
        readOnly (cmdOutline file afterId last count))
  /\ (forall file pattern summary, readOnly (cmdSearch file pattern summary))
  /\ (forall files shift, readOnly (cmdConcat files shift)).
Proof.
  split; [apply readOnly_cmdRead|]. split; [apply readOnly_cmdOutline|].
  split; [apply readOnly_cmdSearch|apply readOnly_cmdConcat].
Qed.

(** *** Empty *)

Lemma cmdEmpty_run (w : World) (file id' t : jsstring) (deep : bool)
    (s : MdSection) (e : nat) :
  readable w file t -> writable w file -> isValidId id' = true ->
  findSection (parseDocument t) id' = Some s ->
  getSectionEndLine (parseDocument t) s deep = Return e ->
  cmdEmpty file id' deep w =
  (Return (Mutation.mk emptied (id s) (Z.of_nat (line s)) None 0%Z
             (Z.of_nat e - Z.of_nat (line s))%Z),
   written w file
     (Js.join (take (line s) (lines (parseDocument t))
               ++ drop e (lines (parseDocument t))))).
Proof.
  intros Hr Hw Hv Hf He. unfold cmdEmpty. rewrite Hv. simpl.
  rewrite (bind_Return _ _ w w t) by by apply readFile_readable.
  rewrite Hf. unfold io_lift at 1.
  erewrite bind_Return by (rewrite He; reflexivity).
  erewrite bind_Return by (by apply writeFile_writable).
  by rewrite slice_0.
Qed.

(** X11. An empty on a section that is present keeps the header line
    and every line outside the content range, deletes the content (the
    lines after the header through the resolved end line) and puts
    nothing in its place; [linesRemoved] is the number of lines of the
    old content and [linesAdded] is 0. *)
Theorem cmdEmpty_clears_content (w : World) (file id' t : jsstring)
    (deep : bool) (s : MdSection) :
  readable w file t -> writable w file ->
  findSection (parseDocument t) id' = Some s ->
  emptyPost w file id' deep t s.
Proof.
  intros Hr Hw Hf. pose proof (findSection_valid t id' s Hf) as Hv.
  destruct (endLine_found t id' s deep Hf)
    as (k & e & Hfirst & He & Hb1 & Hb2 & _).
  pose proof (cmdEmpty_run w file id' t deep s e Hr Hw Hv Hf He) as Hrun.
  unfold emptyPost. set (doc := parseDocument t) in *.
  eexists e, _. split; [done|]. split; [done|]. split; [done|].
  cbv zeta. split; [exact Hrun|].
  destruct (splice_lookup (lines doc) [] (line s) e) as (H1 & _ & H3);
    [lia|lia|]. cbn [app length] in H1, H3.
  split; [done|]. split.
  { intros m Hm. rewrite <- (H3 m Hm). f_equal. lia. }
  split.
  { rewrite length_app, length_take, length_drop. lia. }
  cbn [Mutation.action Mutation.id Mutation.lineStart Mutation.lineEnd
       Mutation.linesAdded Mutation.linesRemoved].
  repeat split; try done.
  rewrite length_slice by done. lia.
Qed.

(** *** Append *)

(** What [cmdAppend] does once the place of the insertion is resolved. *)
Lemma cmdAppend_run (w : World) (file : jsstring) (id' : option jsstring)
    (newContent t : jsstring) (deep before : bool) (insertLine : nat)
    (section : option MdSection) :
  readable w file t -> writable w file ->
  appendTarget (parseDocument t) id' deep before insertLine section ->
  let doc := parseDocument t in
  let expanded :=
    expandMagic newContent (parseFrontmatter (getFrontmatterContent doc)) in
  let inserted := appendedLines doc expanded before insertLine in
  let newLines :=
    take insertLine (lines doc) ++ inserted ++ drop insertLine (lines doc) in
  exists rid,
    cmdAppend file id' newContent deep before w =
    (Return (Mutation.mk
               match startsWithHeader expanded with
               | Some _ => created
               | None => appended
               end
               rid (Z.of_nat (insertLine + 1))
               match startsWithHeader expanded with
               | Some _ => Some (Z.of_nat (insertLine + length inserted))
               | None => None
               end
               (Z.of_nat (length inserted)) 0%Z),
     written w file (Js.join newLines))
    /\ (startsWithHeader expanded = None ->
          rid = default DASH (id <$> section))
    /\ (forall k headerTitle,
          startsWithHeader expanded = Some (k, headerTitle) ->
          rid = match find (fun s => (line s =? insertLine + 1)
                                     && Js.eqb (title s) headerTitle)
                           (sections (parseDocument (Js.join newLines))) with
                | Some newSection => id newSection
                | None => default DASH (id <$> section)
                end).
Proof.
  intros Hr Hw Ht. cbv zeta. unfold cmdAppend.
  rewrite (bind_Return _ _ w w t) by by apply readFile_readable.
  cbv zeta.
  match goal with
  | |- context [mbind ?k ?m w] =>
      assert (m w = (Return (insertLine, section), w)) as Hm
  end.
  { destruct id' as [i|]; simpl in Ht.
    - destruct Ht as (s & -> & Hf & Hi).
      rewrite (findSection_valid t i s Hf), Hf. simpl.
      destruct before; [by subst|].
      unfold io_lift at 1.
      erewrite bind_Return by (rewrite Hi; reflexivity). done.
    - destruct Ht as [-> ->]. by destruct before. }
  rewrite (bind_Return _ _ w w _ Hm). cbv beta iota zeta.
  erewrite bind_Return by (by apply writeFile_writable).
  unfold serializeDocument, spliceInsert, appendedLines.
  cbn [lines sections frontmatter frontmatterEndLine].
  destruct (startsWithHeader _) as [[k headerTitle]|] eqn:Hh.
  - eexists. split; [reflexivity|]. split; [done|].
    by intros k' h' [= <- <-].
  - eexists. split; [reflexivity|]. split; [done|]. by intros.
Qed.

Lemma appendTarget_bound (t : jsstring) (id' : option jsstring)
    (deep before : bool) (insertLine : nat) (section : option MdSection) :
  appendTarget (parseDocument t) id' deep before insertLine section ->
  insertLine <= length (lines (parseDocument t)).
Proof.
  destruct id' as [i|]; simpl.
  - intros (s & -> & Hf & Hi).
    destruct (endLine_found t i s deep Hf)
      as (k & e & _ & He & Hb1 & Hb2 & _).
    destruct before; [lia|]. rewrite He in Hi. injection Hi as <-. done.
  - intros [_ ->]. destruct before; [|done].
    pose proof (parse_frontmatterSpec t) as Hs. unfold frontmatterSpec in Hs.
    destruct (frontmatter (parseDocument t)).
    + destruct Hs as (i & Hi & -> & _). lia.
    + destruct Hs as [-> _]. lia.
Qed.

Lemma appendable_target (t : jsstring) (id' : option jsstring)
    (deep before : bool) :
  appendable (parseDocument t) id' ->
  exists insertLine section,
    appendTarget (parseDocument t) id' deep before insertLine section.
Proof.
  destruct id' as [i|]; simpl.
  - intros [s Hf].
    destruct (endLine_found t i s deep Hf) as (k & e & _ & He & _).
    destruct before.
    + exists (line s - 1), (Some s), s. done.
    + exists e, (Some s), s. done.
  - intros _. by eexists _, _.
Qed.

(** X12. An append whose target can be resolved writes the file with
    the new lines put in at the insertion point, keeps every old line in
    its order before or after them, removes nothing, and reports the
    first inserted line and the number of inserted lines; it is
    [created] exactly when the content begins with a header line. *)
Theorem cmdAppend_inserts_lines (w : World) (file : jsstring)
    (id' : option jsstring) (newContent t : jsstring) (deep before : bool) :
  readable w file t -> writable w file ->
  appendable (parseDocument t) id' ->
  appendPost w file id' newContent deep before t.
Proof.
  intros Hr Hw Ha.
  destruct (appendable_target t id' deep before Ha) as (n & sec & Ht).
  pose proof (appendTarget_bound t id' deep before n sec Ht) as Hn.
  destruct (cmdAppend_run w file id' newContent t deep before n sec Hr Hw Ht)
    as (rid & Hrun & Hnone & _).
  unfold appendPost. cbv zeta in *.
  set (doc := parseDocument t) in *.
  set (expanded := expandMagic _ _) in *.
  eexists n, sec, _. split; [done|]. split; [done|].
  split; [exact Hrun|].
  set (inserted := appendedLines doc expanded before n).
  destruct (splice_lookup (lines doc) inserted n n) as (H1 & H2 & H3);
    [lia|lia|].
  split; [done|]. split; [done|]. split.
  { intros m Hm.
    replace (m + length inserted) with (n + length inserted + (m - n))
      by lia.
    by apply H3. }
  cbn [Mutation.action Mutation.id Mutation.lineStart Mutation.lineEnd
       Mutation.linesAdded Mutation.linesRemoved].
  repeat split; try done.
  - by rewrite H.
  - by apply Hnone.
Qed.

(** *** Append of a new first section *)

Lemma trimStart_snoc (s : jsstring) (c : N) :
  Js.isWhiteSpace c = false -> exists r, Js.trimStart (s ++ [c]) = r ++ [c].
Proof.
  intros Hc. induction s as [|x s IH]; simpl.
  - rewrite Hc. by exists [].
  - destruct (Js.isWhiteSpace x); [done|]. by exists (x :: s).
Qed.

Lemma trim_hash (l : jsstring) : exists r, Js.trim (Js.HASH :: l) = Js.HASH :: r.
Proof.
  unfold Js.trim, Js.trimEnd.
  change (Js.trimStart (Js.HASH :: l)) with (Js.HASH :: l).
  rewrite reverse_cons.
  destruct (trimStart_snoc (reverse l) Js.HASH) as [r ->]; [done|].
  exists (reverse r). by rewrite reverse_app.
Qed.

Lemma header_not_fence (h : jsstring) (k : nat) (m2 : jsstring) :
  matchHeader h = Some (k, m2) -> isFence h = false.
Proof.
  intros [l ->]%matchHeader_first. unfold isFence.
  destruct (trim_hash l) as [r ->]. reflexivity.
Qed.

Lemma header_not_delimiter (h : jsstring) (k : nat) (m2 : jsstring) :
  matchHeader h = Some (k, m2) ->
  trimIs (Some h) FRONTMATTER_DELIMITER = false.
Proof.
  intros [l ->]%matchHeader_first. unfold trimIs, Js.eqb.
  destruct (trim_hash l) as [r ->]. apply bool_decide_eq_false.
  intros H. vm_compute in H. discriminate H.
Qed.

Lemma isDelimiter_prefix (L L' : list jsstring) (q n : nat) :
  q < n -> take n L' = take n L -> isDelimiter L' q = isDelimiter L q.
Proof.
  intros Hq Ht. unfold isDelimiter.
  by rewrite <- (lookup_take_lt L' n q), <- (lookup_take_lt L n q), Ht.
Qed.

Lemma frontmatterBlock_complete (L : list jsstring) (i : nat) :
  1 <= i < length L ->
  isDelimiter L 0 = true -> isDelimiter L i = true ->
  (forall q, 1 <= q < i -> isDelimiter L q = false) ->
  parseFrontmatterBlock L = (Some (Js.join (take (i + 1) L)), i + 1, i + 1).
Proof.
  intros Hi H0 Hd Hmin. pose proof (frontmatterBlock_spec L) as Hs.
  destruct (parseFrontmatterBlock L) as [[[fm|] fe] st].
  - destruct Hs as (i' & Hi' & -> & -> & -> & _ & Hd' & Hmin').
    destruct (decide (i = i')) as [->|Hne]; [done|].
    destruct (decide (i < i')).
    + rewrite Hmin' in Hd by lia. done.
    + rewrite Hmin in Hd' by lia. done.
  - destruct Hs as (_ & _ & [H|H]).
    + by rewrite H in H0.
    + rewrite H in Hd by lia. done.
Qed.

(** New lines put in right after the frontmatter leave the frontmatter
    block where it is, when the first of them is no delimiter line. *)
Lemma frontmatterBlock_insert (t : jsstring) (h : jsstring)
    (rest : list jsstring) :
  trimIs (Some h) FRONTMATTER_DELIMITER = false ->
  let doc := parseDocument t in
  let fe := frontmatterEndLine doc in
  let L' := take fe (lines doc) ++ (h :: rest) ++ drop fe (lines doc) in
  (parseFrontmatterBlock L').1.2 = fe /\ (parseFrontmatterBlock L').2 = fe.
Proof.
  intros Hh. cbv zeta. pose proof (parse_frontmatterSpec t) as Hs.
  unfold frontmatterSpec in Hs. set (doc := parseDocument t) in *.
  destruct (frontmatter doc) as [fm|].
  - destruct Hs as (i & Hi & -> & _ & H0 & Hd & Hmin).
    set (L' := take (i + 1) (lines doc) ++ _).
    assert (take (i + 1) L' = take (i + 1) (lines doc)) as Ht.
    { unfold L'. rewrite take_app_length'; [done|].
      rewrite length_take. lia. }
    rewrite (frontmatterBlock_complete L' i); [done| | | |].
    + unfold L'. rewrite !length_app, length_take. simpl. lia.
    + by rewrite (isDelimiter_prefix (lines doc) L' 0 (i + 1)) by (lia || done).
    + by rewrite (isDelimiter_prefix (lines doc) L' i (i + 1)) by (lia || done).
    + intros q Hq.
      rewrite (isDelimiter_prefix (lines doc) L' q (i + 1)) by (lia || done).
      by apply Hmin.
  - destruct Hs as [-> _]. rewrite take_0, drop_0. cbn [app].
    unfold parseFrontmatterBlock. cbn [lookup list_lookup].
    by rewrite Hh.
Qed.

Lemma prepend_header_first (t h : jsstring) (rest : list jsstring)
    (k : nat) (m2 : jsstring) :
  matchHeader h = Some (k, m2) -> Forall noLF (h :: rest) ->
  let doc := parseDocument t in
  let fe := frontmatterEndLine doc in
  let L' := take fe (lines doc) ++ (h :: rest) ++ drop fe (lines doc) in
  frontmatterEndLine (parseDocument (Js.join L')) = fe
  /\ exists e tl,
       sections (parseDocument (Js.join L'))
       = mkSection (sectionHash k (Js.trim m2) 0) k (Js.trim m2) (fe + 1) e
         :: tl.
Proof.
  intros Hm Hnolf. cbv zeta.
  destruct (frontmatterBlock_insert t h rest
              (header_not_delimiter h k m2 Hm)) as [Hfe Hst].
  cbv zeta in Hfe, Hst. set (doc := parseDocument t) in *.
  set (fe := frontmatterEndLine doc) in *.
  set (L' := take fe (lines doc) ++ _) in *.
  assert (fe <= length (lines doc)) as Hle.
  { pose proof (parse_frontmatterSpec t) as Hs. unfold frontmatterSpec in Hs.
    fold doc in Hs. fold fe in Hs. destruct (frontmatter doc).
    - destruct Hs as (i & Hi & -> & _). lia.
    - destruct Hs as [-> _]. lia. }
  assert (Js.split (Js.join L') = L') as Hsplit.
  { apply split_join.
    - unfold L'. intros H. apply app_eq_nil in H as [_ H]. done.
    - unfold L'. pose proof (parse_lines_noLF t) as HL. fold doc in HL.
      apply Forall_app. split; [by apply Forall_take|].
      apply Forall_app. split; [done|by apply Forall_drop]. }
  split.
  { rewrite <- parse_startLine, Hsplit. exact Hst. }
  rewrite parse_sections. unfold rawSections. rewrite Hsplit.
  unfold startLineOf. rewrite Hst.
  assert (drop fe L' = h :: rest ++ drop fe (lines doc)) as ->.
  { unfold L'. rewrite drop_app_length'; [done|]. rewrite length_take. lia. }
  cbn [scanSections].
  rewrite (header_not_fence h k m2 Hm), Hm. cbv zeta.
  rewrite lookup_empty. cbn [fixLineEnds]. by eexists _, _.
Qed.

(** X13. An append before everything (no id, [before]) of content that
    begins with a header puts the content right after the frontmatter,
    makes that header the first section of the new file, and returns its
    id, the hash of its level and title with occurrence 0. *)
Theorem cmdAppend_prepends_header (w : World) (file newContent t : jsstring)
    (deep : bool) (k : nat) (headerTitle : jsstring) :
  readable w file t -> writable w file ->
  startsWithHeader
    (expandMagic newContent
       (parseFrontmatter (getFrontmatterContent (parseDocument t))))
  = Some (k, headerTitle) ->
  prependPost w file newContent deep t k headerTitle.
Proof.
  intros Hr Hw Hh. unfold prependPost. cbv zeta.
  set (doc := parseDocument t) in *. set (expanded := expandMagic _ _) in *.
  set (fe := frontmatterEndLine doc).
  assert (appendTarget doc None deep true fe None) as Ht by done.
  destruct (cmdAppend_run w file None newContent t deep true fe None
              Hr Hw Ht) as (rid & Hrun & _ & Hsome).
  cbv zeta in Hrun, Hsome. fold doc in Hrun, Hsome.
  fold expanded in Hrun, Hsome. specialize (Hsome k headerTitle Hh).
  rewrite Hh in Hrun.
  unfold appendedLines in Hrun, Hsome.
  cbn [negb andb unshiftBlankIf] in Hrun, Hsome.
  unfold startsWithHeader in Hh.
  destruct (Js.split expanded) as [|h rest] eqn:Hsp; [done|].
  cbn [lookup list_lookup] in Hh.
  destruct (matchHeader h) as [[k' m2]|] eqn:Hm; [|done].
  injection Hh as -> <-.
  assert (Forall noLF (h :: rest)) as Hnolf.
  { rewrite <- Hsp. apply split_lines_noLF. }
  destruct (prepend_header_first t h rest k m2 Hm Hnolf)
    as (Hfe & e & tl & Hsec).
  cbv zeta in Hfe, Hsec. fold doc in Hfe, Hsec. fold fe in Hfe, Hsec.
  rewrite Hsec in Hsome. cbn [find line title] in Hsome.
  rewrite Nat.eqb_refl in Hsome. unfold Js.eqb in Hsome.
  rewrite bool_decide_eq_true_2 in Hsome by done.
  cbn [andb id] in Hsome. subst rid.
  eexists _, _, tl. split; [exact Hrun|]. split; [exact Hsec|].
  cbn [id level title line Mutation.action Mutation.id Mutation.lineStart
       Mutation.lineEnd].
  repeat split; done.
Qed.

(** *** Append of plain text at the end *)

Lemma scan_plain (total : nat) (E : list jsstring) :
  Forall plainLine E ->
  forall i b occ, scanSections total E i b occ = [].
Proof.
  induction 1 as [|l E (Hf & Hm & _) _ IH]; intros i b occ; [done|].
  cbn [scanSections]. rewrite Hf, Hm. by destruct b.
Qed.

Lemma scan_app_plain (total total' : nat) (E ls : list jsstring) :
  Forall plainLine E ->
  forall i b occ,
    headerOf <$> scanSections total' (ls ++ E) i b occ
    = headerOf <$> scanSections total ls i b occ.
Proof.
  intros HE. induction ls as [|l ls IH]; intros i b occ.
  - cbn [app scanSections]. by rewrite scan_plain.
  - cbn [app scanSections]. destruct (isFence l); [apply IH|].
    destruct b; [apply IH|].
    destruct (matchHeader l) as [[k m2]|]; [|apply IH].
    cbv zeta. rewrite !fmap_cons. f_equal. apply IH.
Qed.

Lemma fixLineEnds_headerOf (L : list jsstring) (ss : list MdSection) :
  headerOf <$> fixLineEnds L ss = headerOf <$> ss.
Proof.
  induction ss as [|s ss IH]; [done|].
  cbn [fixLineEnds]. cbv zeta. rewrite !fmap_cons. by rewrite IH.
Qed.

Lemma findClosing_plain (E : list jsstring) :
  Forall (fun l => Js.trim l <> FRONTMATTER_DELIMITER) E ->
  forall i, findClosing E i = None.
Proof.
  induction 1 as [|l E Hl _ IH]; intros i; [done|].
  cbn [findClosing trimIs]. apply eqb_false in Hl. by rewrite Hl.
Qed.

Lemma findClosing_app_plain (a E : list jsstring) :
  Forall (fun l => Js.trim l <> FRONTMATTER_DELIMITER) E ->
  forall i, findClosing (a ++ E) i = findClosing a i.
Proof.
  intros HE. induction a as [|l a IH]; intros i.
  - cbn [app findClosing]. by apply findClosing_plain.
  - cbn [app findClosing]. destruct (trimIs _ _); [done|apply IH].
Qed.

Lemma frontmatterBlock_app_plain (L E : list jsstring) :
  L <> [] ->
  Forall (fun l => Js.trim l <> FRONTMATTER_DELIMITER) E ->
  parseFrontmatterBlock (L ++ E) = parseFrontmatterBlock L.
Proof.
  intros HL HE. destruct L as [|l0 L]; [done|].
  unfold parseFrontmatterBlock.
  change (((l0 :: L) ++ E) !! 0) with (Some l0).
  change ((l0 :: L) !! 0) with (Some l0).
  destruct (trimIs (Some l0) _); [|done].
  change (drop 1 ((l0 :: L) ++ E)) with (L ++ E).
  change (drop 1 (l0 :: L)) with L.
  rewrite findClosing_app_plain by done.
  pose proof (findClosing_spec L 1) as Hs.
  destruct (findClosing L 1) as [i|]; [|done].
  destruct Hs as (q & -> & Hq & _).
  assert (q < length L) as Hlt.
  { destruct (L !! q) eqn:Hlq; [|done]. by apply lookup_lt_Some in Hlq. }
  rewrite take_app_le; [done|]. simpl. lia.
Qed.

Lemma plain_blank : plainLine [].
Proof. split; [done|]. split; [done|]. by vm_compute. Qed.

(** X14. An append at the end of the file (no id, not [before]) of
    content whose lines are plain (no fence, no header, no frontmatter
    delimiter) is an [appended] mutation that keeps the old lines as a
    prefix and leaves the frontmatter and every section's id, level,
    title and line as they were. *)
Theorem cmdAppend_text_keeps_sections (w : World)
    (file newContent t : jsstring) (deep : bool) :
  readable w file t -> writable w file ->
  Forall plainLine
    (Js.split (expandMagic newContent
                 (parseFrontmatter (getFrontmatterContent (parseDocument t)))))
  -> appendTextPost w file newContent deep t.
Proof.
  intros Hr Hw Hp. unfold appendTextPost.
  set (doc := parseDocument t) in *. set (expanded := expandMagic _ _) in *.
  assert (appendTarget doc None deep false (length (lines doc)) None)
    as Ht by done.
  destruct (cmdAppend_run w file None newContent t deep false
              (length (lines doc)) None Hr Hw Ht)
    as (rid & Hrun & Hnone & _).
  cbv zeta in Hrun, Hnone. fold doc in Hrun, Hnone.
  fold expanded in Hrun, Hnone.
  assert (startsWithHeader expanded = None) as Hh.
  { unfold startsWithHeader. destruct (Js.split expanded) as [|h rest]; [done|].
    cbn [lookup list_lookup]. apply Forall_cons in Hp as [(_ & -> & _) _].
    done. }
  rewrite Hh in Hrun. rewrite (Hnone Hh) in Hrun. clear Hnone.
  set (ins := appendedLines doc expanded false (length (lines doc))) in *.
  assert (Forall plainLine ins) as Hins.
  { unfold ins, appendedLines, unshiftBlankIf.
    destruct (_ && _); [|done]. apply Forall_cons. split; [|done].
    apply plain_blank. }
  assert (Forall noLF ins) as Hnolf.
  { unfold ins, appendedLines, unshiftBlankIf.
    destruct (_ && _); [|apply split_lines_noLF].
    apply Forall_cons. split; [by apply Forall_nil|apply split_lines_noLF]. }
  rewrite take_ge, drop_ge, app_nil_r in Hrun by done.
  pose proof (parse_lines t) as HL. fold doc in HL.
  assert (Js.split (Js.join (lines doc ++ ins)) = lines doc ++ ins) as Hsplit.
  { apply split_join.
    - intros H. apply app_eq_nil in H as [H _]. rewrite HL in H.
      by apply split_not_nil in H.
    - apply Forall_app. split; [|done]. apply parse_lines_noLF. }
  assert (parseFrontmatterBlock (lines doc ++ ins)
          = parseFrontmatterBlock (lines doc)) as Hfm.
  { apply frontmatterBlock_app_plain.
    - rewrite HL. apply split_not_nil.
    - eapply Forall_impl; [exact Hins|]. by intros l (_ & _ & H). }
  eexists _, _. split; [exact Hrun|].
  cbn [Mutation.action Mutation.id]. split; [done|]. split; [done|].
  split.
  { rewrite parse_lines, Hsplit. by rewrite take_app_length. }
  destruct (parse_frontmatter_fields (Js.join (lines doc ++ ins)))
    as [-> ->].
  destruct (parse_frontmatter_fields t) as [H1 H2]. fold doc in H1, H2.
  rewrite Hsplit, Hfm, H1, H2, <- HL. split; [|done].
  pose proof (parse_sections t) as HS. fold doc in HS.
  rewrite parse_sections, HS. unfold rawSections, startLineOf.
  rewrite Hsplit, Hfm, <- HL. rewrite !fixLineEnds_headerOf.
  assert ((parseFrontmatterBlock (lines doc)).2 <= length (lines doc)) as Hle.
  { pose proof (parse_startLine t) as Hst. unfold startLineOf in Hst.
    rewrite <- HL in Hst. rewrite Hst.
    apply (appendTarget_bound t None deep true _ None). done. }
  rewrite drop_app_le by done. apply scan_app_plain. done.
Qed.

(** *** Outline *)

Lemma filter_none {A} (p : A -> bool) (xs : list A) :
  (forall m x, xs !! m = Some x -> p x = false) -> List.filter p xs = [].
Proof.
  induction xs as [|x xs IH]; intros H; [done|].
  cbn [List.filter]. rewrite (H 0 x) by done.
  apply IH. intros m y Hy. by apply (H (S m)).
Qed.

Lemma filter_prefixWhile {A} (p q : A -> bool) (xs : list A) :
  (forall m x, xs !! m = Some x ->
     (forall m' x', m' <= m -> xs !! m' = Some x' -> q x' = true) ->
     p x = true) ->
  (forall m x m' x', xs !! m = Some x -> m' <= m -> xs !! m' = Some x' ->
     q x' = false -> p x = false) ->
  List.filter p xs = prefixWhile q xs.
Proof.
  induction xs as [|x xs IH]; intros Hin Hout; [done|].
  cbn [List.filter prefixWhile]. destruct (q x) eqn:Hq.
  - assert (p x = true) as ->.
    { apply (Hin 0 x); [done|]. intros [|m'] x' Hm' Hx'; [|lia].
      by injection Hx' as <-. }
    f_equal. apply IH.
    + intros m y Hy Hpre. apply (Hin (S m) y Hy).
      intros [|m'] x' Hm' Hx'; [by injection Hx' as <-|].
      apply (Hpre m' x'); [lia|done].
    + intros m y m' x' Hy Hm' Hx'. apply (Hout (S m) y (S m') x'); [done|lia|done].
  - assert (p x = false) as -> by (by apply (Hout 0 x 0 x)).
    apply filter_none. intros m y Hy.
    apply (Hout (S m) y 0 x); [done|lia|done|done].
Qed.

Lemma valid_id_truthy (i : jsstring) : isValidId i = true -> truthy (Some i) = true.
Proof. by destruct i. Qed.

Lemma outline_filter (t id' : jsstring) (k e : nat) (s : MdSection) :
  firstWithId (sections (parseDocument t)) id' k s ->
  findSection (parseDocument t) id' = Some s ->
  getSectionEndLine (parseDocument t) s true = Return e ->
  List.filter (fun x => (line s <? line x) && (line x <=? e)
                        && (level s <? level x))
              (sections (parseDocument t))
  = descendants (sections (parseDocument t)) k s.
Proof.
  intros (Hk & Hid & Hfirst) Hf He.
  destruct (endLine_found t id' s true Hf)
    as (k' & e' & (Hk' & _ & Hfirst') & He' & Hb1 & Hb2 & Hdeep).
  rewrite He in He'. injection He' as <-.
  assert (k' = k) as ->.
  { destruct (Nat.lt_trichotomy k' k) as [Hlt|[->|Hlt]]; [|done|].
    - by destruct (Hfirst k' s Hlt Hk').
    - by destruct (Hfirst' k s Hlt Hk). }
  specialize (Hdeep eq_refl). set (ss := sections (parseDocument t)) in *.
  unfold descendants. rewrite <- (take_drop (S k) ss) at 1.
  rewrite List.filter_app.
  rewrite (filter_none _ (take (S k) ss)).
  2:{ intros m x Hx. apply lookup_take_Some in Hx as [Hx Hm].
      assert (line x <= line s) as Hle.
      { destruct (decide (m = k)) as [->|Hne].
        - rewrite Hk in Hx. by injection Hx as <-.
        - assert (line x < line s); [|lia].
          apply (parse_lines_ascending t m k x s Hx Hk). lia. }
      apply Nat.ltb_ge in Hle. by rewrite Hle. }
  cbn [app]. apply filter_prefixWhile.
  - intros m x Hx Hpre. rewrite lookup_drop in Hx.
    assert (line s < line x) as Hlt.
    { apply (parse_lines_ascending t k (S k + m) s x Hk Hx). lia. }
    assert (level s < level x) as Hlv.
    { apply Nat.ltb_lt. apply (Hpre m x); [done|]. by rewrite lookup_drop. }
    assert (line x <= e) as Hle.
    { destruct Hdeep as [(j & n & (Hj & Hn & Hlvn & Hmin) & ->)|[Hnone Htr]].
      - assert (S k + m < j) as Hjm.
        { destruct (decide (S k + m < j)); [done|].
          assert (level s < level n); [|lia].
          apply Nat.ltb_lt. apply (Hpre (j - S k) n); [lia|].
          rewrite lookup_drop. by replace (S k + (j - S k)) with j by lia. }
        pose proof (parse_lines_ascending t _ _ x n Hx Hn Hjm). lia.
      - destruct Htr as (_ & Hblank & _).
        destruct (parse_section_header t x) as (l & m2 & _ & Hl & _ & _ & Hm & _).
        { apply list_elem_of_lookup. eauto. }
        destruct (decide (line x <= e)); [done|].
        rewrite <- parse_lines in Hl.
        destruct (matchHeader_not_blank l _ _ Hm).
        apply (Hblank (line x - 1) l); [lia|done]. }
    apply Nat.ltb_lt in Hlv as ->. apply Nat.leb_le in Hle as ->.
    assert (line s < line x) as Hl by lia. by apply Nat.ltb_lt in Hl as ->.
  - intros m x m' x' Hx Hm' Hx' Hq. rewrite lookup_drop in Hx, Hx'.
    apply Nat.ltb_ge in Hq.
    destruct Hdeep as [(j & n & (Hj & Hn & Hlvn & Hmin) & ->)|[Hnone Htr]].
    + assert (j <= S k + m') as Hjm.
      { destruct (decide (j <= S k + m')); [done|].
        assert (level s < level x'); [|lia].
        apply (Hmin (S k + m')); [lia|done]. }
      assert (line n <= line x) as Hle.
      { destruct (decide (j = S k + m)) as [->|Hne].
        - rewrite Hn in Hx. by injection Hx as <-.
        - assert (line n < line x); [|lia].
          apply (parse_lines_ascending t j (S k + m) n x Hn Hx). lia. }
      assert ((line x <=? line n - 1) = false) as ->.
      { apply Nat.leb_gt.
        pose proof (parse_section_line_bounds t j n Hn). lia. }
      by rewrite andb_false_r.
    + assert (level s < level x'); [|lia].
      apply (Hnone (S k + m')); [lia|done].
Qed.

(** X15. [outline --after id], for an id that is found, lists exactly
    the descendants of the section: the sections that follow it in the
    file up to the first one whose level is at most its own; [--last]
    gives the last of them and [--count] their number. *)
Theorem cmdOutline_after_descendants (w : World) (file id' t : jsstring)
    (s : MdSection) :
  readable w file t ->
  findSection (parseDocument t) id' = Some s ->
  exists k,
    firstWithId (sections (parseDocument t)) id' k s
    /\ outlinePost w file id' t k s.
Proof.
  intros Hr Hf.
  destruct (endLine_found t id' s true Hf) as (k & e & Hfirst & He & _).
  exists k. split; [done|].
  pose proof (outline_filter t id' k e s Hfirst Hf He) as Hflt.
  pose proof (findSection_valid t id' s Hf) as Hv.
  assert (forall last count,
    cmdOutline file (Some id') last count w
    = ((if count
        then mret (OutlineCount
                     (length (descendants (sections (parseDocument t)) k s)))
        else if last
        then mret (OutlineLast
                     (list.last (descendants (sections (parseDocument t)) k s)))
        else mret (OutlineList
                     (descendants (sections (parseDocument t)) k s)))
       : IO Outline) w) as Hrun.
  { intros last count. unfold cmdOutline.
    rewrite (bind_Return _ _ w w t) by by apply readFile_readable.
    cbv zeta. rewrite (valid_id_truthy id' Hv).
    change (default [] (Some id')) with id'.
    rewrite Hv. cbn [negb]. rewrite Hf.
    erewrite bind_Return; [reflexivity|].
    unfold io_lift at 1.
    erewrite bind_Return by (rewrite He; reflexivity).
    by rewrite Hflt. }
  unfold outlinePost. cbv zeta. split; [apply (Hrun false false)|].
  split; [apply (Hrun true false)|]. intros last. apply (Hrun last true).
Qed.

(** *** Concat and the header shift *)

Lemma spacesThen_stops (s r : jsstring) :
  spacesThen s = Some r -> spacesThen r = None /\ dotPlusEnd r = true.
Proof.
  revert r. induction s as [|c s IH]; intros r; [done|].
  cbn [spacesThen]. destruct (Js.isWhiteSpace c); [|done].
  destruct (spacesThen s) as [r'|] eqn:Hs.
  - intros [= <-]. by apply IH.
  - destruct (dotPlusEnd s) eqn:Hd; [|done]. by intros [= <-].
Qed.

Lemma hashesThen_group (n : nat) (s : jsstring) (k : nat) (r : jsstring) :
  hashesThen n s = Some (k, r) -> spacesThen (Js.SPACE :: r) = Some r.
Proof.
  revert s k. induction n as [|n IH]; intros s k; [done|].
  cbn [hashesThen]. destruct s as [|c s]; [done|].
  destruct (c =? Js.HASH)%N; [|done].
  destruct (hashesThen n s) as [[k' r']|] eqn:Hh.
  - intros [= <- <-]. by apply (IH s k').
  - destruct (spacesThen s) as [r'|] eqn:Hs; [|done]. intros [= <- <-].
    destruct (spacesThen_stops s r' Hs) as [Hn Hd].
    cbn [spacesThen]. change (Js.isWhiteSpace Js.SPACE) with true.
    cbv iota. by rewrite Hn, Hd.
Qed.

Lemma shiftLine_match (shift : Z) (l : jsstring) (k : nat) (m2 : jsstring) :
  (0 < shift)%Z -> matchHeader l = Some (k, m2) ->
  shiftLine shift l
  = replicate (shiftedLevel shift k) Js.HASH ++ Js.SPACE :: m2
  /\ matchHeader (shiftLine shift l) = Some (shiftedLevel shift k, m2).
Proof.
  intros Hs Hm. pose proof (matchHeader_level l k m2 Hm) as Hk.
  assert (shiftLine shift l
          = replicate (shiftedLevel shift k) Js.HASH ++ Js.SPACE :: m2) as ->.
  { unfold shiftLine. rewrite Hm. cbv zeta. f_equal. f_equal.
    unfold shiftedLevel. lia. }
  split; [done|]. unfold matchHeader. apply hashesThen_complete.
  - unfold shiftedLevel. lia.
  - by apply (hashesThen_group 6 l k).
Qed.

(** X16. The header shift of [concat], for a positive shift: a header
    line becomes a header line with the same second group (so the same
    title) and the level raised by the shift, at most to 6; a line that
    is no header is kept; two shifts in a row are the shift by the sum. *)
Theorem shiftLine_header :
  (forall shift l k m2,
      (0 < shift)%Z -> matchHeader l = Some (k, m2) ->
      matchHeader (shiftLine shift l) = Some (shiftedLevel shift k, m2)
      /\ (k < shiftedLevel shift k \/ shiftedLevel shift k = 6))
  /\ (forall shift l, matchHeader l = None -> shiftLine shift l = l)
  /\ (forall a b l,
        (0 < a)%Z -> (0 < b)%Z ->
        shiftLine a (shiftLine b l) = shiftLine (a + b) l).
Proof.
  split; [|split].
  - intros shift l k m2 Hs Hm.
    destruct (shiftLine_match shift l k m2 Hs Hm) as [_ H].
    pose proof (matchHeader_level l k m2 Hm).
    split; [done|]. unfold shiftedLevel. lia.
  - intros shift l Hm. unfold shiftLine. by rewrite Hm.
  - intros a b l Ha Hb. destruct (matchHeader l) as [[k m2]|] eqn:Hm.
    + destruct (shiftLine_match b l k m2 Hb Hm) as [_ Hm'].
      destruct (shiftLine_match a _ _ m2 Ha Hm') as [-> _].
      destruct (shiftLine_match (a + b) l k m2) as [-> _]; [lia|done|].
      f_equal. f_equal. unfold shiftedLevel. lia.
    + unfold shiftLine. rewrite Hm. by rewrite Hm.
Qed.

Lemma concatFiles_run (w : World) (shift : Z) (files texts : list jsstring) :
  Forall2 (readable w) files texts ->
  forall i fm outputs,
    1 <= i ->
    concatFiles files i shift fm outputs w
    = (Return (fm, outputs ++ (concatBody shift <$> texts)), w).
Proof.
  induction 1 as [|f t files texts Hr _ IH]; intros i fm outputs Hi.
  - cbn [concatFiles fmap list_fmap]. by rewrite app_nil_r.
  - cbn [concatFiles].
    rewrite (bind_Return _ _ w w t) by by apply readFile_readable.
    cbv zeta. destruct i as [|i]; [lia|]. cbn [Nat.eqb andb].
    rewrite IH by lia. rewrite fmap_cons, <- app_assoc. done.
Qed.

Lemma cmdConcat_run (w : World) (shift : Z) (files texts : list jsstring) :
  Forall2 (readable w) files texts ->
  cmdConcat files shift w = (Return (concatSpec shift texts), w).
Proof.
  intros H. unfold cmdConcat, concatSpec. destruct H as [|f t files texts Hr H].
  - done.
  - erewrite bind_Return.
    2:{ cbn [concatFiles].
        rewrite (bind_Return _ _ w w t) by by apply readFile_readable.
        cbv zeta. cbn [Nat.eqb andb].
        rewrite (concatFiles_run w shift files texts H) by lia.
        reflexivity. }
    cbn [app]. rewrite fmap_cons. fold (concatBody shift t).
    destruct (frontmatter (parseDocument t)) as [[|c fm]|]; done.
Qed.

Lemma concatBody_plain (shift : Z) (t : jsstring) :
  (shift <= 0)%Z -> frontmatter (parseDocument t) = None ->
  concatBody shift t = t.
Proof.
  intros Hs Hf. unfold concatBody. cbv zeta.
  pose proof (parse_frontmatterSpec t) as Hspec. unfold frontmatterSpec in Hspec.
  rewrite Hf in Hspec. destruct Hspec as [-> _].
  assert ((0 <? shift)%Z = false) as -> by lia.
  rewrite drop_0, parse_lines. apply join_split.
Qed.

(** X17. [concat] of files that can all be read returns the bodies of
    the files (their lines after the frontmatter) in the order of the
    files, with an empty line between two files, after the frontmatter
    of the first file only; without a positive shift, files without
    frontmatter give their texts with an empty line between them, and
    one such file gives its text back. *)
Theorem cmdConcat_bodies (w : World) (shift : Z)
    (files texts : list jsstring) :
  Forall2 (readable w) files texts -> concatPost w shift files texts.
Proof.
  intros H. unfold concatPost.
  split; [by apply cmdConcat_run|]. intros Hs Hnone.
  assert (concatBody shift <$> texts = texts) as Hb.
  { clear H. induction Hnone as [|t texts Ht _ IH]; [done|].
    by rewrite fmap_cons, IH, concatBody_plain. }
  assert (concatSpec shift texts = Js.joinWith BLANK_LINE texts) as Heq.
  { unfold concatSpec. cbv zeta. rewrite Hb.
    destruct Hnone as [|t texts Ht _]; [done|]. by rewrite Ht. }
  split; [done|]. intros t ->. by rewrite Heq.
Qed.

Lemma shift_trimIs (shift : Z) (l : jsstring) :
  (0 < shift)%Z ->
  trimIs (Some (shiftLine shift l)) FRONTMATTER_DELIMITER
  = trimIs (Some l) FRONTMATTER_DELIMITER.
Proof.
  intros Hs. destruct (matchHeader l) as [[k m2]|] eqn:Hm.
  - destruct (shiftLine_match shift l k m2 Hs Hm) as [_ Hm'].
    by rewrite (header_not_delimiter _ _ _ Hm), (header_not_delimiter _ _ _ Hm').
  - unfold shiftLine. by rewrite Hm.
Qed.

Lemma shift_isFence (shift : Z) (l : jsstring) :
  (0 < shift)%Z -> isFence (shiftLine shift l) = isFence l.
Proof.
  intros Hs. destruct (matchHeader l) as [[k m2]|] eqn:Hm.
  - destruct (shiftLine_match shift l k m2 Hs Hm) as [_ Hm'].
    by rewrite (header_not_fence _ _ _ Hm), (header_not_fence _ _ _ Hm').
  - unfold shiftLine. by rewrite Hm.
Qed.

Lemma shift_findClosing (shift : Z) (ls : list jsstring) :
  (0 < shift)%Z ->
  forall i, findClosing (shiftLine shift <$> ls) i = findClosing ls i.
Proof.
  intros Hs. induction ls as [|l ls IH]; intros i; [done|].
  rewrite fmap_cons. cbn [findClosing]. rewrite shift_trimIs by done.
  by rewrite IH.
Qed.

Lemma shift_startLine (shift : Z) (L : list jsstring) :
  (0 < shift)%Z -> startLineOf (shiftLine shift <$> L) = startLineOf L.
Proof.
  intros Hs. unfold startLineOf, parseFrontmatterBlock.
  rewrite list_lookup_fmap, <- fmap_drop, shift_findClosing by done.
  assert (trimIs (shiftLine shift <$> L !! 0) FRONTMATTER_DELIMITER
          = trimIs (L !! 0) FRONTMATTER_DELIMITER) as ->.
  { destruct (L !! 0); [by apply shift_trimIs|done]. }
  destruct (trimIs _ _); [|done]. by destruct (findClosing _ _).
Qed.

Lemma scan_shift (shift : Z) (total total' : nat) (ls : list jsstring) :
  (0 < shift)%Z ->
  forall i b occ occ',
    outlineOf (scanSections total' (shiftLine shift <$> ls) i b occ')
    = shiftedOutline shift (scanSections total ls i b occ).
Proof.
  intros Hs. induction ls as [|l ls IH]; intros i b occ occ'; [done|].
  rewrite fmap_cons. cbn [scanSections]. rewrite shift_isFence by done.
  destruct (isFence l); [apply IH|]. destruct b; [apply IH|].
  destruct (matchHeader l) as [[k m2]|] eqn:Hm.
  - destruct (shiftLine_match shift l k m2 Hs Hm) as [_ ->]. cbv zeta.
    unfold outlineOf, shiftedOutline. rewrite !fmap_cons.
    cbn [level title line]. f_equal. apply IH.
  - assert (shiftLine shift l = l) as ->.
    { unfold shiftLine. by rewrite Hm. }
    rewrite Hm. apply IH.
Qed.

Lemma fixLineEnds_outlineOf (L : list jsstring) (ss : list MdSection) :
  outlineOf (fixLineEnds L ss) = outlineOf ss.
Proof.
  unfold outlineOf. induction ss as [|s ss IH]; [done|].
  cbn [fixLineEnds]. cbv zeta. rewrite !fmap_cons. by rewrite IH.
Qed.

Lemma fixLineEnds_shiftedOutline (shift : Z) (L : list jsstring)
    (ss : list MdSection) :
  shiftedOutline shift (fixLineEnds L ss) = shiftedOutline shift ss.
Proof.
  unfold shiftedOutline. induction ss as [|s ss IH]; [done|].
  cbn [fixLineEnds]. cbv zeta. rewrite !fmap_cons. by rewrite IH.
Qed.

Lemma shift_noLF (shift : Z) (l : jsstring) :
  (0 < shift)%Z -> noLF l -> noLF (shiftLine shift l).
Proof.
  intros Hs Hl. destruct (matchHeader l) as [[k m2]|] eqn:Hm.
  - destruct (shiftLine_match shift l k m2 Hs Hm) as [-> _].
    destruct (hashesThen_sound 6 l k m2 Hm) as (ws & -> & _ & _ & _).
    unfold noLF in *. apply Forall_app in Hl as [_ Hl].
    apply Forall_app in Hl as [_ Hl].
    apply Forall_app. split; [|by apply Forall_cons].
    apply Forall_replicate. done.
  - unfold shiftLine. by rewrite Hm.
Qed.

Lemma concat_shift_post (w : World) (file t : jsstring) (shift : Z) :
  readable w file t -> frontmatter (parseDocument t) = None ->
  (0 < shift)%Z -> shiftPost w file t shift.
Proof.
  intros Hr Hf Hs. unfold shiftPost.
  assert (Forall2 (readable w) [file] [t]) as H2.
  { constructor; [done|constructor]. }
  pose proof (cmdConcat_run w shift [file] [t] H2) as Hrun.
  unfold concatSpec in Hrun. cbv zeta in Hrun. rewrite Hf in Hrun.
  cbn [truthy fmap list_fmap Js.joinWith] in Hrun.
  unfold concatBody in Hrun. cbv zeta in Hrun.
  pose proof (parse_frontmatterSpec t) as Hspec.
  unfold frontmatterSpec in Hspec. rewrite Hf in Hspec.
  destruct Hspec as [Hfe _]. rewrite Hfe, drop_0 in Hrun.
  assert ((0 <? shift)%Z = true) as Hpos by lia. rewrite Hpos in Hrun.
  rewrite parse_lines in Hrun. set (L := Js.split t) in *.
  eexists. split; [exact Hrun|].
  assert (Js.split (Js.join (shiftLine shift <$> L)) = shiftLine shift <$> L)
    as Hsplit.
  { apply split_join.
    - intros H. apply fmap_nil_inv in H. by apply split_not_nil in H.
    - apply Forall_fmap. eapply Forall_impl; [apply split_lines_noLF|].
      intros l Hl. by apply shift_noLF. }
  rewrite !parse_lines, Hsplit. fold L.
  split; [by rewrite length_fmap|].
  rewrite !parse_sections. unfold rawSections. rewrite Hsplit. fold L.
  rewrite shift_startLine by done.
  rewrite fixLineEnds_outlineOf, fixLineEnds_shiftedOutline.
  rewrite <- fmap_drop. by apply scan_shift.
Qed.

(** X18. [concat] of one file without frontmatter, with a positive
    shift, returns a text with the same number of lines whose sections
    are the sections of the file: same titles, same lines, every level
    raised by the shift and capped at 6. *)
Theorem cmdConcat_shift_outline (w : World) (file t : jsstring) (shift : Z) :
  readable w file t -> frontmatter (parseDocument t) = None ->
  (0 < shift)%Z -> shiftPost w file t shift.
Proof. apply concat_shift_post. Qed.

(** *** Search *)

Lemma startsWith_spec (p s : jsstring) :
  Js.startsWith p s = true <-> exists b, s = p ++ b.
Proof.
  revert s. induction p as [|a p IH]; intros s.
  - split; [by exists s|done].
  - destruct s as [|c s]; cbn [Js.startsWith].
    + split; [done|]. by intros [b Hb].
    + rewrite andb_true_iff, N.eqb_eq, IH. split.
      * intros [-> [b ->]]. by exists b.
      * intros [b [= -> ->]]. split; [done|by exists b].
Qed.

Lemma includes_spec (p s : jsstring) :
  Js.includes p s = true <-> occursIn p s.
Proof.
  unfold occursIn. induction s as [|c s IH]; cbn [Js.includes].
  - rewrite orb_false_r, startsWith_spec. split.
    + intros [b Hb]. by exists [], b.
    + intros (a & b & H). symmetry in H.
      apply app_eq_nil in H as [-> H]. apply app_eq_nil in H as [-> ->].
      by exists [].
  - rewrite orb_true_iff, startsWith_spec, IH. split.
    + intros [[b Hb]|(a & b & ->)]; [by exists [], b|by exists (c :: a), b].
    + intros ([|x a] & b & H).
      * left. by exists b.
      * right. injection H as -> ->. by exists a, b.
Qed.

Lemma searchLines_spec (doc : Document) (pattern : jsstring)
    (ls : list jsstring) :
  forall i m,
    m ∈ searchLines doc pattern ls i <->
    exists q, ls !! q = Some (SearchMatch.content m)
              /\ SearchMatch.line m = i + q + 1
              /\ Js.includes pattern (SearchMatch.content m) = true
              /\ SearchMatch.sectionId m
                 = id <$> findSectionAtLine doc (SearchMatch.line m).
Proof.
  induction ls as [|l ls IH]; intros i m.
  - cbn [searchLines]. split; [by intros H%elem_of_nil|].
    by intros (q & Hq & _).
  - cbn [searchLines]. destruct (Js.includes pattern l) eqn:Hinc.
    + cbv zeta. rewrite elem_of_cons, IH. split.
      * intros [->|(q & Hq & Hl & Hi & Hs)].
        -- exists 0. cbn. repeat split; try done. lia.
        -- exists (S q). repeat split; try done. lia.
      * intros ([|q] & Hq & Hl & Hi & Hs).
        -- left. cbn in Hq. injection Hq as Hq. destruct m as [sid n c].
           cbn in Hq, Hl, Hs. assert (n = i + 1) as -> by lia. by subst.
        -- right. exists q. repeat split; try done. lia.
    + rewrite IH. split.
      * intros (q & Hq & Hl & Hi & Hs). exists (S q).
        repeat split; try done. lia.
      * intros ([|q] & Hq & Hl & Hi & Hs).
        -- cbn in Hq. injection Hq as Hq. congruence.
        -- exists q. repeat split; try done. lia.
Qed.

Lemma searchLines_ascending (doc : Document) (pattern : jsstring)
    (ls : list jsstring) :
  forall i,
    Forall (fun n => i < n) (SearchMatch.line <$> searchLines doc pattern ls i)
    /\ ascending (SearchMatch.line <$> searchLines doc pattern ls i).
Proof.
  induction ls as [|l ls IH]; intros i.
  - split; [done|apply ascending_nil].
  - destruct (IH (S i)) as [Hall Hasc]. cbn [searchLines].
    assert (Forall (fun n => i < n)
              (SearchMatch.line <$> searchLines doc pattern ls (S i))) as Hall'.
    { eapply Forall_impl; [exact Hall|]. intros n Hn. simpl in Hn. lia. }
    destruct (Js.includes pattern l); [|done]. cbv zeta.
    rewrite fmap_cons. cbn [SearchMatch.line]. split.
    + apply Forall_cons. split; [lia|done].
    + apply ascending_cons; [|done].
      eapply Forall_impl; [exact Hall|]. intros n Hn. simpl in Hn. lia.
Qed.

Lemma search_post (w : World) (file pattern t : jsstring) :
  readable w file t -> searchPost w file pattern t.
Proof.
  intros Hr. unfold searchPost. eexists. split.
  { unfold cmdSearch.
    rewrite (bind_Return _ _ w w t) by by apply readFile_readable.
    cbv zeta. cbn [negb]. reflexivity. }
  split; [|apply searchLines_ascending].
  intros m. rewrite searchLines_spec. unfold isMatch. split.
  - intros (q & Hq & Hl & Hi & Hs). split; [lia|]. split.
    { rewrite Hl. by replace (0 + q + 1 - 1) with q by lia. }
    split; [by apply includes_spec|].
    eexists. split; [apply findSectionAtLine_spec|done].
  - intros (Hl & Hq & Hi & r & Hr' & Hs).
    exists (SearchMatch.line m - 1). split; [done|]. split; [lia|].
    split; [by apply includes_spec|]. rewrite Hs. f_equal.
    pose proof (findSectionAtLine_spec t (SearchMatch.line m)) as Hspec.
    set (n := SearchMatch.line m) in *.
    destruct r as [s|], (findSectionAtLine _ _) as [s'|]; cbn in *.
    + destruct Hr' as (Hin & Hle & Hmax), Hspec as (Hin' & Hle' & Hmax').
      f_equal. apply list_elem_of_lookup in Hin as [i Hi'].
      apply list_elem_of_lookup in Hin' as [j Hj].
      assert (i = j) as ->.
      { apply Nat.le_antisymm.
        - apply (parse_line_index t i j s s' Hi' Hj).
          apply Hmax'; [apply list_elem_of_lookup; eauto|done].
        - apply (parse_line_index t j i s' s Hj Hi').
          apply Hmax; [apply list_elem_of_lookup; eauto|done]. }
      congruence.
    + destruct Hr' as (Hin & Hle & _). specialize (Hspec s Hin). lia.
    + destruct Hspec as (Hin & Hle & _). specialize (Hr' s' Hin). lia.
    + done.
Qed.

(** X19. [search] of a file that can be read returns, by ascending
    line, exactly the lines of the file that contain the pattern, each
    with its number, its text, and the id of the last section that
    starts at or before it (none before the first header). *)
Theorem cmdSearch_matches (w : World) (file pattern t : jsstring) :
  readable w file t -> searchPost w file pattern t.
Proof. apply search_post. Qed.

(** *** The summary of a search *)

Lemma mapGet_mapPush (sid k : jsstring) (n : nat)
    (m : list (jsstring * SearchSummary.t)) :
  mapGet k (mapPush sid n m)
  = if Js.eqb sid k
    then (fun e => SearchSummary.mk (SearchSummary.id e)
                     (SearchSummary.level e) (SearchSummary.title e)
                     (SearchSummary.lines e ++ [n])
                     (SearchSummary.matchCount e + 1)) <$> mapGet k m
    else mapGet k m.
Proof.
  induction m as [|[k0 e0] m IH]; [by destruct (Js.eqb sid k)|].
  cbn [mapPush mapGet]. unfold Js.eqb in *.
  destruct (decide (k0 = sid)) as [->|Hne].
  - rewrite bool_decide_eq_true_2 by done. cbn [mapGet]. unfold Js.eqb.
    by destruct (bool_decide (sid = k)).
  - rewrite (bool_decide_eq_false_2 (k0 = sid)) by done. cbn [mapGet].
    unfold Js.eqb. destruct (decide (k0 = k)) as [->|Hne'].
    + rewrite bool_decide_eq_true_2 by done.
      by rewrite (bool_decide_eq_false_2 (sid = k)) by done.
    + rewrite (bool_decide_eq_false_2 (k0 = k)) by done. apply IH.
Qed.

Lemma mapGet_app (k sid : jsstring) (e : SearchSummary.t)
    (m : list (jsstring * SearchSummary.t)) :
  mapGet k (m ++ [(sid, e)])
  = match mapGet k m with
    | Some x => Some x
    | None => if Js.eqb sid k then Some e else None
    end.
Proof.
  induction m as [|[k0 e0] m IH]; [done|].
  cbn [app mapGet]. by destruct (Js.eqb k0 k).
Qed.

Lemma mapPush_keys (sid : jsstring) (n : nat)
    (m : list (jsstring * SearchSummary.t)) :
  (mapPush sid n m).*1 = m.*1.
Proof.
  induction m as [|[k0 e0] m IH]; [done|].
  cbn [mapPush]. destruct (Js.eqb k0 sid); [done|].
  rewrite !fmap_cons. by rewrite IH.
Qed.

Lemma mapGet_None (k : jsstring) (m : list (jsstring * SearchSummary.t)) :
  mapGet k m = None <-> k ∉ m.*1.
Proof.
  induction m as [|[k0 e0] m IH].
  - split; [intros _; apply not_elem_of_nil|done].
  - cbn [mapGet]. rewrite fmap_cons, not_elem_of_cons. cbn [fst].
    unfold Js.eqb. destruct (decide (k0 = k)) as [->|Hne].
    + rewrite bool_decide_eq_true_2 by done. split; [done|]. by intros [? _].
    + rewrite bool_decide_eq_false_2 by done. rewrite IH.
      split; [by intros ?; split|by intros [_ ?]].
Qed.

Lemma mapGet_elem (k : jsstring) (e : SearchSummary.t)
    (m : list (jsstring * SearchSummary.t)) :
  NoDup m.*1 -> (k, e) ∈ m <-> mapGet k m = Some e.
Proof.
  induction m as [|[k0 e0] m IH]; intros Hnd.
  - split; [by intros H%elem_of_nil|done].
  - rewrite fmap_cons in Hnd. apply NoDup_cons in Hnd as [Hk0 Hnd].
    cbn [fst] in Hk0. cbn [mapGet]. rewrite elem_of_cons, (IH Hnd).
    unfold Js.eqb. destruct (decide (k0 = k)) as [->|Hne].
    + rewrite bool_decide_eq_true_2 by done. split.
      * intros [[= ->]|H]; [done|].
        apply mapGet_None in Hk0. congruence.
      * intros [= ->]. by left.
    + rewrite bool_decide_eq_false_2 by done. split.
      * intros [[= -> ->]|H]; done.
      * by right.
Qed.

Lemma matchedLines_snoc (ms : list SearchMatch.t) (m : SearchMatch.t)
    (k : jsstring) :
  matchedLines (ms ++ [m]) k
  = matchedLines ms k
    ++ if decide (SearchMatch.sectionId m = Some k)
       then [SearchMatch.line m] else [].
Proof.
  unfold matchedLines. rewrite filter_app, fmap_app. f_equal.
  rewrite filter_cons, filter_nil.
  by destruct (decide (SearchMatch.sectionId m = Some k)).
Qed.

Lemma summarize_step (doc : Document) (ms : list SearchMatch.t)
    (m : SearchMatch.t) (acc : list (jsstring * SearchSummary.t)) :
  NoDup acc.*1 -> (forall k, mapGet k acc = summaryFor doc ms k) ->
  NoDup (summarize doc acc m).*1
  /\ forall k, mapGet k (summarize doc acc m) = summaryFor doc (ms ++ [m]) k.
Proof.
  intros Hnd Hget. unfold summarize.
  destruct (SearchMatch.sectionId m) as [[|c sid]|] eqn:Hsid; cbn [truthy negb].
  - split; [done|]. intros k. rewrite Hget. unfold summaryFor.
    destruct (decide (k = [])) as [->|Hk]; [done|].
    rewrite matchedLines_snoc, decide_False by congruence.
    by rewrite app_nil_r.
  - cbv zeta. change (default [] (Some (c :: sid))) with (c :: sid).
    assert (truthy (Some (c :: sid)) = true) as Htr by done.
    set (key := c :: sid) in *.
    destruct (findSection doc key) as [s|] eqn:Hf.
    + assert (mapGet key acc = summaryFor doc ms key) as Hkey by apply Hget.
      set (e0 := SearchSummary.mk (id s) (level s) (title s) [] 0).
      set (acc1 := match mapGet key acc with
                   | Some _ => acc
                   | None => acc ++ [(key, e0)]
                   end).
      split.
      * rewrite mapPush_keys. unfold acc1.
        destruct (mapGet key acc) eqn:Hg; [done|].
        rewrite fmap_app. apply NoDup_app. split; [done|].
        split; [|apply NoDup_singleton].
        intros x Hx Hx'. apply list_elem_of_singleton in Hx'. cbn in Hx'.
        subst x. by apply mapGet_None in Hg.
      * intros k. rewrite mapGet_mapPush. unfold Js.eqb.
        destruct (decide (key = k)) as [<-|Hne].
        -- rewrite bool_decide_eq_true_2 by done.
           unfold summaryFor in Hkey |- *.
           rewrite matchedLines_snoc, Hf, Htr in *.
           rewrite decide_True by done. unfold acc1.
           destruct (matchedLines ms key) as [|n ns] eqn:Hml.
           ++ rewrite Hkey, mapGet_app, Hkey. unfold Js.eqb.
              by rewrite bool_decide_eq_true_2 by done.
           ++ rewrite Hkey, Hkey.
              cbn [fmap option_fmap option_map app].
              cbn [SearchSummary.id SearchSummary.level SearchSummary.title
                   SearchSummary.lines SearchSummary.matchCount].
              do 2 f_equal. cbn [length]. rewrite length_app. cbn [length].
              lia.
        -- rewrite bool_decide_eq_false_2 by done.
           assert (mapGet k acc1 = mapGet k acc) as ->.
           { unfold acc1. destruct (mapGet key acc); [done|].
             rewrite mapGet_app. unfold Js.eqb.
             rewrite bool_decide_eq_false_2 by done.
             by destruct (mapGet k acc). }
           rewrite Hget. unfold summaryFor. rewrite matchedLines_snoc.
           rewrite decide_False by congruence. by rewrite app_nil_r.
    + split; [done|]. intros k. rewrite Hget. unfold summaryFor.
      rewrite matchedLines_snoc.
      destruct (decide (SearchMatch.sectionId m = Some k)) as [Heq|Hne].
      * assert (k = key) as -> by congruence. by rewrite Hf, Htr.
      * by rewrite app_nil_r.
  - split; [done|]. intros k. rewrite Hget. unfold summaryFor.
    rewrite matchedLines_snoc, decide_False by congruence.
    by rewrite app_nil_r.
Qed.

Lemma summarize_fold (doc : Document) (ms : list SearchMatch.t) :
  NoDup (foldl (summarize doc) [] ms).*1
  /\ forall k,
       mapGet k (foldl (summarize doc) [] ms) = summaryFor doc ms k.
Proof.
  induction ms as [|m ms [Hnd Hget]] using rev_ind.
  - split; [apply NoDup_nil_2|]. intros k. unfold summaryFor.
    by destruct (truthy (Some k)), (findSection doc k).
  - rewrite foldl_app. cbn [foldl]. by apply summarize_step.
Qed.

Lemma summaryFor_id (doc : Document) (ms : list SearchMatch.t)
    (sid : jsstring) (e : SearchSummary.t) :
  summaryFor doc ms sid = Some e ->
  SearchSummary.id e = sid
  /\ SearchSummary.lines e = matchedLines ms sid
  /\ SearchSummary.matchCount e = length (SearchSummary.lines e).
Proof.
  unfold summaryFor. destruct (truthy (Some sid)); [|done].
  destruct (findSection doc sid) as [s|] eqn:Hf; [|done].
  destruct (matchedLines ms sid) as [|n ns]; [done|]. intros [= <-].
  apply findSection_Some in Hf as (k & _ & Hid & _). done.
Qed.

Lemma summary_ids (acc : list (jsstring * SearchSummary.t)) :
  (forall k e, (k, e) ∈ acc -> SearchSummary.id e = k) ->
  SearchSummary.id <$> acc.*2 = acc.*1.
Proof.
  induction acc as [|[k e] acc IH]; intros H; [done|].
  rewrite !fmap_cons. cbn [fst snd]. f_equal.
  - apply H, elem_of_cons. by left.
  - apply IH. intros k' e' Hin. apply H, elem_of_cons. by right.
Qed.

Lemma summary_post (w : World) (file pattern t : jsstring) :
  readable w file t -> summaryPost w file pattern t.
Proof.
  intros Hr. unfold summaryPost. set (doc := parseDocument t).
  set (ms := searchLines doc pattern (lines doc) 0).
  destruct (summarize_fold doc ms) as [Hnd Hget].
  set (acc := foldl (summarize doc) [] ms) in *.
  exists ms, (acc.*2).
  split.
  { unfold cmdSearch.
    by rewrite (bind_Return _ _ w w t) by by apply readFile_readable. }
  split.
  { unfold cmdSearch.
    by rewrite (bind_Return _ _ w w t) by by apply readFile_readable. }
  assert (forall e, e ∈ acc.*2 <-> exists sid, summaryFor doc ms sid = Some e)
    as Hes.
  { intros e. rewrite list_elem_of_fmap. split.
    - intros ([k e'] & -> & Hin). exists k. rewrite <- Hget.
      by apply mapGet_elem.
    - intros (k & Hk). exists (k, e). split; [done|].
      apply mapGet_elem; [done|]. by rewrite Hget. }
  split; [done|]. split.
  { rewrite summary_ids; [done|]. intros k e Hin.
    apply mapGet_elem in Hin; [|done]. rewrite Hget in Hin.
    by apply summaryFor_id in Hin as [? _]. }
  intros m sid Hm Hsid. pose proof Hm as Hm'.
  apply searchLines_spec in Hm as (q & _ & _ & _ & Hs).
  rewrite Hsid in Hs.
  pose proof (findSectionAtLine_spec t (SearchMatch.line m)) as Hspec.
  fold doc in Hspec.
  destruct (findSectionAtLine doc (SearchMatch.line m)) as [s0|]; [|done].
  injection Hs as ->. destruct Hspec as (Hin & _).
  assert (isValidId (id s0) = true) as Hv.
  { apply list_elem_of_lookup in Hin as [k Hk].
    rewrite (parse_id_occurrence t k s0 Hk). apply sectionHash_valid. }
  assert (SearchMatch.line m ∈ matchedLines ms (id s0)) as Hline.
  { unfold matchedLines. apply list_elem_of_fmap_2.
    apply list_elem_of_filter. by split. }
  destruct (summaryFor doc ms (id s0)) as [e|] eqn:He.
  - exists e. split; [apply Hes; by exists (id s0)|].
    apply summaryFor_id in He as (Hid & Hl & _). split; [done|].
    by rewrite Hl.
  - unfold summaryFor in He. rewrite (valid_id_truthy _ Hv) in He.
    destruct (findSection doc (id s0)) as [s|] eqn:Hf.
    + destruct (matchedLines ms (id s0)); [|done].
      by apply elem_of_nil in Hline.
    + rewrite findSection_None in Hf. by destruct (Hf s0 Hin).
Qed.

(** X20. [search --summary] of a file that can be read returns one
    entry for each section id that has matches: the entry carries the
    level and title of the section that [findSection] gives for the id,
    the lines of the matches attributed to the id, in order, and their
    number; no id has two entries, and every match inside a section is
    counted in the entry of its section id. *)
Theorem cmdSearch_summary (w : World) (file pattern t : jsstring) :
  readable w file t -> summaryPost w file pattern t.
Proof. apply summary_post. Qed.

(** *** Reading back what was written *)

Lemma scan_app (total : nat) (A B : list jsstring) :
  forall i b occ,
    scanSections total (A ++ B) i b occ
    = scanSections total A i b occ
      ++ scanSections total B (i + length A) (foldl toggleFence b A)
           (scanOcc A b occ).
Proof.
  induction A as [|l A IH]; intros i b occ.
  - cbn [app scanSections length foldl scanOcc]. by rewrite Nat.add_0_r.
  - cbn [app scanSections length foldl scanOcc]. unfold toggleFence at 2.
    replace (i + S (length A)) with (S i + length A) by lia.
    destruct (isFence l); [apply IH|].
    destruct b; [apply IH|].
    destruct (matchHeader l) as [[k m2]|]; [|apply IH].
    cbv zeta. rewrite IH. done.
Qed.

Lemma scan_plain_app (total : nat) (E R : list jsstring) :
  Forall plainLine E ->
  forall i b occ,
    scanSections total (E ++ R) i b occ
    = scanSections total R (i + length E) b occ.
Proof.
  induction 1 as [|l E (Hf & Hm & _) _ IH]; intros i b occ.
  - cbn [app length]. by rewrite Nat.add_0_r.
  - cbn [app scanSections length]. rewrite Hf, Hm.
    replace (i + S (length E)) with (S i + length E) by lia.
    destruct b; apply IH.
Qed.

Lemma scan_total (total total' : nat) (ls : list jsstring) :
  forall i b occ,
    headerOf <$> scanSections total' ls i b occ
    = headerOf <$> scanSections total ls i b occ.
Proof.
  intros i b occ.
  pose proof (scan_app_plain total total' [] ls (Forall_nil_2 _) i b occ) as H.
  by rewrite app_nil_r in H.
Qed.

Lemma blank_plain (l : jsstring) : Js.trim l = [] -> plainLine l.
Proof.
  intros Hl. split; [|split].
  - unfold isFence. by rewrite Hl.
  - destruct (matchHeader l) as [[k m2]|] eqn:Hm; [|done].
    by destruct (matchHeader_not_blank l k m2 Hm).
  - by rewrite Hl.
Qed.

Lemma find_first {A} (p : A -> bool) (xs : list A) (k : nat) (x : A) :
  xs !! k = Some x -> p x = true ->
  (forall m y, m < k -> xs !! m = Some y -> p y = false) ->
  find p xs = Some x.
Proof.
  revert k. induction xs as [|a xs IH]; intros k Hk Hp Hbefore; [done|].
  cbn [find]. destruct k as [|k].
  - injection Hk as ->. by rewrite Hp.
  - rewrite (Hbefore 0 a) by (done || lia). apply (IH k); [done|done|].
    intros m y Hm Hy. apply (Hbefore (S m) y); [lia|done].
Qed.

(** The lines put in after the header of a section leave the
    frontmatter block where it is. *)
Lemma frontmatter_splice (t : jsstring) (k e : nat) (s : MdSection)
    (ins : list jsstring) :
  sections (parseDocument t) !! k = Some s ->
  line s <= e ->
  Forall plainLine ins ->
  startLineOf (take (line s) (Js.split t) ++ ins ++ drop e (Js.split t))
  = startLineOf (Js.split t).
Proof.
  intros Hk He Hins.
  destruct (parse_section_header t s) as (h0 & m0 & Hst & Hh0 & _).
  { apply list_elem_of_lookup. eauto. }
  set (L := Js.split t) in *. set (p1 := line s) in *.
  set (L' := take p1 L ++ ins ++ drop e L).
  assert (p1 <= length L) as Hp1.
  { apply lookup_lt_Some in Hh0. lia. }
  unfold startLineOf in *. pose proof (frontmatterBlock_spec L) as Hs.
  destruct (parseFrontmatterBlock L) as [[[fm|] fe] st].
  - destruct Hs as (i & Hi & -> & -> & _ & H0 & Hd & Hmin). cbn [snd] in *.
    assert (take (i + 1) L' = take (i + 1) L) as Ht.
    { unfold L'. rewrite take_app_le by (rewrite length_take; lia).
      rewrite take_take. f_equal. lia. }
    rewrite (frontmatterBlock_complete L' i); [done| | | |].
    + unfold L'. rewrite !length_app, length_take. lia.
    + by rewrite (isDelimiter_prefix L L' 0 (i + 1)) by (lia || done).
    + by rewrite (isDelimiter_prefix L L' i (i + 1)) by (lia || done).
    + intros q Hq.
      rewrite (isDelimiter_prefix L L' q (i + 1)) by (lia || done).
      by apply Hmin.
  - destruct Hs as (_ & -> & Hnone). cbn [snd] in *.
    assert (L' !! 0 = L !! 0) as H0.
    { unfold L'. rewrite lookup_app_l by (rewrite length_take; lia).
      apply lookup_take_lt. lia. }
    unfold parseFrontmatterBlock. rewrite H0.
    destruct (trimIs (L !! 0) FRONTMATTER_DELIMITER) eqn:Hd0; [|done].
    destruct Hnone as [Hnone|Hnone]; [unfold isDelimiter in Hnone; congruence|].
    rewrite findClosing_plain; [done|].
    apply Forall_lookup. intros q x Hx. rewrite lookup_drop in Hx.
    unfold L' in Hx. apply lookup_app_Some in Hx as [Hx|[Hlen Hx]].
    + apply lookup_take_Some in Hx as [Hx _].
      specialize (Hnone (1 + q)). unfold isDelimiter in Hnone.
      rewrite Hx in Hnone. cbn [trimIs] in Hnone.
      apply eqb_false, Hnone. lia.
    + apply lookup_app_Some in Hx as [Hx|[_ Hx]].
      * rewrite Forall_lookup in Hins. by destruct (Hins _ _ Hx) as (_ & _ & ?).
      * rewrite lookup_drop in Hx.
        specialize (Hnone (e + (1 + q - length (take p1 L) - length ins))).
        unfold isDelimiter in Hnone. rewrite Hx in Hnone.
        cbn [trimIs] in Hnone. apply eqb_false, Hnone. lia.
Qed.

Lemma trimBack_splice (P ins R : list jsstring) :
  (forall l, l ∈ R -> Js.trim l = []) -> endsWithText ins ->
  trimBack (P ++ ins ++ R) (length P) (length (P ++ ins ++ R))
  = length P + length ins.
Proof.
  intros HR Hend. set (L' := P ++ ins ++ R).
  assert (length L' = length P + length ins + length R) as Hlen.
  { unfold L'. rewrite !length_app. lia. }
  destruct (trimBack_spec L' (length P) (length L')) as (Hb & Hblank & Hlast);
    [lia|lia|].
  set (e' := trimBack L' (length P) (length L')) in *.
  assert (e' <= length P + length ins) as Hle.
  { destruct (decide (e' <= length P + length ins)); [done|].
    destruct Hlast as (l & Hl & Hne); [lia|]. destruct Hne.
    apply HR. unfold L' in Hl.
    rewrite lookup_app_r in Hl by lia. rewrite lookup_app_r in Hl by lia.
    apply list_elem_of_lookup. eauto. }
  destruct Hend as [->|(l & Hl & Hne)]; [cbn [length] in *; lia|].
  apply last_Some in Hl as [ins' ->]. rewrite length_app in *.
  cbn [length] in *.
  destruct (decide (length P + (length ins' + 1) <= e')); [lia|].
  destruct Hne. apply (Hblank (length P + length ins') l); [lia|].
  unfold L'. rewrite lookup_app_r by lia.
  rewrite <- app_assoc. rewrite lookup_app_r by lia.
  replace (length P + length ins' - length P - length ins') with 0 by lia.
  done.
Qed.

(** The parse of a file in which the lines between the header of the
    section [s] and a boundary were replaced by plain lines: the
    sections up to [s] are as before, and [s] now ends with the new
    lines. *)
Lemma splice_parse (t : jsstring) (k e : nat) (s : MdSection)
    (ins : list jsstring) :
  sections (parseDocument t) !! k = Some s ->
  line s <= e -> e <= length (Js.split t) ->
  boundaryAt (Js.split t) e ->
  Forall plainLine ins -> Forall noLF ins -> endsWithText ins ->
  let L' := take (line s) (Js.split t) ++ ins ++ drop e (Js.split t) in
  let doc' := parseDocument (Js.join L') in
  lines doc' = L'
  /\ headerOf <$> take (S k) (sections doc')
     = headerOf <$> take (S k) (sections (parseDocument t))
  /\ exists s', sections doc' !! k = Some s' /\ headerOf s' = headerOf s
                /\ lineEnd s' = line s + length ins.
Proof.
  intros Hk He Hel Hb Hins Hnolf Hend. cbv zeta.
  destruct (parse_section_header t s)
    as (h0 & m0 & Hst & Hh0 & Hf0 & Hflag & Hm0 & _).
  { apply list_elem_of_lookup. eauto. }
  pose proof (frontmatter_splice t k e s ins Hk He Hins) as Hstart.
  destruct (parse_section_lookup t k s Hk)
    as (r & Hr & Hid & Hlv & Hti & Hli & _).
  pose proof (rawSections_ascending t) as Hasc.
  unfold rawSections in Hr, Hasc.
  set (L := Js.split t) in *. set (p1 := line s) in *.
  set (st := startLineOf L) in *. set (L' := take p1 L ++ ins ++ drop e L) in *.
  assert (1 <= p1 <= length L) as Hp1.
  { apply lookup_lt_Some in Hh0. lia. }
  assert (length (take p1 L) = p1) as Htake by (rewrite length_take; lia).
  assert (Js.split (Js.join L') = L') as Hsplit.
  { apply split_join.
    - intros H. apply (f_equal length) in H. unfold L' in H.
      rewrite length_app, Htake in H. cbn [length] in H. lia.
    - pose proof (split_lines_noLF t) as HL. fold L in HL.
      apply Forall_app. split; [by apply Forall_take|].
      apply Forall_app. split; [done|by apply Forall_drop]. }
  set (A := drop st (take p1 L)).
  assert (length A = p1 - st) as HlenA.
  { unfold A. rewrite length_drop, Htake. done. }
  assert (drop st L' = A ++ ins ++ drop e L) as HdropL'.
  { unfold L'. rewrite drop_app_le by lia. done. }
  assert (drop st L = A ++ drop p1 L) as HdropL.
  { unfold A. rewrite drop_take_drop by lia. done. }
  assert (foldl toggleFence false A = false) as HflagA.
  { assert (A = slice st (p1 - 1) L ++ [h0]) as ->.
    { unfold A, slice.
      replace (take p1 L) with (take (st + (p1 - st)) L) by (f_equal; lia).
      rewrite <- take_drop_commute.
      replace (p1 - st) with (S (p1 - 1 - st)) by lia.
      apply take_S_r. rewrite lookup_drop. rewrite <- Hh0. f_equal. lia. }
    rewrite foldl_app. cbn [foldl]. unfold fenceFlagAt in Hflag.
    rewrite Hflag. unfold toggleFence. by rewrite Hf0. }
  set (occA := scanOcc A false ∅).
  rewrite HdropL, scan_app, HflagA in Hr, Hasc. fold occA in Hr, Hasc.
  replace (st + length A) with p1 in Hr, Hasc by lia.
  set (scanA := scanSections (length L) A st false ∅) in *.
  set (rest := scanSections (length L) (drop p1 L) p1 false occA) in *.
  assert (length scanA = S k) as HlenScan.
  { pose proof (scan_bounds (length L) A st false ∅) as HbA.
    pose proof (scan_bounds (length L) (drop p1 L) p1 false occA) as HbR.
    fold scanA in HbA. fold rest in HbR.
    rewrite Forall_lookup in HbA. rewrite Forall_lookup in HbR.
    destruct (decide (length scanA <= k)) as [Hle|Hgt].
    { rewrite lookup_app_r in Hr by done.
      destruct (HbR _ _ Hr) as [? _]. lia. }
    destruct (decide (length scanA <= S k)) as [Hle|Hgt']; [lia|].
    destruct (lookup_lt_is_Some_2 scanA (S k)) as [x Hx]; [lia|].
    destruct (HbA _ _ Hx) as [[_ Hxl] _].
    assert (line r < line x); [|lia].
    apply (Hasc k (S k)); [| |lia].
    - by rewrite list_lookup_fmap, Hr.
    - rewrite list_lookup_fmap, lookup_app_l by lia. by rewrite Hx. }
  rewrite lookup_app_l in Hr by lia.
  (* the new scan *)
  assert (rawSections (Js.join L')
          = scanSections (length L') A st false ∅
            ++ scanSections (length L') (drop e L) (p1 + length ins)
                 false occA) as Hnew.
  { unfold rawSections. rewrite Hsplit, Hstart. fold st.
    rewrite HdropL', scan_app, HflagA. fold occA.
    replace (st + length A) with p1 by lia.
    by rewrite scan_plain_app. }
  set (scanA' := scanSections (length L') A st false ∅) in *.
  set (scanR' := scanSections (length L') (drop e L) (p1 + length ins)
                   false occA) in *.
  assert (headerOf <$> scanA' = headerOf <$> scanA) as HhA
    by apply scan_total.
  assert (length scanA' = S k) as HlenScan'.
  { apply (f_equal length) in HhA. rewrite !length_fmap in HhA. lia. }
  split; [by rewrite parse_lines|]. split.
  { rewrite !fmap_take, !parse_sections, !fixLineEnds_headerOf, Hnew.
    unfold rawSections. fold L. fold st. rewrite HdropL, scan_app, HflagA.
    fold scanA. rewrite !fmap_app, HhA.
    rewrite !take_app_length' by (rewrite length_fmap; lia). done. }
  destruct (lookup_lt_is_Some_2 scanA' k) as [a' Ha']; [lia|].
  assert (headerOf a' = headerOf s) as Hha.
  { apply (f_equal (fun l => l !! k)) in HhA.
    rewrite !list_lookup_fmap, Ha', Hr in HhA. apply (inj Some) in HhA.
    rewrite HhA. unfold headerOf. rewrite Hid, Hlv, Hti. f_equal.
    symmetry. exact Hli. }
  assert (line a' = p1) as Hla.
  { unfold headerOf in Hha. by injection Hha. }
  rewrite parse_sections, Hsplit, Hnew.
  rewrite fixLineEnds_lookup, (lookup_app_l scanA' scanR' k), Ha' by lia.
  eexists. split; [reflexivity|]. split; [exact Hha|].
  cbn [lineEnd]. rewrite lookup_app_r by lia.
  replace (S k - length scanA') with 0 by lia. rewrite Hla.
  destruct Hb as [(h & kh & m2 & Hh & Hm)|Hblank].
  - unfold scanR'. rewrite (drop_S L h e Hh). cbn [scanSections].
    rewrite (header_not_fence h kh m2 Hm), Hm. cbv zeta.
    cbn [lookup list_lookup line]. lia.
  - assert (forall l, l ∈ drop e L -> Js.trim l = []) as HR.
    { intros l (q & Hq)%list_elem_of_lookup. rewrite lookup_drop in Hq.
      apply (Hblank (e + q) l); [lia|done]. }
    unfold scanR'. rewrite scan_plain.
    2:{ apply Forall_forall. intros l Hl. by apply blank_plain, HR. }
    cbn [lookup list_lookup]. rewrite <- Htake at 1.
    unfold L'. rewrite trimBack_splice by done. by rewrite Htake.
Qed.

Lemma boundary_found (t id' : jsstring) (s : MdSection) (deep : bool)
    (e : nat) :
  findSection (parseDocument t) id' = Some s ->
  getSectionEndLine (parseDocument t) s deep = Return e ->
  boundaryAt (Js.split t) e.
Proof.
  intros Hf He.
  destruct (endLine_found t id' s deep Hf)
    as (k & e' & (Hk & _) & He' & _ & _ & Hdeep).
  rewrite He in He'. injection He' as <-.
  assert (forall n, n ∈ sections (parseDocument t) ->
                    boundaryAt (Js.split t) (line n - 1)) as Hhead.
  { intros n Hn.
    destruct (parse_section_header t n Hn) as (h & m2 & _ & Hh & _ & _ & Hm & _).
    left. by exists h, (level n), m2. }
  destruct deep.
  - destruct (Hdeep eq_refl) as [(j & n & (_ & Hn & _) & ->)|[_ (_ & Hbl & _)]].
    + apply Hhead, list_elem_of_lookup. eauto.
    + right. intros m l Hm Hl. apply (Hbl m l Hm). by rewrite parse_lines.
  - destruct (endLine_parsed t k s Hk) as (Hsh & Hnext & _).
    rewrite He in Hsh. injection Hsh as ->.
    destruct (sections (parseDocument t) !! (k + 1)) as [n|] eqn:Hn.
    + rewrite Hnext. apply Hhead, list_elem_of_lookup. eauto.
    + destruct Hnext as (_ & Hbl & _).
      right. intros m l Hm Hl. apply (Hbl m l Hm). by rewrite parse_lines.
Qed.

Lemma written_lines_text (c : jsstring) :
  textContent c ->
  let newLines0 := if Js.eqb c [] then [] else Js.split c in
  let inserted :=
    unshiftBlankIf ((0 <? length newLines0)
                    && negb (trimIs (newLines0 !! 0) [])) newLines0 in
  Forall plainLine inserted /\ Forall noLF inserted /\ endsWithText inserted.
Proof.
  intros [Hp Hlast]. cbv zeta. unfold Js.eqb.
  destruct (decide (c = [])) as [->|Hne].
  - rewrite bool_decide_eq_true_2 by done. cbn. split; [done|]. split; [done|].
    by left.
  - rewrite bool_decide_eq_false_2 by done.
    destruct Hlast as [?|(l & Hl & Hnb)]; [done|].
    unfold unshiftBlankIf. destruct (_ && _).
    + split; [apply Forall_cons; split; [apply plain_blank|done]|].
      split.
      { apply Forall_cons. split; [by apply Forall_nil|apply split_lines_noLF]. }
      right. exists l. split; [|done]. rewrite last_cons, Hl. done.
    + split; [done|]. split; [apply split_lines_noLF|].
      right. by exists l.
Qed.

Lemma written_readable (w : World) (file t c : jsstring) :
  readable w file t -> readable (written w file c) file c.
Proof.
  intros [_ Hr]. split; [|done]. unfold written. cbn [files].
  apply lookup_insert_eq.
Qed.

(** A shallow read of a section after the lines between its header and
    a boundary were replaced by plain lines. *)
Lemma read_after_splice (w : World) (file id' t : jsstring) (deep : bool)
    (s : MdSection) (e : nat) (ins : list jsstring) :
  readable w file t ->
  findSection (parseDocument t) id' = Some s ->
  getSectionEndLine (parseDocument t) s deep = Return e ->
  Forall plainLine ins -> Forall noLF ins -> endsWithText ins ->
  let w' :=
    written w file
      (Js.join (take (line s) (lines (parseDocument t)) ++ ins
                ++ drop e (lines (parseDocument t)))) in
  exists s',
    cmdRead file id' false w'
    = (Return (s', Js.join ins, line s + length ins), w')
    /\ headerOf s' = headerOf s.
Proof.
  intros Hr Hf He Hplain Hnolf Hend. cbv zeta.
  pose proof (findSection_valid t id' s Hf) as Hv.
  destruct (endLine_found t id' s deep Hf)
    as (k & e' & (Hk & Hid & Hfirst) & He' & Hb1 & Hb2 & _).
  rewrite He in He'. injection He' as <-.
  pose proof (boundary_found t id' s deep e Hf He) as Hbound.
  rewrite parse_lines in *.
  destruct (splice_parse t k e s ins Hk)
    as (Hlines & Hpre & s' & Hs' & Hhs & Hle);
    [lia|done|done|done|done|done|].
  cbv zeta in Hlines, Hpre, Hs'.
  set (L' := take (line s) (Js.split t) ++ ins ++ drop e (Js.split t)) in *.
  assert (line s' = line s /\ id s' = id s) as [Hline Hids].
  { unfold headerOf in Hhs. by injection Hhs as -> _ _ ->. }
  assert (findSection (parseDocument (Js.join L')) id' = Some s') as Hf'.
  { unfold findSection. apply (find_first _ _ k s'); [done| |].
    - apply eqb_true. congruence.
    - intros m y Hm Hy. apply eqb_false.
      apply (f_equal (fun l => l !! m)) in Hpre.
      rewrite !list_lookup_fmap, !lookup_take_lt in Hpre by lia.
      rewrite Hy in Hpre.
      destruct (sections (parseDocument t) !! m) as [x|] eqn:Hx; [|done].
      apply (inj Some) in Hpre. unfold headerOf in Hpre.
      injection Hpre as -> _ _ _. by apply (Hfirst m x). }
  destruct (endLine_parsed (Js.join L') k s' Hs') as (Hsh & _).
  exists s'. split; [|done].
  unfold cmdRead. rewrite Hv. cbn [negb].
  rewrite (bind_Return _ _ _ _ (Js.join L'))
    by (apply readFile_readable; by apply (written_readable w file t)).
  cbv zeta. rewrite Hf'. unfold io_lift at 1.
  erewrite bind_Return by (rewrite Hsh; reflexivity).
  unfold getSectionContent.
  erewrite bind_Return by (rewrite Hsh; reflexivity).
  rewrite Hlines, Hle, Hline. unfold slice, L'.
  assert (length (take (line s) (Js.split t)) = line s) as Htake.
  { rewrite length_take. lia. }
  rewrite drop_app_length' by done.
  replace (line s + length ins - line s) with (length ins) by lia.
  by rewrite take_app_length.
Qed.

Lemma write_read (w : World) (file id' newContent t : jsstring)
    (deep : bool) (s : MdSection) :
  readable w file t -> writable w file ->
  findSection (parseDocument t) id' = Some s ->
  textContent
    (expandMagic newContent
       (parseFrontmatter (getFrontmatterContent (parseDocument t)))) ->
  writeReadPost w file id' newContent deep t s.
Proof.
  intros Hr Hw Hf Htext. pose proof (findSection_valid t id' s Hf) as Hv.
  destruct (endLine_found t id' s deep Hf) as (k & e & _ & He & _).
  pose proof (cmdWrite_run w file id' newContent t deep s e Hr Hw Hv Hf He)
    as Hrun.
  unfold writeReadPost. cbv zeta in *.
  set (expanded := expandMagic _ _) in *.
  pose proof (writtenLines_ok expanded) as Hspec.
  destruct (written_lines_text expanded Htext) as (Hplain & Hnolf & Hend).
  cbv zeta in Hspec, Hplain, Hnolf, Hend.
  set (inserted := unshiftBlankIf _ _) in *.
  destruct (read_after_splice w file id' t deep s e inserted
              Hr Hf He Hplain Hnolf Hend) as (s' & Hread & Hhs).
  by eexists _, _, inserted, s'.
Qed.

Lemma empty_read (w : World) (file id' t : jsstring) (deep : bool)
    (s : MdSection) :
  readable w file t -> writable w file ->
  findSection (parseDocument t) id' = Some s ->
  emptyReadPost w file id' deep t s.
Proof.
  intros Hr Hw Hf. pose proof (findSection_valid t id' s Hf) as Hv.
  destruct (endLine_found t id' s deep Hf) as (k & e & _ & He & _).
  pose proof (cmdEmpty_run w file id' t deep s e Hr Hw Hv Hf He) as Hrun.
  destruct (read_after_splice w file id' t deep s e [] Hr Hf He)
    as (s' & Hread & Hhs); [done|done|by left|].
  cbv zeta in Hread. cbn [app length Js.join] in Hread.
  rewrite Nat.add_0_r in Hread.
  unfold emptyReadPost. by eexists _, _, s'.
Qed.

(** X21. Write, then read. For a file that can be read and written, an
    id that is found, and content whose lines are plain (no fence, no
    header, no frontmatter delimiter) and that is empty or ends with a
    line that is not blank: after the write, a shallow read of the same
    id finds the section at the same line with the same id, level and
    title, its content is the written lines (the content, after an
    empty line when its first line is not blank) and its end line is
    the header line plus the number of these lines. *)
Theorem cmdWrite_then_cmdRead (w : World) (file id' newContent t : jsstring)
    (deep : bool) (s : MdSection) :
  readable w file t -> writable w file ->
  findSection (parseDocument t) id' = Some s ->
  textContent
    (expandMagic newContent
       (parseFrontmatter (getFrontmatterContent (parseDocument t)))) ->
  writeReadPost w file id' newContent deep t s.
Proof. apply write_read. Qed.

(** X22. Empty, then read. For a file that can be read and written and
    an id that is found: after the empty, a shallow read of the same id
    finds the section at the same line with the same id, level and
    title, its content is the empty string and its end line is its
    header line. *)
Theorem cmdEmpty_then_cmdRead (w : World) (file id' t : jsstring)
    (deep : bool) (s : MdSection) :
  readable w file t -> writable w file ->
  findSection (parseDocument t) id' = Some s ->
  emptyReadPost w file id' deep t s.
Proof. apply empty_read. Qed.

(** *** Meta *)

Lemma find_least (t : jsstring) (p : MdSection -> bool) :
  match find p (sections (parseDocument t)) with
  | Some s => s ∈ sections (parseDocument t) /\ p s = true
              /\ forall x, x ∈ sections (parseDocument t) -> p x = true ->
                           line s <= line x
  | None => forall x, x ∈ sections (parseDocument t) -> p x = false
  end.
Proof.
  pose proof (find_spec p (sections (parseDocument t))) as H.
  destruct (find p (sections (parseDocument t))) as [s|].
  - destruct H as (k & Hi & Hk & Hp). split; [|split; [done|]].
    { apply list_elem_of_lookup. eauto. }
    intros x (j & Hj)%list_elem_of_lookup Hx.
    apply findIndex_spec in Hi as [_ Hbefore].
    destruct (decide (k <= j)) as [Hle|Hgt].
    + destruct (decide (k = j)) as [->|Hne]; [by simplify_eq|].
      assert (line s < line x); [|lia].
      apply (parse_lines_ascending t k j s x Hk Hj). lia.
    + rewrite (Hbefore j x) in Hx by (lia || done). done.
  - by destruct H as [_ H].
Qed.

Lemma meta_queries (w : World) (file t : jsstring) :
  readable w file t -> metaQueryPost w file t.
Proof.
  intros Hr. unfold metaQueryPost. cbv zeta. split; [|split].
  - eexists. split; [|intros key value del; unfold cmdMeta;
      by rewrite (bind_Return _ _ w w t) by by apply readFile_readable].
    pose proof (find_least t (fun s => level s =? 1)) as H.
    destruct (find _ _) as [s|].
    + destruct H as (Hin & Hl & Hmin). left. exists s.
      split; [done|]. split; [by apply Nat.eqb_eq|]. split; [done|].
      intros x Hx Hlx. apply Hmin; [done|]. by apply Nat.eqb_eq.
    + right. split; [done|]. intros x Hx Hlx.
      specialize (H x Hx). apply Nat.eqb_neq in H. done.
  - unfold cmdMeta.
    by rewrite (bind_Return _ _ w w t) by by apply readFile_readable.
  - intros c key. unfold cmdMeta.
    by rewrite (bind_Return _ _ w w t) by by apply readFile_readable.
Qed.

(** X23. The modes of [meta] that only read, on a file that can be
    read, leave the disk as it is: [--h1] returns the title of the
    level-1 section with the least line (the empty string when there is
    none), whatever the other arguments; without arguments it returns
    the text between the frontmatter delimiters; with a key it returns
    the formatted value of the key in the parsed frontmatter. *)
Theorem cmdMeta_queries (w : World) (file t : jsstring) :
  readable w file t -> metaQueryPost w file t.
Proof. apply meta_queries. Qed.

Lemma meta_update (w : World) (file t : jsstring) (meta' : Meta) :
  readable w file t ->
  blockSafe (stringifyFrontmatter meta') ->
  metaUpdated w file t meta'
    (written w file
       (serializeDocument
          (setFrontmatter (parseDocument t) (stringifyFrontmatter meta')))).
Proof.
  intros Hr [Hne Hsafe]. unfold metaUpdated. cbv zeta.
  set (y := stringifyFrontmatter meta') in *.
  destruct (setFrontmatter_spec (parseDocument t) y) as (_ & Hold & Hnew & _).
  apply eqb_false in Hne as Hne'. rewrite Hne' in Hold, Hnew.
  set (rest := if truthy (frontmatter (parseDocument t))
               then drop (frontmatterEndLine (parseDocument t))
                         (lines (parseDocument t))
               else [] :: lines (parseDocument t)).
  assert (Forall noLF rest) as Hrest.
  { unfold rest. destruct (truthy _).
    - apply Forall_drop, parse_lines_noLF.
    - constructor; [constructor|apply parse_lines_noLF]. }
  assert (setFrontmatter (parseDocument t) y
          = mkDocument (sections (parseDocument t))
              (frontmatterLines (Js.trim y) ++ rest)
              (Some (Js.join (frontmatterLines (Js.trim y))))
              (length (frontmatterLines (Js.trim y)))) as Hdoc.
  { destruct (setFrontmatter (parseDocument t) y) as [ss L fm fe] eqn:Hset.
    assert (ss = sections (parseDocument t)) as ->.
    { pose proof (setFrontmatter_spec (parseDocument t) y) as [H _].
      by rewrite Hset in H. }
    cbn [lines frontmatter frontmatterEndLine] in *. unfold rest.
    destruct (truthy (frontmatter (parseDocument t))).
    - by destruct (Hold eq_refl) as (-> & -> & ->).
    - by destruct (Hnew eq_refl Hne) as (-> & -> & ->). }
  rewrite Hdoc. unfold serializeDocument. cbn [lines].
  pose proof (reads_back_block (Js.trim y) rest (sections (parseDocument t))
                Hsafe Hrest) as (Hl & Hf & _).
  unfold serializeDocument in Hl, Hf. cbn [lines frontmatter] in Hl, Hf.
  eexists. split; [reflexivity|]. split.
  { by rewrite <- parse_lines. }
  unfold cmdMeta.
  rewrite (bind_Return _ _ _ _ (Js.join (frontmatterLines (Js.trim y) ++ rest)))
    by (apply readFile_readable; by apply (written_readable w file t)).
  cbv zeta. cbn [truthy].
  by rewrite (getFrontmatterContent_block _ (Js.trim y) Hf).
Qed.

(** X24. [meta --set key value] on a file that can be read and written,
    for a non-empty key, when the YAML text of the changed frontmatter
    is not blank and has no line that trims to [---]: the command
    returns [set key]; the file then holds the delimited YAML text
    followed by the lines that were after the old frontmatter (by an
    empty line and all old lines when there was none); and [meta]
    without arguments then returns the trimmed YAML text. *)
Theorem cmdMeta_set_then_show (w : World) (file t : jsstring) (c : N)
    (key value : jsstring) :
  readable w file t -> writable w file ->
  blockSafe
    (stringifyFrontmatter
       (setMetaValue
          (parseFrontmatter (getFrontmatterContent (parseDocument t)))
          (c :: key)
          (expandMagic value
             (parseFrontmatter (getFrontmatterContent (parseDocument t)))))) ->
  metaSetPost w file t (c :: key) value.
Proof.
  intros Hr Hw Hsafe. unfold metaSetPost. cbv zeta.
  eexists. split; [|by apply meta_update].
  unfold cmdMeta.
  rewrite (bind_Return _ _ w w t) by by apply readFile_readable.
  cbv zeta. cbn [truthy negb default from_option].
  by erewrite bind_Return by (by apply writeFile_writable).
Qed.

(** X25. [meta --del key] on a file that can be read, for a non-empty
    key: when the key is not in the frontmatter the command throws
    [parse_error] and the disk is as before; when it is, and the file
    can be written and the YAML text of what is left is not blank and
    has no line that trims to [---], the command returns [deleted key],
    the file holds the new block followed by the lines that were after
    the old one, and [meta] without arguments returns the trimmed YAML
    text. *)
Theorem cmdMeta_del (w : World) (file t : jsstring) (c : N) (key : jsstring)
    (value : option jsstring) :
  readable w file t -> metaDelPost w file t (c :: key) value.
Proof.
  intros Hr. unfold metaDelPost. cbv zeta.
  destruct (deleteNestedValue _ _) as [meta'|] eqn:Hdel.
  - intros Hw Hsafe. eexists. split; [|by apply meta_update].
    unfold cmdMeta.
    rewrite (bind_Return _ _ w w t) by by apply readFile_readable.
    cbv zeta. change (default [] (Some (c :: key))) with (c :: key).
    cbn [truthy negb]. rewrite Hdel.
    by erewrite bind_Return by (by apply writeFile_writable).
  - unfold cmdMeta.
    rewrite (bind_Return _ _ w w t) by by apply readFile_readable.
    cbv zeta. change (default [] (Some (c :: key))) with (c :: key).
    cbn [truthy negb]. by rewrite Hdel.
Qed.

(** *** Create *)

Lemma trimStart_decomp (s : jsstring) :
  exists ws, s = ws ++ Js.trimStart s
             /\ Forall (fun c => Js.isWhiteSpace c = true) ws.
Proof.
  induction s as [|c s (ws & Hs & Hws)]; [by exists []|].
  cbn [Js.trimStart]. destruct (Js.isWhiteSpace c) eqn:Hc.
  - exists (c :: ws). split; [by rewrite Hs at 1|]. by constructor.
  - by exists [].
Qed.

Lemma trimStart_head (s : jsstring) (c : N) (r : jsstring) :
  Js.trimStart s = c :: r -> Js.isWhiteSpace c = false.
Proof.
  induction s as [|x s IH]; [done|]. cbn [Js.trimStart].
  destruct (Js.isWhiteSpace x) eqn:Hx; [done|]. by intros [= -> _].
Qed.

Lemma trimStart_idem (s : jsstring) :
  Js.trimStart (Js.trimStart s) = Js.trimStart s.
Proof.
  destruct (Js.trimStart s) as [|c r] eqn:Hs; [done|].
  cbn [Js.trimStart]. by rewrite (trimStart_head s c r Hs).
Qed.

Lemma title_header (T : jsstring) :
  properTitle T ->
  matchHeader (Js.lit "# " ++ T) = Some (1, Js.trimStart T)
  /\ Js.trim (Js.trimStart T) = Js.trim T
  /\ noLF (Js.lit "# " ++ T).
Proof.
  intros [Hne Hlt]. destruct (trimStart_decomp T) as (ws & HT & Hws).
  destruct (Js.trimStart T) as [|c r] eqn:Hts; [done|].
  pose proof (trimStart_head T c r Hts) as Hc.
  split; [|split].
  - rewrite HT. change (Js.lit "# " ++ ws ++ c :: r)
      with (replicate 1 Js.HASH ++ (Js.SPACE :: ws) ++ c :: r).
    unfold matchHeader. apply hashesThen_complete; [lia|].
    apply (spacesThen_complete (Js.SPACE :: ws) (c :: r) c);
      [done|by constructor|done|done|].
    apply dotPlusEnd_true. split; [done|].
    rewrite HT in Hlt. by apply Forall_app in Hlt as [_ ?].
  - unfold Js.trim. rewrite <- Hts. by rewrite trimStart_idem.
  - unfold noLF. apply Forall_app. split.
    + by repeat constructor.
    + eapply Forall_impl; [exact Hlt|]. intros x Hx ->. done.
Qed.

Lemma create_titled (w : World) (file name : jsstring) (force : bool) :
  writable w file -> name <> [] ->
  properTitle (expandMagic name emptyMeta) ->
  createPost w file name force.
Proof.
  intros Hw Hti Hproper. unfold createPost. cbv zeta.
  set (T := expandMagic name emptyMeta) in *.
  destruct (title_header T Hproper) as (Hm & Htrim & Hnolf).
  set (hdr := Js.lit "# " ++ T) in *. split.
  - intros Hsome title' metaEntries content. unfold cmdCreate.
    erewrite bind_Return by reflexivity.
    by rewrite bool_decide_eq_true_2 by done.
  - intros Hfree. split.
    + unfold cmdCreate. erewrite bind_Return by reflexivity.
      assert (bool_decide (is_Some (files w !! file)) && negb force = false)
        as ->.
      { destruct Hfree as [Hnone| ->]; [|by rewrite andb_false_r].
        rewrite bool_decide_eq_false_2; [done|]. rewrite Hnone.
        by intros [? ?]. }
      assert (truthy (Some name) = true) as -> by by destruct name.
      cbn [length Nat.ltb Nat.leb truthy app createMeta foldl].
      change (default [] (Some name)) with name. fold T. fold hdr.
      by erewrite bind_Return by (by apply writeFile_writable).
    + assert (Js.split (Js.join [hdr; []]) = [hdr; []]) as Hsplit.
      { apply split_join; [done|]. apply Forall_cons. split; [done|].
        apply Forall_cons. split; by apply Forall_nil. }
      assert (trimBack [hdr; []] 1 2 = 1) as Htb by reflexivity.
      unfold parseDocument. rewrite Hsplit. unfold parseFrontmatterBlock.
      cbn [lookup list_lookup]. rewrite (header_not_delimiter hdr 1 _ Hm).
      cbv beta iota zeta. cbn [drop scanSections length].
      rewrite (header_not_fence hdr 1 _ Hm), Hm. cbv zeta.
      change (isFence []) with false.
      change (matchHeader []) with (@None (nat * jsstring)).
      cbv iota. rewrite lookup_empty.
      cbn [fixLineEnds frontmatter lines sections default from_option].
      rewrite Htrim. cbn [Nat.add length id level title line].
      by rewrite Htb.
Qed.

(** X26. [create] with a title and nothing else. For an existing file
    and no [--force] the command throws [io_error] and the disk is as
    before, whatever the other arguments. Otherwise, for a file that
    can be written and a non-empty title whose expansion has a
    character that is no white space and no line terminator, the
    command returns [created file] and writes the two lines [# title]
    and the empty line; this text parses to a document without
    frontmatter and with exactly one section: level 1, the trimmed
    title, line 1, end line 1, id [sectionHash(1, title, 0)]. *)
Theorem cmdCreate_titled (w : World) (file title : jsstring) (force : bool) :
  writable w file -> title <> [] ->
  properTitle (expandMagic title emptyMeta) ->
  createPost w file title force.
Proof. intros. by apply create_titled. Qed.

Lemma append_read (w : World) (file id' newContent t : jsstring)
    (s : MdSection) :
  readable w file t -> writable w file ->
  findSection (parseDocument t) id' = Some s ->
  Forall plainLine
    (slice (line s) (lineEnd s) (lines (parseDocument t))) ->
  Forall plainLine
    (Js.split
       (expandMagic newContent
          (parseFrontmatter (getFrontmatterContent (parseDocument t))))) ->
  endsWithText
    (Js.split
       (expandMagic newContent
          (parseFrontmatter (getFrontmatterContent (parseDocument t))))) ->
  appendReadPost w file id' newContent t s.
Proof.
  intros Hr Hw Hf Hold Hplain Hend.
  destruct (endLine_found t id' s false Hf)
    as (k & e & (Hk & _) & He & Hb1 & Hb2 & _).
  destruct (endLine_parsed t k s Hk) as (Hsh & _).
  rewrite Hsh in He. injection He as <-.
  assert (appendTarget (parseDocument t) (Some id') false false (lineEnd s)
            (Some s)) as Ht.
  { exists s. done. }
  destruct (cmdAppend_run w file (Some id') newContent t false false
              (lineEnd s) (Some s) Hr Hw Ht) as (rid & Hrun & _).
  unfold appendReadPost. cbv zeta in *.
  set (doc := parseDocument t) in *. set (expanded := expandMagic _ _) in *.
  set (old := slice (line s) (lineEnd s) (lines doc)) in *.
  set (inserted := appendedLines doc expanded false (lineEnd s)) in *.
  destruct Hend as [Hnil|(l & Hl & Hnb)]; [by apply split_not_nil in Hnil|].
  assert (Forall plainLine inserted /\ Forall noLF inserted
          /\ list.last inserted = Some l) as (Hip & Hin & Hil).
  { unfold inserted, appendedLines, unshiftBlankIf.
    destruct (_ && _).
    - split; [apply Forall_cons; split; [apply plain_blank|done]|].
      split.
      + apply Forall_cons. split; [by apply Forall_nil|apply split_lines_noLF].
      + by rewrite last_cons, Hl.
    - split; [done|]. split; [apply split_lines_noLF|done]. }
  assert (Forall noLF old) as Hon.
  { unfold old, slice. apply Forall_take, Forall_drop, parse_lines_noLF. }
  destruct (read_after_splice w file id' t false s (lineEnd s)
              (old ++ inserted) Hr Hf Hsh) as (s' & Hread & Hhs).
  { by apply Forall_app. }
  { by apply Forall_app. }
  { right. exists l. split; [|done]. by rewrite last_app, Hil. }
  cbv zeta in Hread. fold doc in Hread.
  assert (take (line s) (lines doc) ++ (old ++ inserted)
            ++ drop (lineEnd s) (lines doc)
          = take (lineEnd s) (lines doc) ++ inserted
            ++ drop (lineEnd s) (lines doc)) as Heq.
  { rewrite <- !app_assoc. rewrite (app_assoc _ old). f_equal.
    unfold old, slice.
    rewrite <- (take_drop (line s) (take (lineEnd s) (lines doc))).
    rewrite take_take, take_drop_commute. f_equal; f_equal; [lia|].
    f_equal. lia. }
  rewrite Heq in Hread.
  assert (line s + length (old ++ inserted)
          = lineEnd s + length inserted) as Hlen.
  { rewrite length_app. unfold old. rewrite length_slice by done. lia. }
  rewrite Hlen in Hread. by eexists _, _, s'.
Qed.

(** X27. Append, then read. For a file that can be read and written,
    an id that is found (section [s]), when the lines of the shallow
    content of [s] and the lines of the new content are plain (no
    fence, no header, no frontmatter delimiter) and the last line of the
    new content is not blank: after a shallow append after the section,
    a shallow read of the same id finds the section at the same line
    with the same id, level and title, and its content is the old
    content followed by the appended lines. *)
Theorem cmdAppend_then_cmdRead (w : World) (file id' newContent t : jsstring)
    (s : MdSection) :
  readable w file t -> writable w file ->
  findSection (parseDocument t) id' = Some s ->
  Forall plainLine
    (slice (line s) (lineEnd s) (lines (parseDocument t))) ->
  Forall plainLine
    (Js.split
       (expandMagic newContent
          (parseFrontmatter (getFrontmatterContent (parseDocument t))))) ->
  endsWithText
    (Js.split
       (expandMagic newContent
          (parseFrontmatter (getFrontmatterContent (parseDocument t))))) ->
  appendReadPost w file id' newContent t s.
Proof. apply append_read. Qed.

End Surgeon.

(** ** The theorems at work on the examples *)

(** Test vectors of SHA-256. *)
Example sha256_abc :
  hexString (Sha256.digest (Js.lit "abc")) =
  Js.lit "ba7816bf8f01cfea414140de5dae2223b00361a396177a9cb410ff61f20015ad".
Proof. vm_compute. reflexivity. Qed.

Example sha256_empty :
  hexString (Sha256.digest []) =
  Js.lit "e3b0c44298fc1c149afbf4c8996fb92427ae41e4649b934ca495991b7852b855".
Proof. vm_compute. reflexivity. Qed.

Example sha256_two_blocks :
  hexString (Sha256.digest
    (Js.lit "abcdbcdecdefdefgefghfghighijhijkijkljklmklmnlmnomnopnopq")) =
  Js.lit "248d6a61d20638b8e5c026930c3e6039a33ce45964ff2167f6ecedd419db06c1".
Proof. vm_compute. reflexivity. Qed.

Lemma disk_readable (t : jsstring) : readable (Ex.disk t) Ex.notes t.
Proof. split; [apply lookup_singleton_eq|apply not_elem_of_empty]. Qed.

Lemma disk_writable (t : jsstring) : writable (Ex.disk t) Ex.notes.
Proof. apply not_elem_of_empty. Qed.

(** The boundaries of [# A] in [Ex.nested]. *)
Lemma getSectionEndLine_parsed_witness :
  endLineSpec (parseDocument Ex.lower Ex.nested) 0 Ex.sectionA.
Proof.
  apply (getSectionEndLine_parsed Ex.lower Ex.nested 0 Ex.sectionA).
  vm_compute. reflexivity.
Defined.

(** C3 as stated fails where two sections share an id: of [# afmd] and
    [# egcp], both with the id [02bce1f5], the second has no section
    after it, and its deep end is line 2, above its own header on line
    3, not the end of the file. *)
Lemma getSectionEndLine_deep_collision :
  let doc := parseDocument Ex.lower Ex.colliding in
  let s := mkSection (Js.lit "02bce1f5") 1 (Js.lit "egcp") 3 4 in
  sections doc !! 1 = Some s
  /\ noneAtMost (sections doc) 1 (level s)
  /\ getSectionEndLine doc s true = Return 2
  /\ ~ trimmedEndOfFile (lines doc) (line s) 2.
Proof.
  cbv zeta. split; [vm_compute; reflexivity|]. split; [|split].
  - intros m x Hm Hx. apply lookup_lt_Some in Hx.
    assert (length (sections (parseDocument Ex.lower Ex.colliding)) = 2)
      as E by (vm_compute; reflexivity).
    lia.
  - vm_compute. reflexivity.
  - intros [[H _] _]. simpl in H. lia.
Qed.

(** C8 as stated fails where two truncated digests collide: in
    [Ex.repeated] the 6th and the 24th header have the same level and
    the same title, the occurrence indices 5 and 23, and the same id. *)
Lemma duplicate_headers_share_id :
  let ss := sections (parseDocument Ex.lower Ex.repeated) in
  exists a b,
    ss !! 5 = Some a /\ ss !! 23 = Some b
    /\ sameHeader Ex.lower a b /\ id a = id b.
Proof.
  cbv zeta. eexists _, _.
  split; [vm_compute; reflexivity|].
  split; [vm_compute; reflexivity|].
  split; [split; reflexivity|reflexivity].
Qed.

(** Writing [new] to [# A] in [Ex.siblings]. *)
Lemma cmdWrite_replaces_content_witness :
  writePost Ex.lower () Ex.yaml Ex.magic (Ex.disk Ex.siblings) Ex.notes
            (Js.lit "4887bbd6") (Js.lit "new") false Ex.siblings Ex.sectionA.
Proof.
  apply cmdWrite_replaces_content.
  - apply disk_readable.
  - apply disk_writable.
  - vm_compute. reflexivity.
Defined.

(** What the write of the example leaves on the disk. *)
Example cmdWrite_siblings :
  (cmdWrite Ex.lower () Ex.yaml Ex.magic Ex.notes (Js.lit "4887bbd6")
            (Js.lit "new") false (Ex.disk Ex.siblings)).2
  = Ex.disk (Ex.text ["# A"; ""; "new"; "# B"; "keep"]).
Proof. vm_compute. reflexivity. Qed.

(** Removing [# A] from [Ex.nested]. *)
Lemma cmdRemove_deletes_deep_range_witness :
  removePost Ex.lower (Ex.disk Ex.nested) Ex.notes (Js.lit "4887bbd6")
             Ex.nested Ex.sectionA
  /\ removeExample Ex.lower.
Proof.
  apply cmdRemove_deletes_deep_range.
  - apply disk_readable.
  - apply disk_writable.
  - vm_compute. reflexivity.
Defined.

(** The id [abc] on [Ex.nested]. *)
Lemma id_errors_witness :
  idErrorsSpec Ex.lower () Ex.yaml Ex.magic (Ex.disk Ex.nested) Ex.notes
               (Js.lit "abc") (Js.lit "new") Ex.nested true false.
Proof. apply id_errors. apply disk_readable. Defined.

(** On the example, a write with the id [abc] throws [invalid_id] and the
    disk is the one before. *)
Lemma failed_mutation_is_atomic_witness :
  cmdWrite Ex.lower () Ex.yaml Ex.magic Ex.notes (Js.lit "abc")
           (Js.lit "new") true (Ex.disk Ex.nested)
  = (Throw (invalidId Ex.notes (Js.lit "abc")), Ex.disk Ex.nested)
  /\ atomicSpec Ex.lower () Ex.yaml Ex.magic (Ex.disk Ex.nested)
       (Ex.disk Ex.nested) Ex.notes (Js.lit "abc") (Js.lit "new") true false
       (invalidId Ex.notes (Js.lit "abc")).
Proof.
  split; [reflexivity|].
  apply failed_mutation_is_atomic. left. reflexivity.
Defined.

(** C4 on the code: appending [## B] at the end of the file [# A], [x]
    puts a blank line and then the header, on line 4; the action is
    [created], but the id of the record is [-] and [lineStart] is 3,
    the blank line, while the new section has the id [7684a0e4]. With
    the target [# A] the id of the record is the id of [# A]. *)
Lemma cmdAppend_created_id_after_blank_line :
  let appended_ := Ex.text ["# A"; "x"; ""; "## B"] in
  cmdAppend Ex.lower () Ex.yaml Ex.magic Ex.notes None (Js.lit "## B")
            false false (Ex.disk Ex.short)
  = (Return (Mutation.mk created (Js.lit "-") 3 (Some 4%Z) 2 0),
     Ex.disk appended_)
  /\ cmdAppend Ex.lower () Ex.yaml Ex.magic Ex.notes
       (Some (Js.lit "4887bbd6")) (Js.lit "## B") false false
       (Ex.disk Ex.short)
     = (Return (Mutation.mk created (Js.lit "4887bbd6") 3 (Some 4%Z) 2 0),
        Ex.disk appended_)
  /\ (fun s => (id s, title s, line s))
       <$> sections (parseDocument Ex.lower appended_)
     = [(Js.lit "4887bbd6", Js.lit "A", 1);
        (Js.lit "7684a0e4", Js.lit "B", 4)].
Proof. cbv zeta. repeat split; vm_compute; reflexivity. Qed.

(** Without the blank line the id is the one of the new section. *)
Example cmdAppend_created_id_before :
  (cmdAppend Ex.lower () Ex.yaml Ex.magic Ex.notes None (Js.lit "## B")
             false true (Ex.disk Ex.short)).1
  = Return (Mutation.mk created (Js.lit "7684a0e4") 1 (Some 1%Z) 1 0).
Proof. vm_compute. reflexivity. Qed.

(** A well-formed id that no section carries. *)
Example cmdRead_absent_id :
  cmdRead Ex.lower Ex.notes (Js.lit "00000000") false (Ex.disk Ex.nested)
  = (Throw (sectionNotFound Ex.notes (Js.lit "00000000")),
     Ex.disk Ex.nested).
Proof. vm_compute. reflexivity. Qed.

(** ** The tests of the repository, on the embedding *)

Definition summary (doc : Document) : list (nat * jsstring * nat * nat) :=
  (fun s => (level s, title s, line s, lineEnd s)) <$> sections doc.

(** [parser.test.ts]: simple markdown, the empty document, frontmatter. *)
Example test_parse_simple :
  let doc := parseDocument Ex.lower (Ex.text ["# Title"; "Content here"]) in
  summary doc = [(1, Js.lit "Title", 1, 2)] /\ length (lines doc) = 2.
Proof. cbv zeta. split; vm_compute; reflexivity. Qed.

Example test_parse_empty :
  let doc := parseDocument Ex.lower [] in
  sections doc = [] /\ length (lines doc) = 1 /\ frontmatter doc = None.
Proof. cbv zeta. repeat split; vm_compute; reflexivity. Qed.

Example test_parse_frontmatter :
  let doc :=
    parseDocument Ex.lower
      (Ex.text ["---"; "title: Test"; "author: John"; "---"; "";
                "# Title"; "Content"]) in
  frontmatter doc
  = Some (Ex.text ["---"; "title: Test"; "author: John"; "---"])
  /\ frontmatterEndLine doc = 4
  /\ summary doc = [(1, Js.lit "Title", 6, 7)]
  /\ getFrontmatterContent doc = Ex.text ["title: Test"; "author: John"].
Proof. cbv zeta. repeat split; vm_compute; reflexivity. Qed.

(** [parser.test.ts]: [lineEnd], and the trailing empty lines. *)
Example test_parse_lineEnd :
  summary (parseDocument Ex.lower
             (Ex.text ["# First"; "Content 1"; ""; "# Second"; "Content 2"]))
  = [(1, Js.lit "First", 1, 3); (1, Js.lit "Second", 4, 5)]
  /\ summary (parseDocument Ex.lower
                (Ex.text ["# Title"; "Content"; ""; ""; ""]))
     = [(1, Js.lit "Title", 1, 2)].
Proof. split; vm_compute; reflexivity. Qed.

(** [parser.test.ts]: three ids for [# Title], [## Title], [# Title]. *)
Example test_parse_duplicate_titles :
  id <$> sections (parseDocument Ex.lower
                     (Ex.text ["# Title"; "## Title"; "# Title"]))
  = [Js.lit "ffec1a58"; Js.lit "3bfad917"; Js.lit "0f356d10"].
Proof. vm_compute. reflexivity. Qed.

(** [parser.test.ts]: the content and the end line, shallow and deep. *)
Example test_section_content :
  let doc :=
    parseDocument Ex.lower
      (Ex.text ["# First"; "Content"; ""; "## Nested"; "Nested content";
                ""; "# Second"]) in
  let first := mkSection (Js.lit "fea91059") 1 (Js.lit "First") 1 3 in
  sections doc !! 0 = Some first
  /\ getSectionEndLine doc first false = Return 3
  /\ getSectionEndLine doc first true = Return 6
  /\ getSectionContent doc first false = Return (Ex.text ["Content"; ""])
  /\ getSectionContent doc first true
     = Return (Ex.text ["Content"; ""; "## Nested"; "Nested content"; ""]).
Proof. cbv zeta. repeat split; vm_compute; reflexivity. Qed.

(** [parser.test.ts]: [startsWithHeader]. *)
Example test_startsWithHeader :
  startsWithHeader (Ex.text ["# Title"; "Content"]) = Some (1, Js.lit "Title")
  /\ startsWithHeader (Js.lit "### Title") = Some (3, Js.lit "Title")
  /\ startsWithHeader (Ex.text ["Regular content"; "# Title"]) = None
  /\ startsWithHeader (Js.lit "#   Title   ") = Some (1, Js.lit "Title").
Proof. repeat split; vm_compute; reflexivity. Qed.

(** [hash.test.ts]: [isValidId]. *)
Example test_isValidId :
  (isValidId <$> [Js.lit "abcd1234"; Js.lit "12345678"; Js.lit "ABCDEF00";
                  Js.lit "00000000"]) = [true; true; true; true]
  /\ (isValidId <$> [Js.lit "abc"; Js.lit "abcd12345"; Js.lit "xyz12345";
                     Js.lit "abcd 123"; []])
     = [false; false; false; false; false].
Proof. split; vm_compute; reflexivity. Qed.


(** ** The further properties at work on the examples *)

(** The section [# A] of [Ex.nested] is found by its own id. *)
Lemma findSection_own_id_witness :
  findsOwnId (parseDocument Ex.lower Ex.nested) Ex.sectionA.
Proof.
  apply findSection_own_id. apply list_elem_of_lookup. exists 0.
  vm_compute. reflexivity.
Defined.

(** A frontmatter set on [Ex.short] is read back from the text. *)
Lemma setFrontmatter_reads_back_witness :
  readsBack Ex.lower
    (setFrontmatter (parseDocument Ex.lower Ex.short) (Js.lit "title: Test")).
Proof.
  apply setFrontmatter_reads_back. split.
  - vm_compute. discriminate.
  - vm_compute. apply Forall_cons. split; [discriminate|constructor].
Defined.

(** The shallow content of [# A] in [Ex.nested] begins its deep content. *)
Lemma getSectionEndLine_shallow_le_deep_witness :
  shallowWithinDeep (parseDocument Ex.lower Ex.nested) Ex.sectionA.
Proof.
  apply (getSectionEndLine_shallow_le_deep Ex.lower Ex.nested
           (Js.lit "4887bbd6")).
  vm_compute. reflexivity.
Defined.

(** Emptying [# A] in [Ex.siblings]. *)
Lemma cmdEmpty_clears_content_witness :
  emptyPost Ex.lower (Ex.disk Ex.siblings) Ex.notes (Js.lit "4887bbd6")
            false Ex.siblings Ex.sectionA.
Proof.
  apply cmdEmpty_clears_content.
  - apply disk_readable.
  - apply disk_writable.
  - vm_compute. reflexivity.
Defined.

Example cmdEmpty_siblings :
  cmdEmpty Ex.lower Ex.notes (Js.lit "4887bbd6") false (Ex.disk Ex.siblings)
  = (Return (Mutation.mk emptied (Js.lit "4887bbd6") 1 None 0 2),
     Ex.disk (Ex.text ["# A"; "# B"; "keep"])).
Proof. vm_compute. reflexivity. Qed.

(** Appending [more] to [# A] in [Ex.short]. *)
Lemma cmdAppend_inserts_lines_witness :
  appendPost Ex.lower () Ex.yaml Ex.magic (Ex.disk Ex.short) Ex.notes
             (Some (Js.lit "4887bbd6")) (Js.lit "more") false false Ex.short.
Proof.
  apply cmdAppend_inserts_lines.
  - apply disk_readable.
  - apply disk_writable.
  - eexists. vm_compute. reflexivity.
Defined.

(** Putting [# New] before everything in [Ex.short]. *)
Lemma cmdAppend_prepends_header_witness :
  prependPost Ex.lower () Ex.yaml Ex.magic (Ex.disk Ex.short) Ex.notes
              (Js.lit "# New") false Ex.short 1 (Js.lit "New").
Proof.
  apply cmdAppend_prepends_header.
  - apply disk_readable.
  - apply disk_writable.
  - vm_compute. reflexivity.
Defined.

(** Appending the text [more] at the end of [Ex.nested]. *)
Lemma cmdAppend_text_keeps_sections_witness :
  appendTextPost Ex.lower () Ex.yaml Ex.magic (Ex.disk Ex.nested) Ex.notes
                 (Js.lit "more") false Ex.nested.
Proof.
  apply cmdAppend_text_keeps_sections.
  - apply disk_readable.
  - apply disk_writable.
  - vm_compute. apply Forall_cons. split; [|constructor].
    split; [reflexivity|]. split; [reflexivity|discriminate].
Defined.

(** The outline below [# A] in [Ex.nested]: [## B]. *)
Lemma cmdOutline_after_descendants_witness :
  exists k,
    firstWithId (sections (parseDocument Ex.lower Ex.nested))
                (Js.lit "4887bbd6") k Ex.sectionA
    /\ outlinePost Ex.lower (Ex.disk Ex.nested) Ex.notes (Js.lit "4887bbd6")
                   Ex.nested k Ex.sectionA.
Proof.
  apply cmdOutline_after_descendants.
  - apply disk_readable.
  - vm_compute. reflexivity.
Defined.

Example cmdOutline_nested :
  (fun r => match r.1 with
            | Return (OutlineList ss) => Some (title <$> ss)
            | _ => None
            end)
    <$> [cmdOutline Ex.lower Ex.notes None false false (Ex.disk Ex.nested);
         cmdOutline Ex.lower Ex.notes (Some (Js.lit "4887bbd6")) false false
                    (Ex.disk Ex.nested)]
  = [Some [Js.lit "A"; Js.lit "B"; Js.lit "C"]; Some [Js.lit "B"]].
Proof. vm_compute. reflexivity. Qed.

(** [concat] of the one file [Ex.short]. *)
Lemma cmdConcat_bodies_witness :
  concatPost Ex.lower (Ex.disk Ex.short) 0 [Ex.notes] [Ex.short].
Proof.
  apply cmdConcat_bodies.
  apply Forall2_cons_2; [apply disk_readable|apply Forall2_nil_2].
Defined.

(** [concat --shift=1] of [Ex.nested]. *)
Lemma cmdConcat_shift_outline_witness :
  shiftPost Ex.lower (Ex.disk Ex.nested) Ex.notes Ex.nested 1.
Proof.
  apply cmdConcat_shift_outline.
  - apply disk_readable.
  - vm_compute. reflexivity.
  - reflexivity.
Defined.

Example cmdConcat_shift_nested :
  cmdConcat Ex.lower [Ex.notes] 5 (Ex.disk Ex.nested)
  = (Return (Ex.text ["###### A"; "x"; ""; "###### B"; "y"; ""; "###### C"]),
     Ex.disk Ex.nested).
Proof. vm_compute. reflexivity. Qed.

(** The lines of [Ex.nested] that contain [x]. *)
Lemma cmdSearch_matches_witness :
  searchPost Ex.lower (Ex.disk Ex.nested) Ex.notes (Js.lit "x") Ex.nested.
Proof. apply cmdSearch_matches. apply disk_readable. Defined.

Lemma cmdSearch_summary_witness :
  summaryPost Ex.lower (Ex.disk Ex.nested) Ex.notes (Js.lit "x") Ex.nested.
Proof. apply cmdSearch_summary. apply disk_readable. Defined.

Example cmdSearch_nested :
  cmdSearch Ex.lower Ex.notes [] false (Ex.disk Ex.short)
  = (Return (Matches [SearchMatch.mk (Some (Js.lit "4887bbd6")) 1
                        (Js.lit "# A");
                      SearchMatch.mk (Some (Js.lit "4887bbd6")) 2
                        (Js.lit "x")]),
     Ex.disk Ex.short)
  /\ cmdSearch Ex.lower Ex.notes [] true (Ex.disk Ex.short)
     = (Return (Summaries [SearchSummary.mk (Js.lit "4887bbd6") 1
                             (Js.lit "A") [1; 2] 2]),
        Ex.disk Ex.short).
Proof. split; vm_compute; reflexivity. Qed.

(** [parser.test.ts]: [findSectionAtLine]. *)
Example test_findSectionAtLine :
  let doc :=
    parseDocument Ex.lower
      (Ex.text ["# First"; "Content 1"; "Content 2"; ""; "# Second";
                "Content 3"]) in
  let fm :=
    parseDocument Ex.lower
      (Ex.text ["---"; "title: Test"; "---"; ""; "# Title"]) in
  title <$> findSectionAtLine doc 2 = Some (Js.lit "First")
  /\ title <$> findSectionAtLine doc 6 = Some (Js.lit "Second")
  /\ findSectionAtLine
       (parseDocument Ex.lower (Ex.text ["Some content"; ""; "# Title"])) 1
     = None
  /\ findSectionAtLine fm 2 = None
  /\ title <$> findSectionAtLine fm 5 = Some (Js.lit "Title").
Proof. cbv zeta. repeat split; vm_compute; reflexivity. Qed.

(** [parser.test.ts]: [setFrontmatter]. *)
Example test_setFrontmatter :
  let plain := parseDocument Ex.lower (Ex.text ["# Title"; "Content"]) in
  let fm :=
    parseDocument Ex.lower
      (Ex.text ["---"; "title: Test"; "---"; ""; "# Title"]) in
  frontmatter (setFrontmatter plain (Js.lit "title: Test"))
  = Some (Ex.text ["---"; "title: Test"; "---"])
  /\ take 4 (lines (setFrontmatter plain (Js.lit "title: Test")))
     = [Js.lit "---"; Js.lit "title: Test"; Js.lit "---"; []]
  /\ frontmatter (setFrontmatter fm []) = None
  /\ lines (setFrontmatter fm []) = [[]; Js.lit "# Title"].
Proof. cbv zeta. repeat split; vm_compute; reflexivity. Qed.


(** Writing [new] to [# A] in [Ex.siblings], then reading [# A]. *)
Lemma cmdWrite_then_cmdRead_witness :
  writeReadPost Ex.lower () Ex.yaml Ex.magic (Ex.disk Ex.siblings) Ex.notes
                (Js.lit "4887bbd6") (Js.lit "new") false Ex.siblings
                Ex.sectionA.
Proof.
  apply cmdWrite_then_cmdRead.
  - apply disk_readable.
  - apply disk_writable.
  - vm_compute. reflexivity.
  - split.
    + vm_compute. apply Forall_cons. split; [|constructor].
      split; [reflexivity|]. split; [reflexivity|discriminate].
    + right. eexists. split; [vm_compute; reflexivity|].
      vm_compute. discriminate.
Defined.

Example cmdWrite_cmdRead_siblings :
  let w' :=
    (cmdWrite Ex.lower () Ex.yaml Ex.magic Ex.notes (Js.lit "4887bbd6")
              (Js.lit "new") false (Ex.disk Ex.siblings)).2 in
  (cmdRead Ex.lower Ex.notes (Js.lit "4887bbd6") false w').1
  = Return (mkSection (Js.lit "4887bbd6") 1 (Js.lit "A") 1 3,
            Ex.text [""; "new"], 3).
Proof. vm_compute. reflexivity. Qed.

(** Emptying [# A] in [Ex.siblings], then reading it. *)
Lemma cmdEmpty_then_cmdRead_witness :
  emptyReadPost Ex.lower (Ex.disk Ex.siblings) Ex.notes (Js.lit "4887bbd6")
                false Ex.siblings Ex.sectionA.
Proof.
  apply cmdEmpty_then_cmdRead.
  - apply disk_readable.
  - apply disk_writable.
  - vm_compute. reflexivity.
Defined.

(** [meta] on [Ex.withMeta], with the toy frontmatter. *)
Lemma cmdMeta_queries_witness :
  metaQueryPost Ex.lower jsstring Ex.metaOfText Ex.keepText Ex.textOfMeta
                Ex.dropLine Ex.setLine Ex.valueOf (Ex.disk Ex.withMeta)
                Ex.notes Ex.withMeta.
Proof. apply cmdMeta_queries. apply disk_readable. Defined.

Lemma cmdMeta_set_then_show_witness :
  metaSetPost Ex.lower jsstring Ex.metaOfText Ex.keepText Ex.textOfMeta
              Ex.dropLine Ex.setLine Ex.valueOf (Ex.disk Ex.withMeta)
              Ex.notes Ex.withMeta (Js.lit "title") (Js.lit "New").
Proof.
  apply (cmdMeta_set_then_show Ex.lower jsstring Ex.metaOfText Ex.keepText
           Ex.textOfMeta Ex.dropLine Ex.setLine Ex.valueOf
           (Ex.disk Ex.withMeta) Ex.notes Ex.withMeta 116%N (Js.lit "itle")
           (Js.lit "New")).
  - apply disk_readable.
  - apply disk_writable.
  - split.
    + vm_compute. discriminate.
    + vm_compute. apply Forall_cons. split; [discriminate|constructor].
Defined.

Lemma cmdMeta_del_witness :
  metaDelPost Ex.lower jsstring Ex.metaOfText Ex.keepText Ex.textOfMeta
              Ex.dropLine Ex.setLine Ex.valueOf (Ex.disk Ex.withMeta)
              Ex.notes Ex.withMeta (Js.lit "title") None.
Proof.
  apply (cmdMeta_del Ex.lower jsstring Ex.metaOfText Ex.keepText
           Ex.textOfMeta Ex.dropLine Ex.setLine Ex.valueOf
           (Ex.disk Ex.withMeta) Ex.notes Ex.withMeta 116%N (Js.lit "itle")
           None).
  apply disk_readable.
Defined.

Example cmdMeta_withMeta :
  let run key value del h1 :=
    cmdMeta Ex.lower jsstring Ex.metaOfText Ex.keepText Ex.textOfMeta
            Ex.dropLine Ex.setLine Ex.valueOf Ex.notes key value del h1
            (Ex.disk Ex.withMeta) in
  run None None false true = (Return (Js.lit "Title"), Ex.disk Ex.withMeta)
  /\ run None None false false
     = (Return (Js.lit "title: Old"), Ex.disk Ex.withMeta)
  /\ run (Some (Js.lit "title")) None false false
     = (Return (Js.lit "Old"), Ex.disk Ex.withMeta)
  /\ run (Some (Js.lit "title")) (Some (Js.lit "New")) false false
     = (Return (Js.lit "set title"),
        Ex.disk (Ex.text ["---"; "title: New"; "---"; ""; "# Title"]))
  /\ run (Some (Js.lit "author")) None true false
     = (Throw metaError, Ex.disk Ex.withMeta)
  /\ run None None true false = (Throw metaError, Ex.disk Ex.withMeta).
Proof. cbv zeta. repeat split; vm_compute; reflexivity. Qed.

(** [create --title Title] of a new file beside [Ex.notes]. *)
Lemma cmdCreate_titled_witness :
  createPost Ex.lower jsstring Ex.keepText Ex.textOfMeta [] Ex.setLine
             (Ex.disk Ex.short) (Js.lit "new.md") (Js.lit "Title") false.
Proof.
  apply cmdCreate_titled.
  - apply not_elem_of_empty.
  - vm_compute. discriminate.
  - split.
    + vm_compute. discriminate.
    + vm_compute. repeat (apply Forall_cons; split; [reflexivity|]).
      constructor.
Defined.

Example cmdCreate_examples :
  let run file title entries force content :=
    cmdCreate jsstring Ex.keepText Ex.textOfMeta [] Ex.setLine file title
              entries force content (Ex.disk Ex.short) in
  (run Ex.notes (Some (Js.lit "T")) [] false None).1
  = Throw (MdError.mk io_error (Some Ex.notes) None)
  /\ run Ex.notes (Some (Js.lit "T")) [(Js.lit "a", Js.lit "1")] true
         (Some (Js.lit "text"))
     = (Return (Js.lit "created notes.md"),
        Ex.disk (Ex.text ["---"; "a: 1"; "---"; ""; "# T"; ""; "text"])).
Proof. cbv zeta. split; vm_compute; reflexivity. Qed.


(** Appending [more] to [# A] in [Ex.siblings], then reading [# A]. *)
Lemma cmdAppend_then_cmdRead_witness :
  appendReadPost Ex.lower () Ex.yaml Ex.magic (Ex.disk Ex.siblings) Ex.notes
                 (Js.lit "4887bbd6") (Js.lit "more") Ex.siblings Ex.sectionA.
Proof.
  apply cmdAppend_then_cmdRead.
  - apply disk_readable.
  - apply disk_writable.
  - vm_compute. reflexivity.
  - vm_compute.
    repeat (apply Forall_cons; split;
            [split; [reflexivity|]; split; [reflexivity|discriminate]|]).
    constructor.
  - vm_compute. apply Forall_cons. split; [|constructor].
    split; [reflexivity|]. split; [reflexivity|discriminate].
  - right. eexists. split; [vm_compute; reflexivity|].
    vm_compute. discriminate.
Defined.

Example cmdAppend_cmdRead_siblings :
  let w' :=
    (cmdAppend Ex.lower () Ex.yaml Ex.magic Ex.notes
               (Some (Js.lit "4887bbd6")) (Js.lit "more") false false
               (Ex.disk Ex.siblings)).2 in
  w' = Ex.disk (Ex.text ["# A"; "old"; ""; "more"; "# B"; "keep"])
  /\ (cmdRead Ex.lower Ex.notes (Js.lit "4887bbd6") false w').1
     = Return (mkSection (Js.lit "4887bbd6") 1 (Js.lit "A") 1 4,
               Ex.text ["old"; ""; "more"], 4).
Proof. cbv zeta. split; vm_compute; reflexivity. Qed.
